(** * BELEX search front-end: a shallow embedding of [app.py] and [app_unibe.py]

    The two Streamlit variants share, verbatim, the helpers
    [extract_bsg_number], [get_law_name], [format_grounding_chunks] and
    [list_documents]; they differ in [delete_document] and
    [upload_file_to_filestore].  Shared helpers are embedded once, the
    diverging ones once per variant (modules [App] and [AppUnibe]).

    Modelling choices:
    - a Python [str] is a sequence of 8-bit code points ([ascii]), i.e. the
      Latin-1 range of Unicode; message literals are kept byte for byte;
    - the network, the vendor SDK, the temp-file name and the clock are
      oracles handed to each helper; what a helper does to the session (screen
      output, temp files, requests) is recorded in a [world];
    - creating, writing and unlinking a temp file can each fail with an
      exception; whether they do is part of the [world];
    - [int] refuses more than 4300 digits, the interpreter's default;
    - [while True] loops take fuel, and running out of it is a third outcome
      next to returning and raising;
    - [@st.cache_data] is left out: the embedded [get_law_name] is the
      function the decorator wraps. *)

From Stdlib Require Import List String Ascii Bool Arith ZArith QArith Lia.
From Stdlib Require Import Permutation Sorted DecimalString.
Import ListNotations.

Close Scope Q_scope.
Set Implicit Arguments.
Set Warnings "-register-all".
Local Open Scope string_scope.
Local Open Scope list_scope.
Local Open Scope nat_scope.

(* ================================================================== *)
(** * Python string primitives *)
(* ================================================================== *)

Module PyStr.

Definition chars := list ascii.

(** String literals denote [chars]. *)
Coercion list_ascii_of_string : string >-> list.

Definition code (c : ascii) : nat := nat_of_ascii c.

(** [\d] and [str.isdigit] on code points below 256 reached by [\d]:
    the decimal digits 0-9. *)
Definition is_digit (c : ascii) : bool :=
  (48 <=? code c) && (code c <=? 57).

(** [\s] and [str.isspace] on code points below 256: TAB..CR, FS..US,
    SPACE, NEL and NBSP. *)
Definition is_space (c : ascii) : bool :=
  ((9 <=? code c) && (code c <=? 13))
  || ((28 <=? code c) && (code c <=? 32))
  || (code c =? 133) || (code c =? 160).

Definition dot : ascii := "."%char.
Definition dash : ascii := "-"%char.
Definition underscore : ascii := "_"%char.

(** [s.isdigit()]: non-empty and every character a digit. *)
Definition isdigit (s : chars) : bool :=
  match s with
  | [] => false
  | _ => forallb is_digit s
  end.

(** [int(s)] for an all-digit [s]. *)
Definition digit_val (c : ascii) : Z := Z.of_nat (code c) - 48.

Definition int_of_digits (s : chars) : Z :=
  fold_left (fun acc c => 10 * acc + digit_val c)%Z s 0%Z.

(** [s.split('.')[0]]: everything before the first dot. *)
Fixpoint before_first_dot (s : chars) : chars :=
  match s with
  | [] => []
  | c :: s' => if Ascii.eqb c dot then [] else c :: before_first_dot s'
  end.

(** [s.strip()]: drop leading and trailing whitespace. *)
Fixpoint lstrip (s : chars) : chars :=
  match s with
  | [] => []
  | c :: s' => if is_space c then lstrip s' else s
  end.

Definition rstrip (s : chars) : chars := rev (lstrip (rev s)).

Definition strip (s : chars) : chars := rstrip (lstrip s).

(** Python's ordering of [str]: lexicographic on code points. *)
Fixpoint str_leb (a b : chars) : bool :=
  match a, b with
  | [], _ => true
  | _ :: _, [] => false
  | x :: a', y :: b' =>
      if code x <? code y then true
      else if code y <? code x then false
      else str_leb a' b'
  end.

Definition str_eqb (a b : chars) : bool :=
  if list_eq_dec ascii_dec a b then true else false.

(** [a in b] for two strings. *)
Fixpoint is_substring (a b : chars) : bool :=
  str_eqb (firstn (List.length a) b) a
  || match b with
     | [] => false
     | _ :: b' => is_substring a b'
     end.

(** [str(n)] for an integer. *)
Definition str_of_Z (n : Z) : chars :=
  list_ascii_of_string (NilZero.string_of_int (Z.to_int n)).

End PyStr.

Import PyStr.

(* ================================================================== *)
(** * A backtracking matcher for the fragment of [re] used by the app *)
(* ================================================================== *)

Module Re.

(** Regular expressions as they appear in the pattern
    [BSG[\s_]?([\d.]+(?:-\d+)?)]: literals, character classes, sequence,
    greedy option, greedy one-or-more of a class, and the capture group. *)
Inductive regex : Type :=
| Lit (c : ascii)
| Class (p : ascii -> bool)
| Seq (r1 r2 : regex)
| Opt (r : regex)
| Rep1 (p : ascii -> bool)
| Group (r : regex).

(** A continuation receives the remaining input and the text captured
    so far by group 1. *)
Definition cont (R : Type) := chars -> option chars -> option R.

(** Greedy [p*]: consume while possible, give back on failure. *)
Fixpoint rep_class {R} (p : ascii -> bool) (s : chars) (k : chars -> option R)
  : option R :=
  match s with
  | c :: s' =>
      if p c then
        match rep_class p s' k with
        | Some r => Some r
        | None => k s
        end
      else k s
  | [] => k s
  end.

Fixpoint bt {R} (r : regex) (s : chars) (g : option chars) (k : cont R)
  : option R :=
  match r with
  | Lit c =>
      match s with
      | x :: s' => if Ascii.eqb x c then k s' g else None
      | [] => None
      end
  | Class p =>
      match s with
      | x :: s' => if p x then k s' g else None
      | [] => None
      end
  | Seq r1 r2 => bt r1 s g (fun s1 g1 => bt r2 s1 g1 k)
  | Opt r1 =>
      match bt r1 s g k with
      | Some res => Some res
      | None => k s g
      end
  | Rep1 p =>
      match s with
      | x :: s' => if p x then rep_class p s' (fun s1 => k s1 g) else None
      | [] => None
      end
  | Group r1 =>
      bt r1 s g (fun s1 _ => k s1 (Some (firstn (List.length s - List.length s1) s)))
  end.

(** [Pattern.match] at the start of [s]: the value of [group(1)]. *)
Definition match_here (r : regex) (s : chars) : option (option chars) :=
  bt r s None (fun _ g => Some g).

(** [re.search]: the leftmost start position that matches. *)
Fixpoint search (r : regex) (s : chars) : option (option chars) :=
  match match_here r s with
  | Some g => Some g
  | None =>
      match s with
      | [] => None
      | _ :: s' => search r s'
      end
  end.

(** The language of a regex (what it means for a word to match). *)
Inductive lang : regex -> chars -> Prop :=
| L_Lit c : lang (Lit c) [c]
| L_Class p c : p c = true -> lang (Class p) [c]
| L_Seq r1 r2 w1 w2 : lang r1 w1 -> lang r2 w2 -> lang (Seq r1 r2) (w1 ++ w2)
| L_OptNone r : lang (Opt r) []
| L_OptSome r w : lang r w -> lang (Opt r) w
| L_Rep1 p w : w <> [] -> Forall (fun c => p c = true) w -> lang (Rep1 p) w
| L_Group r w : lang r w -> lang (Group r) w.

End Re.

Import Re.

(* ================================================================== *)
(** * [extract_bsg_number] (identical in both variants) *)
(* ================================================================== *)

Definition is_sep (c : ascii) : bool := is_space c || Ascii.eqb c underscore.
Definition is_digit_or_dot (c : ascii) : bool := is_digit c || Ascii.eqb c dot.

(** [[\d.]+(?:-\d+)?], the body of group 1. *)
Definition bsg_group : regex :=
  Seq (Rep1 is_digit_or_dot) (Opt (Seq (Lit dash) (Rep1 is_digit))).

(** [r'BSG[\s_]?([\d.]+(?:-\d+)?)'] *)
Definition bsg_pattern : regex :=
  Seq (Lit "B"%char) (Seq (Lit "S"%char) (Seq (Lit "G"%char)
    (Seq (Opt (Class is_sep)) (Group bsg_group)))).

Definition extract_bsg_number (title : chars) : option chars :=
  match search bsg_pattern title with
  | Some g => g
  | None => None
  end.

(* ================================================================== *)
(** * Python run-time values: JSON data, dicts, exceptions *)
(* ================================================================== *)

Module Py.

(** A decoded JSON document ([response.json()]). *)
Inductive json : Type :=
| JNull
| JBool (b : bool)
| JNum (n : Z)
| JStr (s : chars)
| JArr (l : list json)
| JObj (kv : list (chars * json)).

(** A [dict] keeps its keys in insertion order. *)
Definition dict (K V : Type) := list (K * V).

Section Dict.
Context {K V : Type} (keq : K -> K -> bool).

Fixpoint dict_get (d : dict K V) (k : K) : option V :=
  match d with
  | [] => None
  | (k', v) :: d' => if keq k' k then Some v else dict_get d' k
  end.

Definition dict_mem (d : dict K V) (k : K) : bool :=
  match dict_get d k with Some _ => true | None => false end.

(** [d[k] = v]: overwrite in place, or append a new key at the end. *)
Fixpoint dict_set (d : dict K V) (k : K) (v : V) : dict K V :=
  match d with
  | [] => [(k, v)]
  | (k', v') :: d' =>
      if keq k' k then (k', v) :: d' else (k', v') :: dict_set d' k v
  end.

Definition dict_keys (d : dict K V) : list K := map fst d.
End Dict.

(** The exceptions the modelled code can meet; all derive from
    [Exception]. *)
Inductive exn : Type :=
| NameError (name : chars)
| KeyError (key : chars)
| AttributeError (msg : chars)
| TypeError (msg : chars)
| JSONDecodeError (msg : chars)
| RequestException (msg : chars)
| ApiError (msg : chars)
| OSError (msg : chars)
| ValueError (msg : chars).

(** [str(e)] *)
Definition exn_str (e : exn) : chars :=
  match e with
  | NameError n => "name '" ++ n ++ "' is not defined"
  | KeyError k => "'" ++ k ++ "'"
  | AttributeError m | TypeError m | JSONDecodeError m
  | RequestException m | ApiError m | OSError m | ValueError m => m
  end.

(** Truthiness of a decoded JSON value. *)
Definition truthy (j : json) : bool :=
  match j with
  | JNull => false
  | JBool b => b
  | JNum n => negb (n =? 0)%Z
  | JStr s => match s with [] => false | _ => true end
  | JArr l => match l with [] => false | _ => true end
  | JObj kv => match kv with [] => false | _ => true end
  end.

(** [x.get(key, default)]: only a dict has [.get]. *)
Definition json_get (j : json) (key : chars) (default : json) : exn + json :=
  match j with
  | JObj kv =>
      match dict_get str_eqb kv key with
      | Some v => inr v
      | None => inr default
      end
  | _ => inl (AttributeError "object has no attribute 'get'")
  end.

(** [key in x] *)
Definition json_contains (j : json) (key : chars) : exn + bool :=
  match j with
  | JObj kv => inr (dict_mem str_eqb kv key)
  | JArr l =>
      inr (existsb (fun e => match e with JStr s => str_eqb s key | _ => false end) l)
  | JStr s => inr (is_substring key s)
  | _ => inl (TypeError "argument is not iterable")
  end.

(** [x[key]] for a string key. *)
Definition json_index (j : json) (key : chars) : exn + json :=
  match j with
  | JObj kv =>
      match dict_get str_eqb kv key with
      | Some v => inr v
      | None => inl (KeyError key)
      end
  | JArr _ | JStr _ => inl (TypeError "indices must be integers")
  | _ => inl (TypeError "object is not subscriptable")
  end.

(** The elements [list.extend(x)] appends. *)
Definition json_iter (j : json) : exn + list json :=
  match j with
  | JArr l => inr l
  | JStr s => inr (map (fun c => JStr [c]) s)
  | JObj kv => inr (map (fun p => JStr (fst p)) kv)
  | _ => inl (TypeError "object is not iterable")
  end.

End Py.

Import Py.

(* ================================================================== *)
(** * Effects: the session's screen output, the temp directory, the
      network.  Every helper runs in one state-and-exception monad. *)
(* ================================================================== *)

Module Eff.

(** A [bytes] object: the code only takes its [len] and writes it out. *)
Record blob : Type := { blob_id : N; blob_len : N }.

(** The vendor SDK's upload call, as each variant fills it in. *)
Record upload_args : Type := {
  ua_store : chars;
  ua_path : chars;
  ua_mime_type : option chars;
  ua_display_name : chars;
  ua_custom_metadata : list (chars * chars)
}.

Record request : Type := {
  rq_url : chars;
  rq_headers : list (chars * chars);
  rq_params : list (chars * json)
}.

(** What [requests] hands back: a response, or an exception
    (connection error, timeout). *)
Record response : Type := {
  status_code : Z;
  text : chars;
  json_body : exn + json      (* [response.json()] *)
}.

Inductive http_outcome : Type :=
| Responds (r : response)
| Fails (e : exn).

Inductive event : Type :=
| StError (msg : chars)
| StInfo (msg : chars)
| StSuccess (msg : chars)
| StMarkdown (msg : chars)
| StJson (msg : chars)
| StButton (label : chars)
| HttpGet (rq : request)
| HttpDelete (rq : request)
| TempCreate (path : chars)
| TempWrite (path : chars) (data : blob)
| Unlink (path : chars)
| VendorUpload (args : upload_args).

(** What the temp directory is asked to do with a path. *)
Inductive disk_op : Type :=
| DoCreate      (* [tempfile.NamedTemporaryFile(delete=False, ...)] *)
| DoWrite       (* [tmp_file.write(...)], up to the close that ends [with] *)
| DoUnlink.     (* [os.unlink(...)] *)

(** [fs]: the paths that exist; [trace]: what happened, oldest first;
    [disk]: the exception, if any, with which the operating system
    answers an operation on a path (no space left, no permission). *)
Record world : Type := {
  fs : list chars;
  trace : list event;
  disk : disk_op -> chars -> option exn
}.

Inductive result (A : Type) : Type :=
| Ok (a : A)
| Raise (e : exn)
| OutOfFuel.
Arguments Raise {A} e.
Arguments OutOfFuel {A}.

Definition M (A : Type) : Type := world -> result A * world.

Definition ret {A} (a : A) : M A := fun w => (Ok a, w).

Definition bind {A B} (m : M A) (f : A -> M B) : M B :=
  fun w =>
    match m w with
    | (Ok a, w') => f a w'
    | (Raise e, w') => (Raise e, w')
    | (OutOfFuel, w') => (OutOfFuel, w')
    end.

Definition raise {A} (e : exn) : M A := fun w => (Raise e, w).

Definition out_of_fuel {A} : M A := fun w => (OutOfFuel, w).

Definition lift {A} (x : exn + A) : M A :=
  match x with
  | inl e => raise e
  | inr a => ret a
  end.

Definition emit (ev : event) : M unit :=
  fun w => (Ok tt, {| fs := fs w; trace := trace w ++ [ev]; disk := disk w |}).

(** [try: m  except Exception as e: h e] *)
Definition try_except {A} (m : M A) (h : exn -> M A) : M A :=
  fun w =>
    match m w with
    | (Raise e, w') => h e w'
    | r => r
    end.

(** [try: m  finally: fin] *)
Definition try_finally {A} (m : M A) (fin : M unit) : M A :=
  fun w =>
    match m w with
    | (OutOfFuel, w') => (OutOfFuel, w')
    | (r, w') =>
        match fin w' with
        | (Ok _, w'') => (r, w'')
        | (Raise e, w'') => (Raise e, w'')
        | (OutOfFuel, w'') => (OutOfFuel, w'')
        end
    end.

Declare Scope eff_scope.
Delimit Scope eff_scope with eff.
Notation "x <- m ;; k" := (bind m (fun x => k))
  (at level 61, m at next level, right associativity) : eff_scope.
Notation "m ;;; k" := (bind m (fun _ => k))
  (at level 61, right associativity) : eff_scope.
Local Open Scope eff_scope.

(** [requests.get] / [requests.delete] against an oracle for the peer. *)
Definition requests_get (peer : request -> http_outcome) (rq : request)
  : M response :=
  emit (HttpGet rq) ;;;
  match peer rq with
  | Responds r => ret r
  | Fails e => raise e
  end.

Definition requests_delete (peer : request -> http_outcome) (rq : request)
  : M response :=
  emit (HttpDelete rq) ;;;
  match peer rq with
  | Responds r => ret r
  | Fails e => raise e
  end.

(** Temp-directory primitives.  Each one asks [disk] first: an operation
    that fails raises and leaves files and trace as they are, so that an
    event in the trace is an operation that went through. *)
Definition temp_create (path : chars) : M unit :=
  fun w =>
    match disk w DoCreate path with
    | Some e => (Raise e, w)
    | None =>
        (Ok tt, {| fs := path :: fs w;
                   trace := trace w ++ [TempCreate path];
                   disk := disk w |})
    end.

Definition temp_write (path : chars) (data : blob) : M unit :=
  fun w =>
    match disk w DoWrite path with
    | Some e => (Raise e, w)
    | None => emit (TempWrite path data) w
    end.

Definition path_exists (path : chars) : M bool :=
  fun w => (Ok (existsb (str_eqb path) (fs w)), w).

Definition unlink (path : chars) : M unit :=
  fun w =>
    match disk w DoUnlink path with
    | Some e => (Raise e, w)
    | None =>
        (Ok tt, {| fs := filter (fun p => negb (str_eqb path p)) (fs w);
                   trace := trace w ++ [Unlink path];
                   disk := disk w |})
    end.

(** The vendor's ingestion call: it answers or raises. *)
Definition vendor_upload (vendor : upload_args -> exn + chars)
    (args : upload_args) : M chars :=
  emit (VendorUpload args) ;;; lift (vendor args).

(** Name resolution for a name that is not local to the function:
    module globals, then builtins. *)
Definition names (l : list string) : list chars :=
  map list_ascii_of_string l.

Definition builtins : list chars := names
  [ "abs"; "all"; "any"; "ascii"; "bin"; "bool"; "breakpoint"; "bytearray";
    "bytes"; "callable"; "chr"; "classmethod"; "compile"; "complex";
    "delattr"; "dict"; "dir"; "divmod"; "enumerate"; "eval"; "exec";
    "filter"; "float"; "format"; "frozenset"; "getattr"; "globals";
    "hasattr"; "hash"; "help"; "hex"; "id"; "input"; "int"; "isinstance";
    "issubclass"; "iter"; "len"; "list"; "locals"; "map"; "max";
    "memoryview"; "min"; "next"; "object"; "oct"; "open"; "ord"; "pow";
    "print"; "property"; "range"; "repr"; "reversed"; "round"; "set";
    "setattr"; "slice"; "sorted"; "staticmethod"; "str"; "sum"; "super";
    "tuple"; "type"; "vars"; "zip"; "__import__";
    "None"; "True"; "False"; "Ellipsis"; "NotImplemented"; "__debug__";
    "BaseException"; "Exception"; "ArithmeticError"; "AssertionError";
    "AttributeError"; "EOFError"; "ImportError"; "IndexError"; "KeyError";
    "KeyboardInterrupt"; "LookupError"; "MemoryError"; "NameError";
    "NotImplementedError"; "OSError"; "IOError"; "OverflowError";
    "RuntimeError"; "StopIteration"; "SyntaxError"; "SystemExit";
    "TypeError"; "UnicodeError"; "ValueError"; "ZeroDivisionError";
    "FileNotFoundError"; "PermissionError"; "TimeoutError"; "Warning" ].

Definition load_global (globals : list chars) (name : chars) : M unit :=
  if existsb (str_eqb name) (globals ++ builtins) then ret tt
  else raise (NameError name).

(** [PurePath(name).suffix] *)
Fixpoint last_component (acc s : chars) : chars :=
  match s with
  | [] => acc
  | c :: s' =>
      if Ascii.eqb c "/"%char then last_component [] s'
      else last_component (acc ++ [c]) s'
  end.

Fixpoint rfind_dot (i : nat) (s : chars) : option nat :=
  match s with
  | [] => None
  | c :: s' =>
      match rfind_dot (S i) s' with
      | Some j => Some j
      | None => if Ascii.eqb c dot then Some i else None
      end
  end.

Definition path_suffix (name : chars) : chars :=
  let nm := last_component [] name in
  match rfind_dot 0 nm with
  | Some i =>
      if (0 <? i) && (i <? List.length nm - 1) then skipn i nm else []
  | None => []
  end.

End Eff.

Import Eff.
Local Open Scope eff_scope.

(* ================================================================== *)
(** * Helpers shared verbatim by [app.py] and [app_unibe.py] *)
(* ================================================================== *)

Section Runtime.

(** [str()] of a decoded list or dict is left to the run time. *)
Variable repr_container : json -> chars.

(** [f"{x}"] on a decoded JSON value. *)
Definition py_str (j : json) : chars :=
  match j with
  | JNull => "None"
  | JBool true => "True"
  | JBool false => "False"
  | JNum n => str_of_Z n
  | JStr s => s
  | JArr _ | JObj _ => repr_container j
  end.

(** [get_law_name]: the value is [Some v] for a returned value and [None]
    for Python's [None].  [peer] answers the one GET (a timeout after 5 s
    is a [Fails]). *)
Definition get_law_name (peer : request -> http_outcome) (bsg_number : chars)
  : M (option json) :=
  try_except
    (let url := "https://www.belex.sites.be.ch/api/de/texts_of_law/" ++ bsg_number in
     response <- requests_get peer
                   {| rq_url := url; rq_headers := []; rq_params := [] |} ;;
     if (status_code response =? 200)%Z then
       data <- lift (json_body response) ;;
       tol <- lift (json_get data "text_of_law" (JObj [])) ;;
       title <- lift (json_get tol "title" (JStr "")) ;;
       tol' <- lift (json_get data "text_of_law" (JObj [])) ;;
       abbreviation <- lift (json_get tol' "abbreviation" (JStr "")) ;;
       if truthy title && truthy abbreviation then
         ret (Some (JStr (py_str title ++ " (" ++ py_str abbreviation ++ ")")))
       else if truthy title then ret (Some title)
       else ret None
     else ret None)
    (fun _ => ret None).

End Runtime.

(** ** [format_grounding_chunks] *)

Module Genai.

(** [hasattr(x, 'f')] and the attribute's value. *)
Inductive attr (A : Type) : Type :=
| Absent
| Present (a : A).
Arguments Absent {A}.

Record RetrievedContext : Type := { rc_title : attr chars; rc_text : attr chars }.
Record GroundingChunk : Type := { retrieved_context : attr RetrievedContext }.
Record GroundingMetadata : Type := { grounding_chunks : attr (list GroundingChunk) }.
Record Candidate : Type := { grounding_metadata : attr GroundingMetadata }.
Record GenerateContentResponse : Type := { candidates : attr (list Candidate) }.

End Genai.

Import Genai.

Definition sources := dict chars (list chars).

(** [if title not in sources_dict: sources_dict[title] = []] *)
Definition ensure_key (sources_dict : sources) (title : chars) : sources :=
  if dict_mem str_eqb sources_dict title then sources_dict
  else dict_set str_eqb sources_dict title [].

(** [sources_dict[title].append(snippet)] *)
Definition append_snippet (sources_dict : sources) (title snippet : chars)
  : sources :=
  match dict_get str_eqb sources_dict title with
  | Some l => dict_set str_eqb sources_dict title (l ++ [snippet])
  | None => sources_dict
  end.

(** One turn of the [for chunk in grounding.grounding_chunks] loop. *)
Definition format_chunk (sources_dict : sources) (chunk : GroundingChunk)
  : sources :=
  match retrieved_context chunk with
  | Present context =>
      match rc_title context with
      | Present title =>
          match rc_text context with
          | Present ((_ :: _) as txt) =>
              let d := ensure_key sources_dict title in
              let snippet := strip txt in
              append_snippet d title snippet
          | _ => ensure_key sources_dict title
          end
      | Absent => sources_dict
      end
  | Absent => sources_dict
  end.

Definition format_grounding_chunks (response : GenerateContentResponse)
  : sources :=
  match candidates response with
  | Present (candidate :: _) =>
      match grounding_metadata candidate with
      | Present grounding =>
          match grounding_chunks grounding with
          | Present ((_ :: _) as chunks) => fold_left format_chunk chunks []
          | _ => []
          end
      | Absent => []
      end
  | _ => []
  end.

(** The same function with its [dict] as an object.  [sources_dict = {}]
    makes a new object at each call, and the loop changes that object in
    place. *)
Definition heap := list sources.

Definition new_dict (h : heap) : nat * heap := (List.length h, h ++ [[]]).

(** Change the object at address [a] in place. *)
Fixpoint mutate (a : nat) (f : sources -> sources) (h : heap) : heap :=
  match h, a with
  | [], _ => []
  | d :: h', O => f d :: h'
  | d :: h', S a' => d :: mutate a' f h'
  end.

Definition format_grounding_chunks_run (response : GenerateContentResponse)
    (h : heap) : nat * heap :=
  let '(sources_dict, h) := new_dict h in
  match candidates response with
  | Present (candidate :: _) =>
      match grounding_metadata candidate with
      | Present grounding =>
          match grounding_chunks grounding with
          | Present ((_ :: _) as chunks) =>
              (sources_dict,
               fold_left (fun h chunk =>
                            mutate sources_dict (fun d => format_chunk d chunk) h)
                 chunks h)
          | _ => (sources_dict, h)
          end
      | Absent => (sources_dict, h)
      end
  | _ => (sources_dict, h)
  end.

(** ** [list_documents] *)

Definition listing_url (filestore_id : chars) : chars :=
  "https://generativelanguage.googleapis.com/v1beta/" ++ filestore_id ++ "/documents".

Definition listing_request (api_key url : chars) (page_token : json) : request :=
  {| rq_url := url;
     rq_headers := [("x-goog-api-key" : chars, api_key)];
     rq_params := ("pageSize" : chars, JNum 20)
                  :: (if truthy page_token
                      then [("pageToken" : chars, page_token)] else []) |}.

(** The [while True] loop; [fuel] bounds the number of requests, and the
    answer to the [n]-th request may depend on [n]. *)
Fixpoint list_loop (fuel : nat) (peer : nat -> request -> http_outcome)
    (n : nat) (api_key url : chars) (documents : list json) (page_token : json)
  : M (list json) :=
  match fuel with
  | O => out_of_fuel
  | S fuel' =>
      response <- requests_get (peer n) (listing_request api_key url page_token) ;;
      if (status_code response =? 200)%Z then
        data <- lift (json_body response) ;;
        has <- lift (json_contains data "documents") ;;
        documents' <- (if has : bool then
                         docs <- lift (json_index data "documents") ;;
                         items <- lift (json_iter docs) ;;
                         ret (documents ++ items)
                       else ret documents) ;;
        page_token' <- lift (json_get data "nextPageToken" JNull) ;;
        if negb (truthy page_token') then ret documents'
        else list_loop fuel' peer (S n) api_key url documents' page_token'
      else
        emit (StError ("Fehler beim Abrufen der Dokumente: "
                       ++ str_of_Z (status_code response))) ;;;
        emit (StError (text response)) ;;;
        ret documents
  end.

Definition list_documents (fuel : nat) (peer : nat -> request -> http_outcome)
    (api_key filestore_id : chars) : M (list json) :=
  try_except
    (list_loop fuel peer 0 api_key (listing_url filestore_id) [] JNull)
    (fun e =>
       emit (StError ("Fehler beim Auflisten der Dokumente: " ++ exn_str e)) ;;;
       ret []).

(** ** [main]: grouping the catalogue by Rechtsbuch *)

(** [sorted(l, key=key)]: a stable sort. *)
Section Sorted.
Context {A K : Type} (leb : K -> K -> bool) (key : A -> K).

Fixpoint insert_by (x : A) (l : list A) : list A :=
  match l with
  | [] => [x]
  | y :: l' => if leb (key x) (key y) then x :: l else y :: insert_by x l'
  end.

Definition sorted_by (l : list A) : list A := fold_right insert_by [] l.
End Sorted.

(** [doc.get('displayName', 'Unbekannt')], handed to [re.search]. *)
Definition doc_display_name (doc : json) : exn + chars :=
  match json_get doc "displayName" (JStr "Unbekannt") with
  | inl e => inl e
  | inr (JStr s) => inr s
  | inr _ => inl (TypeError "expected string or bytes-like object")
  end.

Definition rechtsbuecher_t := dict chars (list (chars * json)).

(** [rechtsbuecher[rechtsbuch].append((bsg_nr, doc))] on a
    [defaultdict(list)]. *)
Definition group_append (rechtsbuecher : rechtsbuecher_t)
    (rechtsbuch bsg_nr : chars) (doc : json) : rechtsbuecher_t :=
  match dict_get str_eqb rechtsbuecher rechtsbuch with
  | Some l => dict_set str_eqb rechtsbuecher rechtsbuch (l ++ [(bsg_nr, doc)])
  | None => dict_set str_eqb rechtsbuecher rechtsbuch [(bsg_nr, doc)]
  end.

(** The [for doc in documents] loop. *)
Fixpoint group_documents (documents : list json)
    (rechtsbuecher : rechtsbuecher_t) (documents_without_bsg : list json)
  : exn + (rechtsbuecher_t * list json) :=
  match documents with
  | [] => inr (rechtsbuecher, documents_without_bsg)
  | doc :: rest =>
      match doc_display_name doc with
      | inl e => inl e
      | inr display_name =>
          match extract_bsg_number display_name with
          | Some ((_ :: _) as bsg_nr) =>
              let rechtsbuch := before_first_dot bsg_nr in
              group_documents rest
                (group_append rechtsbuecher rechtsbuch bsg_nr doc)
                documents_without_bsg
          | _ =>
              group_documents rest rechtsbuecher (documents_without_bsg ++ [doc])
          end
      end
  end.

(** [lambda x: (int(x) if x.isdigit() else 999999, x)], where [int]
    answers; [sort_key_error] below says where it does not. *)
Definition rechtsbuch_key (x : chars) : Z * chars :=
  (if isdigit x then int_of_digits x else 999999%Z, x).

(** Python's ordering of [(int, str)] tuples. *)
Definition key_leb (a b : Z * chars) : bool :=
  (fst a <? fst b)%Z || ((fst a =? fst b)%Z && str_leb (snd a) (snd b)).

Definition sorted_rechtsbuecher (rechtsbuecher : rechtsbuecher_t) : list chars :=
  sorted_by key_leb rechtsbuch_key (dict_keys rechtsbuecher).

(** [int(x)] refuses a string of more than 4300 digits (the default of
    [sys.int_max_str_digits]) with a [ValueError]. *)
Definition int_max_str_digits : nat := 4300.

Definition int_refuses (x : chars) : bool :=
  isdigit x && (int_max_str_digits <? List.length x).

(** [sorted] applies the key function to the keys in turn, before it
    compares any: the first key [int] refuses ends the sort. *)
Definition sort_key_error (keys : list chars) : option exn :=
  match find int_refuses keys with
  | Some x =>
      Some (ValueError
              ("Exceeds the limit (4300 digits) for integer string conversion: value has "
               ++ str_of_Z (Z.of_nat (List.length x))
               ++ " digits; use sys.set_int_max_str_digits() to increase the limit"))
  | None => None
  end.

(** [sorted(docs_list, key=lambda x: x[0])] *)
Definition sorted_docs (docs_list : list (chars * json)) : list (chars * json) :=
  sorted_by str_leb fst docs_list.

(** What the catalogue tab shows: the book groups in display order, each
    with its documents in display order, then the ungrouped documents. *)
Definition catalogue_view (documents : list json)
  : exn + (list (chars * list (chars * json)) * list json) :=
  match group_documents documents [] [] with
  | inl e => inl e
  | inr (rechtsbuecher, documents_without_bsg) =>
      match sort_key_error (dict_keys rechtsbuecher) with
      | Some e => inl e
      | None =>
          inr (map (fun rechtsbuch =>
                      (rechtsbuch,
                       sorted_docs
                         (match dict_get str_eqb rechtsbuecher rechtsbuch with
                          | Some l => l
                          | None => []
                          end)))
                 (sorted_rechtsbuecher rechtsbuecher),
               documents_without_bsg)
      end
  end.

(* ================================================================== *)
(** * The document console: what differs between the two variants *)
(* ================================================================== *)

(** Streamlit's [UploadedFile]: [.name], [.type], [.getvalue()]. *)
Record UploadedFile : Type := {
  uf_name : chars;
  uf_type : chars;
  uf_value : blob
}.

(** [display_name or uploaded_file.name] *)
Definition display_name_or (display_name : option chars) (name : chars) : chars :=
  match display_name with
  | Some ((_ :: _) as d) => d
  | _ => name
  end.

Definition delete_request (api_key document_name : chars) : request :=
  {| rq_url := "https://generativelanguage.googleapis.com/v1beta/" ++ document_name;
     rq_headers := [("x-goog-api-key" : chars, api_key)];
     rq_params := [("force" : chars, JStr "true")] |}.

(** [len(uploaded_file.getvalue()) / (1024 * 1024)]: dividing by a power
    of two is exact, so the quotient is the rational itself. *)
Definition file_size_mb (f : UploadedFile) : Q :=
  (inject_Z (Z.of_N (blob_len (uf_value f))) / inject_Z (1024 * 1024))%Q.

(** [x > y] on these quotients. *)
Definition Qgtb (x y : Q) : bool := negb (Qle_bool x y).

(** ** [app.py], the public variant *)

Module App.

(** Names bound at module level: the imports of lines 6-12 and the
    [def]s. *)
Definition module_globals : list chars := names
  [ "__name__"; "__doc__"; "__file__"; "__builtins__";
    "re"; "requests"; "st"; "BELEXSearchEngine"; "genai"; "types";
    "load_config"; "extract_bsg_number"; "get_law_name";
    "format_grounding_chunks"; "list_documents";
    "upload_file_to_filestore"; "delete_document"; "main" ].

Definition upload_file_to_filestore
    (mkstemp : chars -> chars) (vendor : upload_args -> exn + chars)
    (filestore_id : chars) (uploaded_file : UploadedFile)
    (display_name : option chars) : M (option chars) :=
  try_except
    ((* suffix=Path(uploaded_file.name).suffix *)
     load_global module_globals "Path" ;;;
     let tmp_path := mkstemp (path_suffix (uf_name uploaded_file)) in
     temp_create tmp_path ;;;
     temp_write tmp_path (uf_value uploaded_file) ;;;
     try_finally
       (upload_response <-
          vendor_upload vendor
            {| ua_store := filestore_id;
               ua_path := tmp_path;
               ua_mime_type := Some (uf_type uploaded_file);
               ua_display_name := display_name_or display_name (uf_name uploaded_file);
               ua_custom_metadata := [] |} ;;
        ret (Some upload_response))
       (present <- path_exists tmp_path ;;
        if present : bool then unlink tmp_path else ret tt))
    (fun e =>
       emit (StError ("Fehler beim Hochladen: " ++ exn_str e)) ;;;
       ret None).

Definition delete_document (peer : request -> http_outcome)
    (api_key document_name : chars) : M bool :=
  try_except
    (response <- requests_delete peer (delete_request api_key document_name) ;;
     if (status_code response =? 200)%Z then ret true
     else
       emit (StError ("Fehler beim Löschen: " ++ str_of_Z (status_code response))) ;;;
       emit (StError (text response)) ;;;
       ret false)
    (fun e =>
       emit (StError ("Fehler beim Löschen: " ++ exn_str e)) ;;;
       ret false).

(** [main], upload tab: the size check and the button. [clicked] is what
    [st.button] returns when it is drawn; [fmt_2f] is the [:.2f] format. *)
Definition upload_tab (fmt_2f : Q -> chars) (clicked : bool)
    (mkstemp : chars -> chars) (vendor : upload_args -> exn + chars)
    (filestore_id : chars) (uploaded_file : option UploadedFile)
    (display_name : chars) : M unit :=
  match uploaded_file with
  | None => ret tt
  | Some f =>
      let size := file_size_mb f in
      emit (StInfo ("📊 Dateigröße: " ++ fmt_2f size ++ " MB")) ;;;
      if Qgtb size (inject_Z 100) then
        emit (StError "❌ Datei ist zu groß! Maximum: 100 MB")
      else
        emit (StButton "📤 Hochladen") ;;;
        if clicked then
          result <- upload_file_to_filestore mkstemp vendor filestore_id f
                      (Some display_name) ;;
          match result with
          | Some r =>
              emit (StSuccess "✅ Datei erfolgreich hochgeladen und indexiert!") ;;;
              emit (StMarkdown "**Upload-Details:**") ;;;
              emit (StJson r)
          | None => emit (StError "❌ Fehler beim Hochladen")
          end
        else ret tt
  end.

End App.

(** ** [app_unibe.py], the university variant *)

Module AppUnibe.

(** Line 8 adds [from pathlib import Path]. *)
Definition module_globals : list chars := names
  [ "__name__"; "__doc__"; "__file__"; "__builtins__";
    "re"; "Path"; "requests"; "st"; "BELEXSearchEngine"; "genai"; "types";
    "DEFAULT_SYSTEM_PROMPT";
    "load_config"; "extract_bsg_number"; "get_law_name";
    "format_grounding_chunks"; "list_documents";
    "upload_file_to_filestore"; "delete_document";
    "search_with_custom_prompt"; "main" ].

(** [now_iso] is [datetime.now().isoformat()]. *)
Definition upload_file_to_filestore (now_iso : chars)
    (mkstemp : chars -> chars) (vendor : upload_args -> exn + chars)
    (filestore_id : chars) (uploaded_file : UploadedFile)
    (display_name : option chars) : M (option chars) :=
  try_except
    (load_global module_globals "Path" ;;;
     let tmp_path := mkstemp (path_suffix (uf_name uploaded_file)) in
     temp_create tmp_path ;;;
     temp_write tmp_path (uf_value uploaded_file) ;;;
     try_finally
       (upload_response <-
          vendor_upload vendor
            {| ua_store := filestore_id;
               ua_path := tmp_path;
               ua_mime_type := None;
               ua_display_name := display_name_or display_name (uf_name uploaded_file);
               ua_custom_metadata :=
                 [("uploaded_via" : chars, "webapp" : chars);
                  ("upload_timestamp" : chars, now_iso)] |} ;;
        ret (Some upload_response))
       (present <- path_exists tmp_path ;;
        if present : bool then unlink tmp_path else ret tt))
    (fun e =>
       emit (StError ("Fehler beim Hochladen: " ++ exn_str e)) ;;;
       ret None).

Definition delete_document (peer : request -> http_outcome)
    (api_key document_name : chars) : M bool :=
  try_except
    (response <- requests_delete peer (delete_request api_key document_name) ;;
     if existsb (Z.eqb (status_code response)) [200; 204]%Z then ret true
     else
       emit (StError ("Fehler beim Löschen: Status " ++ str_of_Z (status_code response))) ;;;
       emit (StError ("Response: " ++ text response)) ;;;
       ret false)
    (fun e =>
       emit (StError ("Exception beim Löschen: " ++ exn_str e)) ;;;
       ret false).

Definition upload_tab (fmt_2f : Q -> chars) (clicked : bool) (now_iso : chars)
    (mkstemp : chars -> chars) (vendor : upload_args -> exn + chars)
    (filestore_id : chars) (uploaded_file : option UploadedFile)
    (display_name : chars) : M unit :=
  match uploaded_file with
  | None => ret tt
  | Some f =>
      let size := file_size_mb f in
      emit (StInfo ("📊 Dateigröße: " ++ fmt_2f size ++ " MB")) ;;;
      if Qgtb size (inject_Z 100) then
        emit (StError "❌ Datei ist zu groß! Maximum: 100 MB")
      else
        emit (StButton "📤 Hochladen") ;;;
        if clicked then
          result <- upload_file_to_filestore now_iso mkstemp vendor filestore_id f
                      (Some display_name) ;;
          match result with
          | Some _ =>
              emit (StSuccess "✅ Datei erfolgreich hochgeladen und indexiert!") ;;;
              emit (StInfo "Die Datei wird jetzt im Hintergrund indexiert und steht in Kürze für Suchanfragen zur Verfügung.")
          | None => emit (StError "❌ Fehler beim Hochladen")
          end
        else ret tt
  end.

End AppUnibe.

(* ================================================================== *)
(** * Start-up: [load_config] (identical in both variants) *)
(* ================================================================== *)

(** [try: m  except KeyError as e: h e]: other exceptions pass. *)
Definition try_except_key_error {A} (m : M A) (h : exn -> M A) : M A :=
  fun w =>
    match m w with
    | (Raise (KeyError k), w') => h (KeyError k) w'
    | r => r
    end.

(** [load_config]: [lookup a b] is what evaluating [st.secrets[a][b]]
    gives.  [st.stop()] ends the script run: the value [None] stands for
    a stopped script, [Some] for the pair returned. *)
Definition load_config (lookup : chars -> chars -> exn + json)
  : M (option (json * json)) :=
  found <- try_except_key_error
             (api_key <- lift (lookup "gemini" "api_key") ;;
              filestore_id <- lift (lookup "gemini" "filestore_id") ;;
              ret (Some (api_key, filestore_id)))
             (fun e =>
                emit (StError ("❌ Fehler: Fehlende Konfiguration in secrets: "
                               ++ exn_str e)) ;;;
                emit (StError "Bitte stellen Sie sicher, dass alle erforderlichen Secrets konfiguriert sind.") ;;;
                ret None) ;;
  match found with
  | None => ret None
  | Some (api_key, filestore_id) =>
      if negb (truthy api_key) || negb (truthy filestore_id) then
        emit (StError "❌ Fehler: API-Schlüssel oder Filestore-ID ist leer") ;;;
        ret None
      else ret (Some (api_key, filestore_id))
  end.

(* ================================================================== *)
(** * Searching: [belex_search.py] and the search tabs *)
(* ================================================================== *)

Module Genai_call.

(** The arguments of [client.models.generate_content]: model, contents,
    system instruction, and the one store of the file-search tool. *)
Record generate_call : Type := {
  gc_model : chars;
  gc_contents : chars;
  gc_system_instruction : option chars;
  gc_store : json
}.

(** What the call answers: [response.text] and the grounding data. *)
Record answer : Type := {
  ans_text : option chars;
  ans_response : GenerateContentResponse
}.

(** What a search does that can be seen from outside. *)
Inductive search_event : Type :=
| Printed (line : chars)            (* [print(line)] *)
| Prompted (prompt : chars)         (* [input(prompt)] *)
| Generated (call : generate_call)  (* the vendor call *)
| Shown (ev : event).               (* Streamlit output *)

Definition nl : chars := [ascii_of_nat 10].
Definition dquote : chars := [ascii_of_nat 34].

(** ["=" * 80] and ["-" * 80] *)
Definition rule (c : ascii) : chars := repeat c 80.

(** [enumerate(l, i)] *)
Fixpoint enumerate {A} (i : Z) (l : list A) : list (Z * A) :=
  match l with
  | [] => []
  | x :: l' => (i, x) :: enumerate (i + 1) l'
  end.

End Genai_call.

Import Genai_call.

(** ** [belex_search.py] *)

Module BelexSearch.

(** The lines printed for one source. *)
Definition source_lines (entry : Z * (chars * list chars)) : list search_event :=
  let '(i, (title, snippets)) := entry in
  (match Re.search bsg_pattern title with
   | Some (Some bsg_nr) =>
       let url := "https://www.belex.sites.be.ch/api/de/texts_of_law/" ++ bsg_nr in
       [Printed (nl ++ str_of_Z i ++ ". " ++ title);
        Printed ("   URL: " ++ url)]
   | _ => [Printed (nl ++ str_of_Z i ++ ". " ++ title)]
   end)
  ++ match snippets with
     | first :: _ => [Printed ("   " ++ dquote ++ first ++ dquote)]
     | [] => []
     end.

(** [BELEXSearchEngine.search]: what it prints and returns ([None] for
    Python's [None]). *)
Definition search (generate : generate_call -> exn + answer) (filestore_id : json)
    (query : chars) : list search_event * option answer :=
  let call := {| gc_model := "gemini-2.5-flash";
                 gc_contents := query;
                 gc_system_instruction := None;
                 gc_store := filestore_id |} in
  let opening :=
    [Printed (nl ++ "🔍 Searching for: '" ++ query ++ "'" ++ nl);
     Printed (rule "="%char);
     Generated call] in
  match generate call with
  | inl e => (opening ++ [Printed (nl ++ "❌ Search failed: " ++ exn_str e)], None)
  | inr response =>
      let answer_part :=
        match ans_text response with
        | Some ((_ :: _) as txt) =>
            [Printed (nl ++ "📄 Answer:"); Printed (rule "-"%char);
             Printed txt; Printed (nl ++ rule "="%char)]
        | _ => [Printed (nl ++ "⚠️  No answer generated")]
        end in
      let sources_part :=
        match candidates (ans_response response) with
        | Present (candidate :: _) =>
            match grounding_metadata candidate with
            | Present grounding =>
                match grounding_chunks grounding with
                | Present ((_ :: _) as chunks) =>
                    let sources_dict := fold_left format_chunk chunks [] in
                    [Printed (nl ++ "📚 Sources:"); Printed (rule "-"%char)]
                    ++ flat_map source_lines
                         (enumerate 1 (sorted_by str_leb fst sources_dict))
                    ++ [Printed (nl ++ rule "="%char)]
                | _ => []
                end
            | Absent => []
            end
        | _ => []
        end in
      (opening ++ answer_part ++ sources_part, Some response)
  end.

(** [str.lower] on code points below 256. *)
Definition lower_char (c : ascii) : ascii :=
  let n := code c in
  if ((65 <=? n) && (n <=? 90))
     || ((192 <=? n) && (n <=? 222) && negb (n =? 215))
  then ascii_of_nat (n + 32) else c.

Definition lower (s : chars) : chars := map lower_char s.

(** [" ".join(l)] *)
Fixpoint join_spaces (l : list chars) : chars :=
  match l with
  | [] => []
  | [x] => x
  | x :: l' => x ++ " " ++ join_spaces l'
  end.

(** What [input] meets: a line, or Ctrl-C; the end of the list is the
    end of the input. *)
Inductive stdin_event : Type :=
| Line (s : chars)
| Interrupt.

(** [query.lower() in ['quit', 'exit', 'q']] *)
Definition is_quit (query : chars) : bool :=
  existsb (str_eqb (lower query)) (names ["quit"; "exit"; "q"]).

(** The [while True] loop of [main]: one [input] per turn. *)
Fixpoint interactive (generate : generate_call -> exn + answer)
    (filestore_id : json) (stdin : list stdin_event) : list search_event :=
  Prompted "🔍 Search: "
  :: match stdin with
     | [] => []                                    (* EOFError *)
     | Interrupt :: _ => [Printed (nl ++ nl ++ "👋 Goodbye!")]
     | Line s :: rest =>
         let query := strip s in
         match query with
         | [] => interactive generate filestore_id rest
         | _ =>
             if is_quit query then [Printed (nl ++ "👋 Goodbye!")]
             else fst (search generate filestore_id query)
                  ++ Printed nl :: interactive generate filestore_id rest
         end
     end.

(** How [main] ends. *)
Inductive exit_status : Type :=
| Returned
| Exited (code : Z)
| Crashed (e : exn).

(** [main] of [belex_search.py].  [config_file] is [None] when
    [config.json] does not exist, else what [json.load] gives. *)
Definition main (config_file : option (exn + json)) (argv : list chars)
    (stdin : list stdin_event) (generate : generate_call -> exn + answer)
  : list search_event * exit_status :=
  match config_file with
  | None => ([Printed "❌ Error: config.json not found"], Exited 1)
  | Some (inl e) => ([], Crashed e)
  | Some (inr config) =>
      match json_get config "gemini" (JObj []) with
      | inl e => ([], Crashed e)
      | inr section =>
          match json_get section "api_key" JNull with
          | inl e => ([], Crashed e)
          | inr api_key =>
              match json_get section "filestore_id" JNull with
              | inl e => ([], Crashed e)
              | inr filestore_id =>
                  if negb (truthy api_key) then
                    ([Printed "❌ Error: gemini.api_key not found in config.json"],
                     Exited 1)
                  else if negb (truthy filestore_id) then
                    ([Printed "❌ Error: gemini.filestore_id not found in config.json"],
                     Exited 1)
                  else
                    match tl argv with
                    | _ :: _ =>
                        (fst (search generate filestore_id
                                (join_spaces (tl argv))),
                         Returned)
                    | [] =>
                        ([Printed (rule "="%char);
                          Printed "BELEX Search Engine - Interactive Mode";
                          Printed (rule "="%char);
                          Printed (nl ++ "Type your search queries (or 'quit' to exit)" ++ nl)]
                         ++ interactive generate filestore_id stdin,
                         Returned)
                    end
              end
          end
      end
  end.

End BelexSearch.

(** ** The search tab of [app.py] *)

(** What the session keeps of the last search. *)
Record search_state : Type := {
  last_query : chars;
  last_response : option answer
}.

Module AppSearch.

(** [main], search tab: [query] is the text area, [search_button] what
    [st.button] returns.  [search] catches what the vendor call raises,
    so the handler around it here has nothing to catch. *)
Definition search_tab (generate : generate_call -> exn + answer)
    (filestore_id : json) (st : search_state) (query : chars)
    (search_button : bool) : search_state * list search_event :=
  if search_button && match strip query with [] => false | _ => true end then
    let '(printed, response) := BelexSearch.search generate filestore_id query in
    ({| last_query := query; last_response := response |}, printed)
  else (st, []).

End AppSearch.

(** ** The search and prompt tabs of [app_unibe.py] *)

Module UnibeSearch.

Section Prompt.

(** The module constant [DEFAULT_SYSTEM_PROMPT]; nothing below depends on
    its text. *)
Variable DEFAULT_SYSTEM_PROMPT : chars.

(** The prompt settings the session keeps. *)
Record prompt_state : Type := {
  custom_system_prompt : chars;
  use_custom_prompt : bool
}.

(** The settings a fresh session starts with. *)
Definition initial_prompt_state : prompt_state :=
  {| custom_system_prompt := DEFAULT_SYSTEM_PROMPT; use_custom_prompt := false |}.

Definition search_with_custom_prompt (generate : generate_call -> exn + answer)
    (filestore_id : json) (query system_prompt : chars)
  : list search_event * option answer :=
  let call := {| gc_model := "gemini-2.5-pro";
                 gc_contents := query;
                 gc_system_instruction := Some system_prompt;
                 gc_store := filestore_id |} in
  match generate call with
  | inr response => ([Generated call], Some response)
  | inl e =>
      ([Generated call; Shown (StError ("❌ Fehler bei der Suche: " ++ exn_str e))],
       None)
  end.

(** [main], search tab. *)
Definition search_tab (generate : generate_call -> exn + answer)
    (filestore_id : json) (ps : prompt_state) (st : search_state)
    (query : chars) (search_button : bool) : search_state * list search_event :=
  let status :=
    if use_custom_prompt ps
    then Shown (StInfo "ℹ️ Es wird ein angepasster Systemprompt verwendet")
    else Shown (StInfo "ℹ️ Es wird der Standard-Systemprompt verwendet") in
  if search_button && match strip query with [] => false | _ => true end then
    let '(shown, response) :=
      if use_custom_prompt ps
      then search_with_custom_prompt generate filestore_id query
             (custom_system_prompt ps)
      else search_with_custom_prompt generate filestore_id query
             DEFAULT_SYSTEM_PROMPT in
    ({| last_query := query; last_response := response |}, status :: shown)
  else (st, [status]).

(** What the user does on the prompt tab in one run of the script. *)
Inductive prompt_action : Type :=
| Apply (edited_prompt : chars)     (* "Anwenden" with this text in the box *)
| Restore                           (* "Standard wiederherstellen" *)
| NoClick.

(** [main], prompt tab. *)
Definition prompt_tab (ps : prompt_state) (action : prompt_action)
  : prompt_state * list search_event :=
  match action with
  | Apply edited_prompt =>
      if negb (str_eqb edited_prompt DEFAULT_SYSTEM_PROMPT) then
        ({| custom_system_prompt := edited_prompt; use_custom_prompt := true |},
         [Shown (StSuccess "✅ Angepasster Prompt wird ab jetzt verwendet")])
      else
        ({| custom_system_prompt := DEFAULT_SYSTEM_PROMPT;
            use_custom_prompt := false |},
         [Shown (StSuccess "✅ Standard-Prompt wird verwendet")])
  | Restore =>
      ({| custom_system_prompt := DEFAULT_SYSTEM_PROMPT; use_custom_prompt := false |},
       [Shown (StSuccess "✅ Standard-Prompt wiederhergestellt")])
  | NoClick => (ps, [])
  end.

End Prompt.

End UnibeSearch.

(* ================================================================== *)
(** * Specification-side definitions *)
(* ================================================================== *)

(** ** The registry pattern, read directly *)

(** The longest prefix of [p]-characters, and what follows it. *)
Fixpoint take_while (p : ascii -> bool) (s : chars) : chars :=
  match s with
  | c :: s' => if p c then c :: take_while p s' else []
  | [] => []
  end.

Fixpoint drop_while (p : ascii -> bool) (s : chars) : chars :=
  match s with
  | c :: s' => if p c then drop_while p s' else s
  | [] => []
  end.

(** The registry segment read off directly: the longest run of digits and
    dots, then a dash with its digits when digits follow the dash.  The
    second component is what is left of the input. *)
Definition segment_split (s : chars) : option (chars * chars) :=
  match take_while is_digit_or_dot s with
  | [] => None
  | run =>
      let rest := drop_while is_digit_or_dot s in
      match rest with
      | c :: rest' =>
          if Ascii.eqb c dash then
            match take_while is_digit rest' with
            | [] => Some (run, rest)
            | ds => Some (run ++ dash :: ds, drop_while is_digit rest')
            end
          else Some (run, rest)
      | [] => Some (run, rest)
      end
  end.

Definition segment_at (s : chars) : option chars :=
  option_map fst (segment_split s).

(** A match anchored at the start of [s]: marker, at most one
    separator, segment. *)
Definition match_direct (s : chars) : option chars :=
  match s with
  | b :: s1 =>
      if Ascii.eqb b "B"%char then
        match s1 with
        | s_ :: s2 =>
            if Ascii.eqb s_ "S"%char then
              match s2 with
              | g :: t =>
                  if Ascii.eqb g "G"%char then
                    match t with
                    | c :: t' => if is_sep c then segment_at t' else segment_at t
                    | [] => None
                    end
                  else None
              | [] => None
              end
            else None
        | [] => None
        end
      else None
  | [] => None
  end.

(** [w] consists of characters of class [p]. *)
Definition all_of (p : ascii -> bool) (w : chars) : Prop :=
  Forall (fun c => p c = true) w.

(** An occurrence of the registry pattern in [title]: marker, optional
    separator, segment [g], with [pre] before and [post] after. *)
Definition occurrence (title pre sep g post : chars) : Prop :=
  title = pre ++ "BSG" ++ sep ++ g ++ post
  /\ (sep = [] \/ exists c, sep = [c] /\ is_sep c = true)
  /\ lang bsg_group g.

(** The title matches the registry pattern somewhere. *)
Definition matches_registry_pattern (title : chars) : Prop :=
  exists pre w post, title = pre ++ w ++ post /\ lang bsg_pattern w.

(** ** Runs of the effectful helpers *)

(** The world after [evs] more events and with file set [files]. *)
Definition after (w : world) (files : list chars) (evs : list event) : world :=
  {| fs := files; trace := trace w ++ evs; disk := disk w |}.

(** A response with the given status, body text and decoded body. *)
Definition status_response (status : Z) (body : chars) (j : exn + json) : response :=
  {| status_code := status; text := body; json_body := j |}.

(** The arguments [app_unibe.py] hands to the vendor's upload call. *)
Definition unibe_upload_args (now_iso : chars) (tmp_path filestore_id : chars)
    (uploaded_file : UploadedFile) (display_name : option chars) : upload_args :=
  {| ua_store := filestore_id;
     ua_path := tmp_path;
     ua_mime_type := None;
     ua_display_name := display_name_or display_name (uf_name uploaded_file);
     ua_custom_metadata :=
       [("uploaded_via" : chars, "webapp" : chars);
        ("upload_timestamp" : chars, now_iso)] |}.

(** The file set once [p] is unlinked. *)
Definition without (p : chars) (files : list chars) : list chars :=
  filter (fun q => negb (str_eqb p q)) files.

(** ** The upload tab *)

(** The ceiling of the size check, in bytes. *)
Definition size_ceiling : Z := 100 * (1024 * 1024).

(** The three things the upload tab can draw. *)
Definition size_info (fmt_2f : Q -> chars) (f : UploadedFile) : event :=
  StInfo ("📊 Dateigröße: " ++ fmt_2f (file_size_mb f) ++ " MB").

Definition too_large : event := StError "❌ Datei ist zu groß! Maximum: 100 MB".

Definition upload_button : event := StButton "📤 Hochladen".

(** The file of the 150 MB scenario, and a session that has done nothing
    yet. *)
Definition file_150mb : UploadedFile :=
  {| uf_name := "sammlung.pdf"; uf_type := "application/pdf";
     uf_value := {| blob_id := 1; blob_len := 150 * 1024 * 1024 |} |}.

(** A temp directory on which every operation goes through. *)
Definition sound_disk : disk_op -> chars -> option exn := fun _ _ => None.

(** A full temp directory: a file can be created there, and writing to
    it raises [e]. *)
Definition full_disk (e : exn) : disk_op -> chars -> option exn :=
  fun op _ => match op with DoWrite => Some e | _ => None end.

Definition empty_world : world := {| fs := []; trace := []; disk := sound_disk |}.

(** ** The title resolver *)

(** The GET [get_law_name] sends. *)
Definition law_request (bsg_number : chars) : request :=
  {| rq_url := "https://www.belex.sites.be.ch/api/de/texts_of_law/" ++ bsg_number;
     rq_headers := [];
     rq_params := [] |}.

(** The title and the abbreviation a decoded body carries, when the
    look-ups go through. *)
Definition law_fields (data : json) : option (json * json) :=
  match json_get data "text_of_law" (JObj []) with
  | inr tol =>
      match json_get tol "title" (JStr ""), json_get tol "abbreviation" (JStr "") with
      | inr title, inr abbreviation => Some (title, abbreviation)
      | _, _ => None
      end
  | inl _ => None
  end.

(** The display name, read off the outcome of the request. *)
Definition law_name_of (repr_container : json -> chars) (o : http_outcome)
  : option json :=
  match o with
  | Responds r =>
      if (status_code r =? 200)%Z then
        match json_body r with
        | inr data =>
            match law_fields data with
            | Some (title, abbreviation) =>
                if truthy title && truthy abbreviation then
                  Some (JStr (py_str repr_container title ++ " ("
                              ++ py_str repr_container abbreviation ++ ")"))
                else if truthy title then Some title
                else None
            | None => None
            end
        | inl _ => None
        end
      else None
  | Fails _ => None
  end.

(** A body as the law portal sends it. *)
Definition law_body : json :=
  JObj [("text_of_law" : chars,
         JObj [("title" : chars, JStr "Personalgesetz");
               ("abbreviation" : chars, JStr "PG")])].

(** ** Paginated listings *)

(** A decoded listing page is a dict; these are the records it carries
    and the token it hands on. *)
Definition page := list (chars * json).

(** The records under ["documents"], as [extend] would take them. *)
Definition page_docs (pg : page) : exn + list json :=
  match dict_get str_eqb pg "documents" with
  | Some v => json_iter v
  | None => inr []
  end.

(** [data.get("nextPageToken")] *)
Definition next_token (pg : page) : json :=
  match dict_get str_eqb pg "nextPageToken" with
  | Some t => t
  | None => JNull
  end.

Definition docs_of (pg : page) : list json :=
  match page_docs pg with
  | inr l => l
  | inl _ => []
  end.

(** How a listing ends: with a page that names no further token, or with
    a response whose status is not 200. *)
Inductive ending : Type :=
| LastPage (pg : page)
| ErrorPage (status : Z) (body : chars) (j : exn + json).

(** The peer serves [pages], each naming the next token, and then
    [fin], to the requests numbered from [n] on, the first of which
    carries [tok]. *)
Fixpoint served (peer : nat -> request -> http_outcome) (api_key url : chars)
    (n : nat) (tok : json) (pages : list page) (fin : ending) : Prop :=
  match pages with
  | pg :: rest =>
      (exists body,
          peer n (listing_request api_key url tok)
          = Responds (status_response 200 body (inr (JObj pg))))
      /\ truthy (next_token pg) = true
      /\ served peer api_key url (S n) (next_token pg) rest fin
  | [] =>
      match fin with
      | LastPage pg =>
          (exists body,
              peer n (listing_request api_key url tok)
              = Responds (status_response 200 body (inr (JObj pg))))
          /\ truthy (next_token pg) = false
      | ErrorPage status body j =>
          peer n (listing_request api_key url tok)
          = Responds (status_response status body j)
          /\ status <> 200%Z
      end
  end.

(** The page's records can be taken. *)
Definition readable (pg : page) : Prop := exists l, page_docs pg = inr l.

Definition ending_readable (fin : ending) : Prop :=
  match fin with
  | LastPage pg => readable pg
  | ErrorPage _ _ _ => True
  end.

Definition ending_docs (fin : ending) : list json :=
  match fin with
  | LastPage pg => docs_of pg
  | ErrorPage _ _ _ => []
  end.

Definition ending_events (fin : ending) : list event :=
  match fin with
  | LastPage _ => []
  | ErrorPage status body _ =>
      [StError ("Fehler beim Abrufen der Dokumente: " ++ str_of_Z status);
       StError body]
  end.

(** The GETs of a listing: each carries the token of the page before. *)
Fixpoint listing_gets (api_key url : chars) (tok : json) (pages : list page)
  : list event :=
  HttpGet (listing_request api_key url tok)
  :: match pages with
     | pg :: rest => listing_gets api_key url (next_token pg) rest
     | [] => []
     end.

(** A store of four documents served in three pages; the peer picks the
    page by the token it is sent. *)
Definition doc_named (name : string) : json :=
  JObj [("name" : chars, JStr name)].

Definition page_one : page :=
  [("documents" : chars, JArr [doc_named "documents/a"; doc_named "documents/b"]);
   ("nextPageToken" : chars, JStr "t1")].

Definition page_two : page :=
  [("documents" : chars, JArr [doc_named "documents/c"]);
   ("nextPageToken" : chars, JStr "t2")].

Definition page_three : page :=
  [("documents" : chars, JArr [doc_named "documents/d"])].

Definition three_page_peer (_ : nat) (rq : request) : http_outcome :=
  match dict_get str_eqb (rq_params rq) "pageToken" with
  | None => Responds (status_response 200 "" (inr (JObj page_one)))
  | Some (JStr t) =>
      if str_eqb t "t1" then Responds (status_response 200 "" (inr (JObj page_two)))
      else if str_eqb t "t2" then Responds (status_response 200 "" (inr (JObj page_three)))
      else Responds (status_response 400 "bad token" (inl (JSONDecodeError "")))
  | Some _ => Responds (status_response 400 "bad token" (inl (JSONDecodeError "")))
  end.

(** ** Grounding chunks as title/snippet entries *)

(** What one chunk contributes: its title and, when it has a non-empty
    text, that text stripped. *)
Definition chunk_entry (chunk : GroundingChunk) : option (chars * option chars) :=
  match retrieved_context chunk with
  | Present context =>
      match rc_title context with
      | Present title =>
          match rc_text context with
          | Present (c :: txt) => Some (title, Some (strip (c :: txt)))
          | _ => Some (title, None)
          end
      | Absent => None
      end
  | Absent => None
  end.

Definition entries (chunks : list GroundingChunk) : list (chars * option chars) :=
  flat_map (fun c => match chunk_entry c with Some e => [e] | None => [] end) chunks.

(** The snippets of title [t], in the order met. *)
Definition snippets_for (t : chars) (es : list (chars * option chars)) : list chars :=
  flat_map (fun e => if str_eqb (fst e) t
                     then match snd e with Some s => [s] | None => [] end
                     else []) es.

Definition titles (es : list (chars * option chars)) : list chars := map fst es.

(** What one chunk carries, before any stripping: its title and, when it
    has a text that is not empty, that text. *)
Definition chunk_text (chunk : GroundingChunk) : option (chars * option chars) :=
  match retrieved_context chunk with
  | Present context =>
      match rc_title context with
      | Present title =>
          match rc_text context with
          | Present (c :: txt) => Some (title, Some (c :: txt))
          | _ => Some (title, None)
          end
      | Absent => None
      end
  | Absent => None
  end.

Definition texts (chunks : list GroundingChunk) : list (chars * option chars) :=
  flat_map (fun c => match chunk_text c with Some e => [e] | None => [] end) chunks.

(** [s] is [txt] without its leading and trailing whitespace. *)
Definition blank (s : chars) : Prop := Forall (fun c => is_space c = true) s.

Definition stripped_of (txt s : chars) : Prop :=
  exists lead trail,
    txt = lead ++ s ++ trail /\ blank lead /\ blank trail
    /\ (forall c, hd_error s = Some c -> is_space c = false)
    /\ (forall c, hd_error (rev s) = Some c -> is_space c = false).

(** The claim in its words: the snippets of title [t] that are not empty
    once stripped, in the order met. *)
Definition nonempty_stripped_snippets (t : chars) (chunks : list GroundingChunk)
  : list chars :=
  filter (fun s => match s with [] => false | _ => true end)
    (map strip (snippets_for t (texts chunks))).

(** The chunk list the formatter reads: that of the first candidate. *)
Definition chunks_of (response : GenerateContentResponse) : list GroundingChunk :=
  match candidates response with
  | Present (candidate :: _) =>
      match grounding_metadata candidate with
      | Present grounding =>
          match grounding_chunks grounding with
          | Present chunks => chunks
          | Absent => []
          end
      | Absent => []
      end
  | _ => []
  end.

(** Sample chunks and a response that carries them. *)
Definition chunk (title : string) (snippet : option string) : GroundingChunk :=
  {| retrieved_context :=
       Present {| rc_title := Present (title : chars);
                  rc_text := match snippet with
                             | Some s => Present (s : chars)
                             | None => Absent
                             end |} |}.

Definition response_with (chunks : list GroundingChunk) : GenerateContentResponse :=
  {| candidates :=
       Present [ {| grounding_metadata :=
                      Present {| grounding_chunks := Present chunks |} |} ] |}.

(** The loop body on an entry. *)
Definition entry_step (d : sources) (e : chars * option chars) : sources :=
  match snd e with
  | Some s => append_snippet (ensure_key d (fst e)) (fst e) s
  | None => ensure_key d (fst e)
  end.

(** The state of [sources_dict] after the entries [es]. *)
Definition groups (d : sources) (es : list (chars * option chars)) : Prop :=
  NoDup (dict_keys d)
  /\ forall t, dict_get str_eqb d t
               = if existsb (str_eqb t) (titles es)
                 then Some (snippets_for t es) else None.

(** ** Display order *)

(** The order a sort by [key] establishes. *)
Definition key_le {A K : Type} (leb : K -> K -> bool) (key : A -> K) (x y : A)
  : Prop :=
  leb (key x) (key y) = true.

(** [a] is listed before [b]. *)
Definition listed_before {X} (l : list X) (a b : X) : Prop :=
  exists l1 l2 l3, l = l1 ++ a :: l2 ++ b :: l3.

Definition doc_titled (display_name : string) : json :=
  JObj [("displayName" : chars, JStr display_name)].

(** ** What a helper leaves alone *)

(** The computation only adds to the trace: the files stay as they are. *)
Definition frames {A} (m : M A) : Prop :=
  forall w : world, exists r evs, m w = (r, after w (fs w) evs).

(** The pages are served as in [served], and then the request numbered
    [n] with token [tok] meets [P]. *)
Fixpoint served_then (peer : nat -> request -> http_outcome) (api_key url : chars)
    (n : nat) (tok : json) (pages : list page)
    (P : nat -> json -> Prop) : Prop :=
  match pages with
  | pg :: rest =>
      (exists body,
          peer n (listing_request api_key url tok)
          = Responds (status_response 200 body (inr (JObj pg))))
      /\ truthy (next_token pg) = true
      /\ served_then peer api_key url (S n) (next_token pg) rest P
  | [] => P n tok
  end.

(** An exchange that ends in the exception [e]: the request fails, the
    body of a 200 does not decode, or the records of the page cannot be
    taken. *)
Definition breaks_with (o : http_outcome) (e : exn) : Prop :=
  o = Fails e
  \/ (exists body, o = Responds (status_response 200 body (inl e)))
  \/ (exists body pg, o = Responds (status_response 200 body (inr (JObj pg)))
                      /\ page_docs pg = inl e).

(** A peer that serves [page_one] and then drops the connection. *)
Definition dropping_peer (n : nat) (_ : request) : http_outcome :=
  match n with
  | 0 => Responds (status_response 200 "-" (inr (JObj page_one)))
  | _ => Fails (RequestException "Connection reset by peer")
  end.

(** ** Labels that carry a registry number *)

(** A character the segment of group 1 can hold. *)
Definition segment_char (c : ascii) : Prop :=
  is_digit_or_dot c = true \/ c = dash.

(** What follows cannot prolong a segment: nothing, or a character that
    is no digit, no dot and no dash. *)
Definition ends_segment (rest : chars) : Prop :=
  rest = [] \/ exists c rest', rest = c :: rest'
                               /\ is_digit_or_dot c = false /\ c <> dash.

(** ** The catalogue as a partition of the documents *)

(** The registry number [main] reads off a document, when its display
    name yields one. *)
Definition doc_number (doc : json) : option chars :=
  match doc_display_name doc with
  | inr display_name =>
      match extract_bsg_number display_name with
      | Some ((_ :: _) as bsg_nr) => Some bsg_nr
      | _ => None
      end
  | inl _ => None
  end.

(** The book number of an entry of a group. *)
Definition book_of (entry : chars * json) : chars := before_first_dot (fst entry).

(** The documents that carry a number, with it, in the order given. *)
Definition numbered (docs : list json) : list (chars * json) :=
  flat_map (fun doc => match doc_number doc with
                       | Some nr => [(nr, doc)]
                       | None => []
                       end) docs.

(** Those of book [k], and those without a number. *)
Definition members (k : chars) (docs : list json) : list (chars * json) :=
  filter (fun entry => str_eqb (book_of entry) k) (numbered docs).

Definition unnumbered (docs : list json) : list json :=
  filter (fun doc => match doc_number doc with None => true | Some _ => false end)
    docs.

(** The display name of the document can be read. *)
Definition well_titled (doc : json) : Prop :=
  exists display_name, doc_display_name doc = inr display_name.


(** [rechtsbuecher] after the documents [done]. *)
Definition grouped (d : rechtsbuecher_t) (done : list json) : Prop :=
  NoDup (dict_keys d)
  /\ forall k, dict_get str_eqb d k
               = if existsb (str_eqb k) (map book_of (numbered done))
                 then Some (members k done) else None.

(** Five documents: two of book 432, one of book 151, two without a
    number. *)
Definition sample_catalogue : list json :=
  [doc_titled "BSG_432.311"; doc_titled "Merkblatt"; doc_titled "BSG 151.1";
   doc_titled "BSG 432.21"; JObj []].

(** What the catalogue tab shows of [sample_catalogue]. *)
Definition sample_books : list (chars * list (chars * json)) :=
  Eval vm_compute in
    match catalogue_view sample_catalogue with
    | inr (books, _) => books
    | inl _ => []
    end.

Definition sample_rest : list json :=
  Eval vm_compute in
    match catalogue_view sample_catalogue with
    | inr (_, rest) => rest
    | inl _ => []
    end.

(** All snippets of the entries, in the order met. *)
Definition all_snippets (es : list (chars * option chars)) : list chars :=
  flat_map (fun e => match snd e with Some s => [s] | None => [] end) es.

(** ** The upload tab after a click *)

(** What [app_unibe.py] shows once the upload call is over. *)
Definition unibe_upload_verdict (outcome : exn + chars) : list event :=
  match outcome with
  | inr _ =>
      [StSuccess "✅ Datei erfolgreich hochgeladen und indexiert!";
       StInfo "Die Datei wird jetzt im Hintergrund indexiert und steht in Kürze für Suchanfragen zur Verfügung."]
  | inl e =>
      [StError ("Fehler beim Hochladen: " ++ exn_str e);
       StError "❌ Fehler beim Hochladen"]
  end.

(** A file within the limit. *)
Definition file_2kb : UploadedFile :=
  {| uf_name := "BSG_432.311.pdf"; uf_type := "application/pdf";
     uf_value := {| blob_id := 2; blob_len := 2048 |} |}.

(** ** Secrets *)



(** A secrets store with both entries set. *)
Definition full_secrets (a b : chars) : exn + json :=
  if str_eqb a "gemini" then
    if str_eqb b "api_key" then inr (JStr "AIza-key")
    else if str_eqb b "filestore_id" then inr (JStr "fileSearchStores/belex")
    else inl (KeyError b)
  else inl (KeyError a).

(** ** Vendor calls of a search *)

(** The vendor calls among the events, in order. *)
Definition calls (evs : list search_event) : list generate_call :=
  flat_map (fun ev => match ev with Generated c => [c] | _ => [] end) evs.

(** The call [BELEXSearchEngine.search] makes for a query. *)
Definition flash_call (filestore_id : json) (query : chars) : generate_call :=
  {| gc_model := "gemini-2.5-flash";
     gc_contents := query;
     gc_system_instruction := None;
     gc_store := filestore_id |}.

(** The call [search_with_custom_prompt] makes. *)
Definition pro_call (filestore_id : json) (system_prompt query : chars)
  : generate_call :=
  {| gc_model := "gemini-2.5-pro";
     gc_contents := query;
     gc_system_instruction := Some system_prompt;
     gc_store := filestore_id |}.

(** The string is not empty. *)
Definition nonblank (s : chars) : bool :=
  match s with [] => false | _ => true end.

(** What a call returns to its caller. *)
Definition returned (outcome : exn + answer) : option answer :=
  match outcome with inr response => Some response | inl _ => None end.

(** The input stops the interactive loop here: it ends, Ctrl-C is hit, or
    the line is a quit word. *)
Definition stops (stdin : list BelexSearch.stdin_event) : Prop :=
  stdin = []
  \/ (exists rest, stdin = BelexSearch.Interrupt :: rest)
  \/ (exists s rest, stdin = BelexSearch.Line s :: rest
                     /\ BelexSearch.is_quit (strip s) = true).

(** [config.json] names a non-empty key and this non-empty store. *)
Definition configured (config_file : option (exn + json)) (filestore_id : json)
  : Prop :=
  exists config section api_key,
    config_file = Some (inr config)
    /\ json_get config "gemini" (JObj []) = inr section
    /\ json_get section "api_key" JNull = inr api_key
    /\ json_get section "filestore_id" JNull = inr filestore_id
    /\ truthy api_key = true
    /\ truthy filestore_id = true.

(** A complete [config.json] and an answer with one source. *)
Definition sample_config : json :=
  JObj [("gemini" : chars,
         JObj [("api_key" : chars, JStr "AIza-key");
               ("filestore_id" : chars, JStr "fileSearchStores/belex")])].

Definition sample_answer : answer :=
  {| ans_text := Some ("Die Frist beträgt 30 Tage." : chars);
     ans_response := response_with [chunk "BSG_432.311" (Some " Art. 1 ")] |}.

(** The prompt tab over several runs of the script. *)
Definition run_prompt_tab (DEFAULT_SYSTEM_PROMPT : chars)
    (ps : UnibeSearch.prompt_state) (actions : list UnibeSearch.prompt_action)
  : UnibeSearch.prompt_state :=
  fold_left (fun ps a => fst (UnibeSearch.prompt_tab DEFAULT_SYSTEM_PROMPT ps a))
    actions ps.

(** The prompt a search sends, as the search tab picks it. *)
Definition prompt_in_use (DEFAULT_SYSTEM_PROMPT : chars)
    (ps : UnibeSearch.prompt_state) : chars :=
  if UnibeSearch.use_custom_prompt ps
  then UnibeSearch.custom_system_prompt ps
  else DEFAULT_SYSTEM_PROMPT.

(* ================================================================== *)
(** * Facts about the string primitives *)
(* ================================================================== *)

Unset Implicit Arguments.

Lemma str_eqb_eq (a b : chars) : str_eqb a b = true <-> a = b.
Proof.
  unfold str_eqb. destruct (list_eq_dec ascii_dec a b); split; congruence.
Qed.

Lemma str_eqb_refl (a : chars) : str_eqb a a = true.
Proof. now apply str_eqb_eq. Qed.

Lemma str_eqb_neq (a b : chars) : str_eqb a b = false <-> a <> b.
Proof.
  unfold str_eqb. destruct (list_eq_dec ascii_dec a b); split; congruence.
Qed.

Lemma str_eqb_sym (a b : chars) : str_eqb a b = str_eqb b a.
Proof.
  destruct (str_eqb b a) eqn:E.
  - apply str_eqb_eq in E. subst. apply str_eqb_refl.
  - apply str_eqb_neq in E. apply str_eqb_neq. congruence.
Qed.

Lemma take_drop_while p s : take_while p s ++ drop_while p s = s.
Proof.
  induction s as [|c s IH]; simpl; [reflexivity|].
  destruct (p c); simpl; [now rewrite IH | reflexivity].
Qed.

Lemma take_while_all p s : Forall (fun c => p c = true) (take_while p s).
Proof.
  induction s as [|c s IH]; simpl; [constructor|].
  destruct (p c) eqn:E; [constructor; assumption | constructor].
Qed.

(** A prefix made of [p]-characters is no longer than the longest one. *)
Lemma prefix_all_le_take_while p w rest :
  Forall (fun c => p c = true) w ->
  take_while p (w ++ rest) = w ++ take_while p rest.
Proof.
  induction 1 as [|c w Hc _ IH]; simpl; [reflexivity|].
  now rewrite Hc, IH.
Qed.

Lemma drop_while_app_all p w rest :
  Forall (fun c => p c = true) w ->
  drop_while p (w ++ rest) = drop_while p rest.
Proof.
  induction 1 as [|c w Hc _ IH]; simpl; [reflexivity|].
  now rewrite Hc.
Qed.

(** No separator character is a digit or a dot, and the dash is neither. *)
Lemma sep_not_digit_or_dot c : is_sep c = true -> is_digit_or_dot c = false.
Proof.
  destruct c as [[] [] [] [] [] [] [] []]; vm_compute; congruence.
Qed.

Lemma dash_not_digit_or_dot : is_digit_or_dot dash = false.
Proof. reflexivity. Qed.

(* ================================================================== *)
(** * The matcher against the direct reading of the pattern *)
(* ================================================================== *)

Section Matcher.

Lemma rep_class_total {R} p s (k : chars -> option R) :
  (forall s', k s' <> None) -> rep_class p s k = k (drop_while p s).
Proof.
  intros Hk. induction s as [|c s IH]; simpl; [reflexivity|].
  destruct (p c); [|reflexivity].
  rewrite IH. destruct (k (drop_while p s)) eqn:E; [reflexivity|].
  now apply Hk in E.
Qed.

Lemma segment_split_app s seg rest :
  segment_split s = Some (seg, rest) -> s = seg ++ rest.
Proof.
  unfold segment_split.
  pose proof (take_drop_while is_digit_or_dot s) as Hs.
  destruct (take_while is_digit_or_dot s) as [|r0 run] eqn:Er; [discriminate|].
  destruct (drop_while is_digit_or_dot s) as [|c rest'] eqn:Ed.
  - intros H. injection H as <- <-. now rewrite Hs.
  - destruct (Ascii.eqb c dash) eqn:Ec.
    + apply Ascii.eqb_eq in Ec. subst c.
      pose proof (take_drop_while is_digit rest') as Hr.
      destruct (take_while is_digit rest') as [|d ds] eqn:Et.
      * intros H. injection H as <- <-. now rewrite Hs.
      * intros H. injection H as <- <-.
        rewrite <- Hs. cbn. f_equal. rewrite <- app_assoc. cbn.
        do 2 f_equal. symmetry. exact Hr.
    + intros H. injection H as <- <-. now rewrite Hs.
Qed.

(** The body of group 1 under any continuation that cannot fail: the
    greedy choices are never undone. *)
Lemma bt_bsg_group {R} s g (k : cont R) :
  (forall s' g', k s' g' <> None) ->
  bt bsg_group s g k =
  match segment_split s with
  | Some (_, rest) => k rest g
  | None => None
  end.
Proof.
  intros Hk. unfold bsg_group, segment_split.
  cbn [bt].
  destruct s as [|c s']; [reflexivity|].
  cbn [take_while drop_while].
  destruct (is_digit_or_dot c) eqn:Ec; [|reflexivity].
  rewrite rep_class_total.
  2:{ intros s1. cbn [bt].
      destruct s1 as [|x s1']; [apply Hk|].
      destruct (Ascii.eqb x dash); [|apply Hk].
      destruct s1' as [|d s1'']; [apply Hk|].
      destruct (is_digit d); [|apply Hk].
      rewrite rep_class_total by (intros; apply Hk).
      destruct (k (drop_while is_digit s1'') g) eqn:E; [discriminate|].
      now apply Hk in E. }
  cbn [bt].
  destruct (drop_while is_digit_or_dot s') as [|x rest'] eqn:Ed; [reflexivity|].
  destruct (Ascii.eqb x dash) eqn:Ex; [|reflexivity].
  destruct rest' as [|d r'']; [reflexivity|].
  cbn [take_while drop_while].
  destruct (is_digit d) eqn:Edg; [|reflexivity].
  rewrite rep_class_total by (intros; apply Hk).
  destruct (k (drop_while is_digit r'') g) eqn:Ek; [reflexivity|].
  now apply Hk in Ek.
Qed.

Lemma firstn_length_diff {A} (a b : list A) :
  firstn (List.length (a ++ b) - List.length b) (a ++ b) = a.
Proof.
  rewrite length_app.
  replace (List.length a + List.length b - List.length b) with (List.length a + 0) by lia.
  rewrite firstn_app_2. simpl. apply app_nil_r.
Qed.

(** Group 1 at the head of [s] captures exactly [segment_at s]. *)
Lemma bt_capture s g :
  bt (Group bsg_group) s g (fun _ g' => Some g') = option_map Some (segment_at s).
Proof.
  cbn [bt]. rewrite bt_bsg_group by discriminate.
  unfold segment_at.
  destruct (segment_split s) as [[seg rest]|] eqn:E; [|reflexivity].
  apply segment_split_app in E. subst s. cbn.
  now rewrite firstn_length_diff.
Qed.

Lemma segment_split_sep c t :
  is_sep c = true -> segment_split (c :: t) = None.
Proof.
  intros H. unfold segment_split. cbn [take_while].
  now rewrite (sep_not_digit_or_dot c H).
Qed.

(** [Pattern.match] agrees with the direct reading. *)
Lemma match_here_direct s :
  match_here bsg_pattern s = option_map Some (match_direct s).
Proof.
  unfold match_here, bsg_pattern, match_direct.
  cbn [bt].
  destruct s as [|b s1]; [reflexivity|].
  destruct (Ascii.eqb b "B"); [|reflexivity].
  destruct s1 as [|s_ s2]; [reflexivity|].
  destruct (Ascii.eqb s_ "S"); [|reflexivity].
  destruct s2 as [|g0 t]; [reflexivity|].
  destruct (Ascii.eqb g0 "G"); [|reflexivity].
  destruct t as [|c t'].
  - reflexivity.
  - destruct (is_sep c) eqn:Ec.
    + pose proof (bt_capture t' None) as H1.
      pose proof (bt_capture (c :: t') None) as H2.
      cbn [bt] in H1, H2. rewrite H1, H2.
      unfold segment_at at 2. rewrite (segment_split_sep c t' Ec).
      now destruct (segment_at t').
    + pose proof (bt_capture (c :: t') None) as H2.
      cbn [bt] in H2. now rewrite H2.
Qed.

End Matcher.

(* ================================================================== *)
(** * The direct reading against the language of the pattern *)
(* ================================================================== *)

Section PatternLanguage.

(** Words of group 1: a non-empty run of digits and dots, then nothing or
    a dash and a non-empty run of digits. *)
Lemma lang_bsg_group_iff g :
  lang bsg_group g <->
  exists run sfx,
    g = run ++ sfx /\ run <> [] /\ all_of is_digit_or_dot run
    /\ (sfx = [] \/ exists ds, sfx = dash :: ds /\ ds <> [] /\ all_of is_digit ds).
Proof.
  unfold bsg_group. split.
  - intros H. inversion H as [| |r1 r2 w1 w2 H1 H2| | | |]; subst.
    inversion H1; subst. exists w1, w2. repeat split; try assumption.
    inversion H2 as [| | |r|r w Hw| |]; subst; [now left|right].
    inversion Hw as [| |r1 r2 x1 x2 Hx1 Hx2| | | |]; subst.
    inversion Hx1; subst. inversion Hx2; subst.
    exists x2. repeat split; assumption.
  - intros (run & sfx & -> & Hne & Hall & Hs).
    constructor; [now constructor|].
    destruct Hs as [->|(ds & -> & Hd & Hda)]; [constructor|].
    apply L_OptSome. change (dash :: ds) with ([dash] ++ ds).
    constructor; [constructor | now constructor].
Qed.

(** Words of the whole pattern. *)
Lemma lang_bsg_pattern_iff w :
  lang bsg_pattern w <->
  exists sep g,
    w = "BSG" ++ sep ++ g
    /\ (sep = [] \/ exists c, sep = [c] /\ is_sep c = true)
    /\ lang bsg_group g.
Proof.
  unfold bsg_pattern. split.
  - intros H.
    inversion H as [| |? ? b w1 HB H1| | | |]; subst. inversion HB; subst.
    inversion H1 as [| |? ? s w2 HS H2| | | |]; subst. inversion HS; subst.
    inversion H2 as [| |? ? g w3 HG H3| | | |]; subst. inversion HG; subst.
    inversion H3 as [| |? ? sep g HO HGr| | | |]; subst.
    inversion HGr; subst.
    exists sep, g. split; [reflexivity|]. split; [|assumption].
    inversion HO as [| | |?|? ? Hc| |]; subst; [now left|right].
    inversion Hc; subst. eexists; split; [reflexivity|assumption].
  - intros (sep & g & -> & Hsep & Hg).
    change ("BSG" ++ sep ++ g) with (["B"%char] ++ ["S"%char] ++ ["G"%char] ++ sep ++ g).
    do 3 (constructor; [constructor|]).
    constructor; [|now constructor].
    destruct Hsep as [->|(c & -> & Hc)]; [constructor|].
    apply L_OptSome. now constructor.
Qed.

Lemma take_while_nil_head p c s : p c = false -> take_while p (c :: s) = [].
Proof. intros H. cbn. now rewrite H. Qed.

(** What [segment_split] finds is a word of group 1. *)
Lemma segment_split_lang s seg rest :
  segment_split s = Some (seg, rest) -> lang bsg_group seg.
Proof.
  unfold segment_split. intros H. apply lang_bsg_group_iff.
  pose proof (take_while_all is_digit_or_dot s) as Hall.
  destruct (take_while is_digit_or_dot s) as [|r0 run] eqn:Er; [discriminate|].
  assert (Hrun : r0 :: run <> []) by discriminate.
  destruct (drop_while is_digit_or_dot s) as [|c rest'] eqn:Ed.
  { injection H as <- <-. exists (r0 :: run), []. rewrite app_nil_r. auto. }
  destruct (Ascii.eqb c dash) eqn:Ec.
  2:{ injection H as <- <-. exists (r0 :: run), []. rewrite app_nil_r. auto. }
  apply Ascii.eqb_eq in Ec. subst c.
  pose proof (take_while_all is_digit rest') as Hd.
  destruct (take_while is_digit rest') as [|d ds] eqn:Et.
  { injection H as <- <-. exists (r0 :: run), []. rewrite app_nil_r. auto. }
  injection H as <- <-. exists (r0 :: run), (dash :: d :: ds).
  repeat split; auto. right. exists (d :: ds). repeat split; auto. discriminate.
Qed.

(** Every word of group 1 that starts the input is found, and none is
    longer than what [segment_split] returns. *)
Lemma segment_split_longest g post :
  lang bsg_group g ->
  exists seg rest,
    segment_split (g ++ post) = Some (seg, rest)
    /\ List.length g <= List.length seg.
Proof.
  intros Hg. apply lang_bsg_group_iff in Hg.
  destruct Hg as (run & sfx & -> & Hne & Hall & Hs).
  unfold segment_split. rewrite <- app_assoc.
  rewrite (prefix_all_le_take_while _ run (sfx ++ post) Hall).
  rewrite (drop_while_app_all _ run (sfx ++ post) Hall).
  destruct run as [|r0 run]; [contradiction|]. cbn [app].
  destruct Hs as [->|(ds & -> & Hdne & Hd)].
  - cbn [app].
    remember (r0 :: run ++ take_while is_digit_or_dot post) as seg0 eqn:Eseg.
    assert (Hlen : List.length (r0 :: run) <= List.length seg0).
    { subst seg0. cbn. rewrite length_app. lia. }
    rewrite app_nil_r.
    destruct (drop_while is_digit_or_dot post) as [|c rest'].
    { subst seg0. eexists _, _. split; [reflexivity|]. subst. exact Hlen. }
    destruct (Ascii.eqb c dash).
    2:{ subst seg0. eexists _, _. split; [reflexivity|]. exact Hlen. }
    destruct (take_while is_digit rest') as [|d ds'].
    { subst seg0. eexists _, _. split; [reflexivity|]. exact Hlen. }
    subst seg0. eexists _, _. split; [reflexivity|].
    cbn in *. rewrite !length_app in *. cbn. lia.
  - cbn [app].
    rewrite (take_while_nil_head is_digit_or_dot dash _ dash_not_digit_or_dot).
    rewrite app_nil_r.
    cbn [drop_while]. rewrite dash_not_digit_or_dot.
    rewrite Ascii.eqb_refl.
    rewrite (prefix_all_le_take_while _ ds post Hd).
    destruct ds as [|d ds]; [contradiction|]. cbn [app].
    eexists _, _. split; [reflexivity|].
    cbn. rewrite !length_app. cbn. rewrite !length_app. lia.
Qed.

Lemma segment_at_longest g post :
  lang bsg_group g ->
  exists seg, segment_at (g ++ post) = Some seg /\ List.length g <= List.length seg.
Proof.
  intros Hg. destruct (segment_split_longest g post Hg) as (seg & rest & E & L).
  exists seg. unfold segment_at. now rewrite E.
Qed.

Lemma segment_at_sound s seg :
  segment_at s = Some seg -> exists rest, s = seg ++ rest /\ lang bsg_group seg.
Proof.
  unfold segment_at. destruct (segment_split s) as [[sg rest]|] eqn:E; [|discriminate].
  cbn. intros H. injection H as <-. exists rest. split.
  - now apply segment_split_app.
  - eapply segment_split_lang; eassumption.
Qed.

Lemma lang_bsg_group_head g :
  lang bsg_group g -> exists c g', g = c :: g' /\ is_digit_or_dot c = true.
Proof.
  intros H. apply lang_bsg_group_iff in H.
  destruct H as (run & sfx & -> & Hne & Hall & _).
  destruct run as [|c run]; [contradiction|].
  exists c, (run ++ sfx). split; [reflexivity|]. now inversion Hall.
Qed.

(** An anchored match is an occurrence with nothing before it. *)
Lemma match_direct_sound s g :
  match_direct s = Some g -> exists sep post, occurrence s [] sep g post.
Proof.
  unfold match_direct, occurrence.
  destruct s as [|b s1]; [discriminate|].
  destruct (Ascii.eqb b "B") eqn:Eb; [|discriminate]. apply Ascii.eqb_eq in Eb.
  destruct s1 as [|s_ s2]; [discriminate|].
  destruct (Ascii.eqb s_ "S") eqn:Es; [|discriminate]. apply Ascii.eqb_eq in Es.
  destruct s2 as [|g0 t]; [discriminate|].
  destruct (Ascii.eqb g0 "G") eqn:Eg; [|discriminate]. apply Ascii.eqb_eq in Eg.
  subst. destruct t as [|c t']; [discriminate|].
  destruct (is_sep c) eqn:Ec; intros H; apply segment_at_sound in H;
    destruct H as (rest & Ht & Hl).
  - exists [c], rest. rewrite Ht. repeat split; eauto.
  - exists [], rest. rewrite Ht. repeat split; auto.
Qed.

(** Every occurrence at the start of [s] is matched, by a segment at
    least as long. *)
Lemma match_direct_complete s sep g post :
  occurrence s [] sep g post ->
  exists g', match_direct s = Some g' /\ List.length g <= List.length g'.
Proof.
  intros (-> & Hsep & Hg). cbn.
  destruct Hsep as [->|(c & -> & Hc)]; cbn.
  - destruct (lang_bsg_group_head g Hg) as (c & g1 & -> & Hc). cbn.
    destruct (is_sep c) eqn:Es.
    + apply sep_not_digit_or_dot in Es. congruence.
    + apply (segment_at_longest (c :: g1) post Hg).
  - rewrite Hc. apply (segment_at_longest g post Hg).
Qed.

End PatternLanguage.

(* ================================================================== *)
(** * [re.search]: the leftmost match *)
(* ================================================================== *)

Section Search.

Variable r : regex.

Lemma search_none s :
  search r s = None ->
  forall pre suf, s = pre ++ suf -> match_here r suf = None.
Proof.
  induction s as [|c s IH]; cbn; intros H pre suf E.
  - destruct pre; [|discriminate]. cbn in E. subst suf.
    destruct (match_here r []); [discriminate|reflexivity].
  - destruct (match_here r (c :: s)) eqn:Em; [discriminate|].
    destruct pre as [|c' pre]; cbn in E.
    + now subst suf.
    + injection E as -> ->. now apply (IH H pre suf).
Qed.

Lemma search_some s x :
  search r s = Some x ->
  exists pre suf,
    s = pre ++ suf /\ match_here r suf = Some x
    /\ forall pre' suf', s = pre' ++ suf' ->
         List.length pre' < List.length pre -> match_here r suf' = None.
Proof.
  induction s as [|c s IH]; cbn; intros H.
  - destruct (match_here r []) eqn:Em; [|discriminate]. injection H as ->.
    exists [], []. repeat split; [assumption|]. cbn. intros; lia.
  - destruct (match_here r (c :: s)) eqn:Em.
    + injection H as ->. exists [], (c :: s). repeat split; [assumption|].
      cbn. intros; lia.
    + destruct (IH H) as (pre & suf & -> & Hm & Hleft).
      exists (c :: pre), suf. repeat split; [assumption|].
      intros pre' suf' E L. destruct pre' as [|c' pre']; cbn in E.
      * now subst suf'.
      * injection E as -> E. apply (Hleft pre' suf' E). cbn in L. lia.
Qed.

End Search.

Lemma occurrence_shift title pre suf sep g post :
  title = pre ++ suf ->
  (occurrence title pre sep g post <-> occurrence suf [] sep g post).
Proof.
  intros ->. unfold occurrence. cbn [app]. split.
  - intros (E & H). split; [|exact H]. now apply app_inv_head in E.
  - intros (E & H). split; [|exact H]. now rewrite E.
Qed.

Lemma matches_iff_occurrence title :
  matches_registry_pattern title <->
  exists pre sep g post, occurrence title pre sep g post.
Proof.
  unfold matches_registry_pattern, occurrence. split.
  - intros (pre & w & post & -> & Hw).
    apply lang_bsg_pattern_iff in Hw. destruct Hw as (sep & g & -> & Hsep & Hg).
    exists pre, sep, g, post. split; [|now split].
    cbn. now rewrite <- !app_assoc.
  - intros (pre & sep & g & post & -> & Hsep & Hg).
    exists pre, ("BSG" ++ sep ++ g), post. split.
    + cbn. now rewrite <- !app_assoc.
    + apply lang_bsg_pattern_iff. now exists sep, g.
Qed.

Lemma extract_bsg_number_some title g :
  extract_bsg_number title = Some g ->
  exists pre suf,
    title = pre ++ suf /\ match_direct suf = Some g
    /\ forall pre' suf', title = pre' ++ suf' ->
         List.length pre' < List.length pre -> match_direct suf' = None.
Proof.
  unfold extract_bsg_number.
  destruct (search bsg_pattern title) as [x|] eqn:E; [|discriminate].
  intros ->. apply search_some in E. destruct E as (pre & suf & -> & Hm & Hl).
  exists pre, suf. rewrite match_here_direct in Hm.
  split; [reflexivity|]. split.
  - destruct (match_direct suf); cbn in Hm; congruence.
  - intros pre' suf' E L. specialize (Hl pre' suf' E L).
    rewrite match_here_direct in Hl. now destruct (match_direct suf').
Qed.

Lemma extract_bsg_number_none title :
  extract_bsg_number title = None ->
  forall pre suf, title = pre ++ suf -> match_direct suf = None.
Proof.
  unfold extract_bsg_number.
  destruct (search bsg_pattern title) as [x|] eqn:E.
  - intros ->. apply search_some in E. destruct E as (pre & suf & _ & Hm & _).
    rewrite match_here_direct in Hm. now destruct (match_direct suf).
  - intros _ pre suf Es. pose proof (search_none _ _ E pre suf Es) as Hm.
    rewrite match_here_direct in Hm. now destruct (match_direct suf).
Qed.

(** C4. [extract_bsg_number] against the registry pattern: when the title
    matches, the result is the segment of the leftmost occurrence (no
    occurrence starts earlier), taken as long as the pattern allows (no
    occurrence at that place has a longer segment); when the title does
    not match, there is no result.  The scenario: ["BSG_432.311"] gives
    ["432.311"], whose book-group key is ["432"]. *)
Theorem extract_bsg_number_spec :
  forall title : chars,
    (matches_registry_pattern title ->
     exists pre sep g post,
       extract_bsg_number title = Some g
       /\ occurrence title pre sep g post
       /\ (forall pre' sep' g' post',
             occurrence title pre' sep' g' post' ->
             List.length pre <= List.length pre')
       /\ (forall sep' g' post',
             occurrence title pre sep' g' post' ->
             List.length g' <= List.length g))
    /\ (~ matches_registry_pattern title -> extract_bsg_number title = None)
    /\ extract_bsg_number "BSG_432.311" = Some ("432.311" : chars)
    /\ before_first_dot "432.311" = ("432" : chars).
Proof.
  intros title. split; [|split; [|split; reflexivity]].
  - intros Hm. apply matches_iff_occurrence in Hm.
    destruct Hm as (pre0 & sep0 & g0 & post0 & Hocc0).
    destruct (extract_bsg_number title) as [g|] eqn:E.
    + destruct (extract_bsg_number_some title g E) as (pre & suf & Et & Hd & Hleft).
      destruct (match_direct_sound suf g Hd) as (sep & post & Hocc).
      exists pre, sep, g, post. split; [reflexivity|]. split; [|split].
      * now apply (occurrence_shift title pre suf sep g post Et).
      * intros pre' sep' g' post' Ho.
        destruct (Nat.le_gt_cases (List.length pre) (List.length pre')) as [L|L];
          [exact L|exfalso].
        pose proof Ho as (Et' & _).
        apply (occurrence_shift title pre' _ sep' g' post' Et') in Ho.
        destruct (match_direct_complete _ _ _ _ Ho) as (g'' & Hg'' & _).
        rewrite (Hleft pre' _ Et' L) in Hg''. discriminate.
      * intros sep' g' post' Ho.
        apply (occurrence_shift title pre suf sep' g' post' Et) in Ho.
        destruct (match_direct_complete _ _ _ _ Ho) as (g'' & Hg'' & Hlen).
        rewrite Hd in Hg''. now injection Hg'' as <-.
    + exfalso. pose proof Hocc0 as (Et & _).
      apply (occurrence_shift title pre0 _ sep0 g0 post0 Et) in Hocc0.
      destruct (match_direct_complete _ _ _ _ Hocc0) as (g'' & Hg'' & _).
      rewrite (extract_bsg_number_none title E pre0 _ Et) in Hg''. discriminate.
  - intros Hn. destruct (extract_bsg_number title) as [g|] eqn:E; [exfalso|reflexivity].
    apply Hn. apply matches_iff_occurrence.
    destruct (extract_bsg_number_some title g E) as (pre & suf & Et & Hd & _).
    destruct (match_direct_sound suf g Hd) as (sep & post & Hocc).
    exists pre, sep, g, post.
    now apply (occurrence_shift title pre suf sep g post Et).
Qed.

(** C10. A title with the marker and no digit after it still yields a
    registry number: ["BSG."] gives ["."], which is non-empty and all
    dots; its book-number key is the empty string, and the catalogue
    files the document under that key. *)
Theorem extract_bsg_number_dots_only :
  exists title : chars,
    is_substring "BSG" title = true
    /\ existsb is_digit title = false
    /\ extract_bsg_number title = Some ("." : chars)
    /\ before_first_dot "." = ([] : chars)
    /\ catalogue_view [JObj [("displayName" : chars, JStr title)]]
       = inr ([([], [("." : chars, JObj [("displayName" : chars, JStr title)])])], []).
Proof.
  exists ("BSG." : chars). repeat split.
Qed.

(* ================================================================== *)
(** * Running the effectful helpers *)
(* ================================================================== *)

Ltac run_eff :=
  cbv beta iota zeta delta
    [try_except try_finally bind ret raise lift emit out_of_fuel
     requests_get requests_delete vendor_upload temp_create temp_write
     path_exists unlink load_global after];
  cbn [fst snd fs trace disk].

Ltac norm_trace := repeat (rewrite <- app_assoc; cbn [app]).

(** ** [delete_document] *)

Lemma app_delete_document_run peer api_key document_name w :
  App.delete_document peer api_key document_name w =
  let rq := delete_request api_key document_name in
  match peer rq with
  | Responds r =>
      if (status_code r =? 200)%Z then (Ok true, after w (fs w) [HttpDelete rq])
      else (Ok false,
            after w (fs w)
              [HttpDelete rq;
               StError ("Fehler beim Löschen: " ++ str_of_Z (status_code r));
               StError (text r)])
  | Fails e =>
      (Ok false,
       after w (fs w)
         [HttpDelete rq; StError ("Fehler beim Löschen: " ++ exn_str e)])
  end.
Proof.
  unfold App.delete_document. run_eff.
  destruct (peer (delete_request api_key document_name)) as [r|e]; cbn.
  - destruct (status_code r =? 200)%Z; cbn; norm_trace; reflexivity.
  - norm_trace; reflexivity.
Qed.

Lemma unibe_delete_document_run peer api_key document_name w :
  AppUnibe.delete_document peer api_key document_name w =
  let rq := delete_request api_key document_name in
  match peer rq with
  | Responds r =>
      if ((status_code r =? 200) || (status_code r =? 204))%Z
      then (Ok true, after w (fs w) [HttpDelete rq])
      else (Ok false,
            after w (fs w)
              [HttpDelete rq;
               StError ("Fehler beim Löschen: Status " ++ str_of_Z (status_code r));
               StError ("Response: " ++ text r)])
  | Fails e =>
      (Ok false,
       after w (fs w)
         [HttpDelete rq; StError ("Exception beim Löschen: " ++ exn_str e)])
  end.
Proof.
  unfold AppUnibe.delete_document. run_eff.
  destruct (peer (delete_request api_key document_name)) as [r|e]; cbn.
  - rewrite orb_false_r.
    destruct ((status_code r =? 200) || (status_code r =? 204))%Z;
      cbn; norm_trace; reflexivity.
  - norm_trace; reflexivity.
Qed.

(** In the university variant, success is exactly status 200 or 204, and
    any other status is reported with the status and the body. *)
Lemma unibe_delete_document_status peer api_key document_name w r :
  peer (delete_request api_key document_name) = Responds r ->
  (fst (AppUnibe.delete_document peer api_key document_name w) = Ok true
   <-> (status_code r = 200 \/ status_code r = 204)%Z)
  /\ ((status_code r <> 200 /\ status_code r <> 204)%Z ->
      AppUnibe.delete_document peer api_key document_name w =
      (Ok false,
       after w (fs w)
         [HttpDelete (delete_request api_key document_name);
          StError ("Fehler beim Löschen: Status " ++ str_of_Z (status_code r));
          StError ("Response: " ++ text r)])).
Proof.
  intros Hp. rewrite unibe_delete_document_run. cbn zeta. rewrite Hp.
  destruct (status_code r =? 200)%Z eqn:E1; destruct (status_code r =? 204)%Z eqn:E2;
    cbn; rewrite ?Z.eqb_eq, ?Z.eqb_neq in *; split;
    try (split; intros; auto; try lia; discriminate);
    intros; try lia; reflexivity.
Qed.

(** In the public variant, success is exactly status 200. *)
Lemma app_delete_document_status peer api_key document_name w r :
  peer (delete_request api_key document_name) = Responds r ->
  (fst (App.delete_document peer api_key document_name w) = Ok true
   <-> status_code r = 200%Z).
Proof.
  intros Hp. rewrite app_delete_document_run. cbn zeta. rewrite Hp.
  destruct (status_code r =? 200)%Z eqn:E1; cbn;
    rewrite ?Z.eqb_eq, ?Z.eqb_neq in *; split; intros; auto; try lia; discriminate.
Qed.

(** C1. At HTTP 204 the two variants part: [app_unibe.py] reports success,
    [app.py] reports failure and shows the status and the body. *)
Theorem delete_document_204_diverges :
  forall (api_key document_name body : chars) (j : exn + json) (w : world),
    let peer := fun _ : request => Responds (status_response 204 body j) in
    let rq := delete_request api_key document_name in
    AppUnibe.delete_document peer api_key document_name w
    = (Ok true, after w (fs w) [HttpDelete rq])
    /\ App.delete_document peer api_key document_name w
       = (Ok false,
          after w (fs w)
            [HttpDelete rq; StError "Fehler beim Löschen: 204"; StError body]).
Proof.
  intros. split.
  - rewrite unibe_delete_document_run. reflexivity.
  - rewrite app_delete_document_run. reflexivity.
Qed.

(** ** [upload_file_to_filestore] *)

Lemma path_not_bound_in_app :
  existsb (str_eqb "Path") (App.module_globals ++ builtins) = false.
Proof. vm_compute. reflexivity. Qed.

Lemma path_bound_in_unibe :
  existsb (str_eqb "Path") (AppUnibe.module_globals ++ builtins) = true.
Proof. vm_compute. reflexivity. Qed.

(** In [app.py] the call stops at the name [Path]. *)
Lemma app_upload_run mkstemp vendor filestore_id uploaded_file display_name w :
  App.upload_file_to_filestore mkstemp vendor filestore_id uploaded_file
    display_name w
  = (Ok None,
     after w (fs w)
       [StError "Fehler beim Hochladen: name 'Path' is not defined"]).
Proof.
  unfold App.upload_file_to_filestore. run_eff.
  rewrite path_not_bound_in_app. cbn. reflexivity.
Qed.

(** C2. In [app.py] every call of [upload_file_to_filestore] returns
    [None]: looking up [Path] raises [NameError], the handler shows it,
    and nothing else happens; no temp file, no call to the vendor. *)
Theorem app_upload_always_fails :
  forall (mkstemp : chars -> chars) (vendor : upload_args -> exn + chars)
         (filestore_id : chars) (uploaded_file : UploadedFile)
         (display_name : option chars) (w : world),
    App.upload_file_to_filestore mkstemp vendor filestore_id uploaded_file
      display_name w
    = (Ok None,
       after w (fs w)
         [StError "Fehler beim Hochladen: name 'Path' is not defined"]).
Proof.
  intros. apply app_upload_run.
Qed.

Lemma unibe_upload_run now_iso mkstemp vendor filestore_id uploaded_file
    display_name w :
  let p := mkstemp (path_suffix (uf_name uploaded_file)) in
  let args := unibe_upload_args now_iso p filestore_id uploaded_file display_name in
  let shown := fun e => StError ("Fehler beim Hochladen: " ++ exn_str e) in
  AppUnibe.upload_file_to_filestore now_iso mkstemp vendor filestore_id
    uploaded_file display_name w
  = match disk w DoCreate p with
    | Some e => (Ok None, after w (fs w) [shown e])
    | None =>
        match disk w DoWrite p with
        | Some e => (Ok None, after w (p :: fs w) [TempCreate p; shown e])
        | None =>
            match disk w DoUnlink p with
            | Some e =>
                (Ok None,
                 after w (p :: fs w)
                   [TempCreate p; TempWrite p (uf_value uploaded_file);
                    VendorUpload args; shown e])
            | None =>
                match vendor args with
                | inr upload_response =>
                    (Ok (Some upload_response),
                     after w (without p (p :: fs w))
                       [TempCreate p; TempWrite p (uf_value uploaded_file);
                        VendorUpload args; Unlink p])
                | inl e =>
                    (Ok None,
                     after w (without p (p :: fs w))
                       [TempCreate p; TempWrite p (uf_value uploaded_file);
                        VendorUpload args; Unlink p; shown e])
                end
            end
        end
    end.
Proof.
  intros p args shown. unfold AppUnibe.upload_file_to_filestore, load_global.
  rewrite path_bound_in_unibe. destruct w as [files tr dk].
  fold p. fold (unibe_upload_args now_iso p filestore_id uploaded_file display_name).
  fold args. subst shown. run_eff.
  destruct (dk DoCreate p) as [e1|]; run_eff; [norm_trace; reflexivity|].
  destruct (dk DoWrite p) as [e2|]; run_eff; [norm_trace; reflexivity|].
  destruct (vendor args) as [e|resp]; run_eff; cbn [existsb];
    rewrite str_eqb_refl; cbn [orb]; run_eff;
    destruct (dk DoUnlink p) as [e3|]; run_eff; unfold without;
    norm_trace; reflexivity.
Qed.

Lemma not_in_without p files : ~ In p (without p files).
Proof.
  unfold without. intros H. apply filter_In in H. destruct H as [_ H].
  rewrite str_eqb_refl in H. discriminate.
Qed.

(** What the code gets right: once the file is written, and unless the
    operating system refuses to unlink it, the file is gone when the
    function returns, whether the vendor call answers or raises. *)
Lemma unibe_upload_cleans_up_after_write now_iso mkstemp vendor filestore_id
    uploaded_file display_name w :
  let p := mkstemp (path_suffix (uf_name uploaded_file)) in
  let args := unibe_upload_args now_iso p filestore_id uploaded_file display_name in
  disk w DoCreate p = None -> disk w DoWrite p = None ->
  disk w DoUnlink p = None ->
  exists r evs,
    AppUnibe.upload_file_to_filestore now_iso mkstemp vendor filestore_id
      uploaded_file display_name w
    = (Ok r,
       after w (without p (p :: fs w))
         (TempCreate p :: TempWrite p (uf_value uploaded_file)
          :: VendorUpload args :: Unlink p :: evs))
    /\ ~ In p (without p (p :: fs w)).
Proof.
  intros p args Hc Hw Hu. rewrite unibe_upload_run. cbv zeta.
  fold p. fold args. rewrite Hc, Hw, Hu.
  destruct (vendor args); eexists _, _; (split; [reflexivity|apply not_in_without]).
Qed.

(** C8. The cleanup of [app_unibe.py] is not guaranteed: the temp file is
    written before the [try] whose [finally] unlinks it.  On a full disk,
    where the file can be created and the write raises [e], the function
    shows the error and returns [None]; no vendor call is made, nothing
    is unlinked, and the file is still there. *)
Theorem upload_write_failure_leaves_temp_file :
  forall (now_iso : chars) (mkstemp : chars -> chars)
         (vendor : upload_args -> exn + chars) (filestore_id : chars)
         (uploaded_file : UploadedFile) (display_name : option chars)
         (files : list chars) (tr : list event) (e : exn),
    let w := {| fs := files; trace := tr; disk := full_disk e |} in
    let p := mkstemp (path_suffix (uf_name uploaded_file)) in
    let run := AppUnibe.upload_file_to_filestore now_iso mkstemp vendor
                 filestore_id uploaded_file display_name w in
    run = (Ok None,
           after w (p :: files)
             [TempCreate p; StError ("Fehler beim Hochladen: " ++ exn_str e)])
    /\ In p (fs (snd run)).
Proof.
  intros. subst run. rewrite unibe_upload_run. cbv zeta. fold p.
  cbn. split; [reflexivity|now left].
Qed.

(** ** The upload tab of [main] *)

Lemma Qgtb_file_size f :
  Qgtb (file_size_mb f) (inject_Z 100)
  = (size_ceiling <? Z.of_N (blob_len (uf_value f)))%Z.
Proof.
  unfold Qgtb, Qle_bool, file_size_mb, size_ceiling.
  set (n := Z.of_N (blob_len (uf_value f))).
  cbn. rewrite Z.ltb_antisym. f_equal.
  destruct (n * 1 * 1 <=? 104857600)%Z eqn:E1; destruct (n <=? 104857600)%Z eqn:E2;
    rewrite ?Z.leb_le, ?Z.leb_gt in *; try reflexivity; lia.
Qed.

(** C9. A file of more than 100 MB is turned away in the upload tab of
    both variants: the size and the error are shown and nothing else
    happens (no button, no temp file, no vendor call), whatever the user
    clicks.  A file of at most 100 MB gets the upload button. *)
Theorem upload_size_ceiling :
  forall (fmt_2f : Q -> chars) (clicked : bool) (now_iso : chars)
         (mkstemp : chars -> chars) (vendor : upload_args -> exn + chars)
         (filestore_id : chars) (f : UploadedFile) (display_name : chars)
         (w : world),
    let n := Z.of_N (blob_len (uf_value f)) in
    ((size_ceiling < n)%Z ->
       App.upload_tab fmt_2f clicked mkstemp vendor filestore_id (Some f)
         display_name w
       = (Ok tt, after w (fs w) [size_info fmt_2f f; too_large])
       /\ AppUnibe.upload_tab fmt_2f clicked now_iso mkstemp vendor filestore_id
            (Some f) display_name w
          = (Ok tt, after w (fs w) [size_info fmt_2f f; too_large]))
    /\ ((n <= size_ceiling)%Z ->
        (exists files evs,
           App.upload_tab fmt_2f clicked mkstemp vendor filestore_id (Some f)
             display_name w
           = (Ok tt, after w files (size_info fmt_2f f :: upload_button :: evs)))
        /\ (exists files evs,
              AppUnibe.upload_tab fmt_2f clicked now_iso mkstemp vendor
                filestore_id (Some f) display_name w
              = (Ok tt, after w files (size_info fmt_2f f :: upload_button :: evs)))).
Proof.
  intros. split; intros Hn.
  - unfold App.upload_tab, AppUnibe.upload_tab.
    rewrite Qgtb_file_size. fold n.
    apply Z.ltb_lt in Hn. rewrite Hn.
    destruct w as [files tr dk]. split; run_eff; norm_trace; reflexivity.
  - unfold App.upload_tab, AppUnibe.upload_tab.
    rewrite Qgtb_file_size. fold n.
    apply Z.ltb_ge in Hn. rewrite Hn.
    destruct w as [files tr dk]. split.
    + destruct clicked; run_eff.
      * rewrite app_upload_run. run_eff.
        eexists _, _. norm_trace. reflexivity.
      * eexists _, _. norm_trace. reflexivity.
    + destruct clicked; run_eff.
      * rewrite unibe_upload_run. cbv zeta. cbn [disk].
        destruct (dk DoCreate _);
          [|destruct (dk DoWrite _);
            [|destruct (dk DoUnlink _); [|destruct (vendor _)]]];
          run_eff; eexists _, _; norm_trace; reflexivity.
      * eexists _, _. norm_trace. reflexivity.
Qed.

(** The scenario of the 150 MB file, clicked or not. *)
Lemma upload_150mb_rejected :
  App.upload_tab (fun _ => "150.00" : chars) true (fun s => "/tmp/tmpx" ++ s)
    (fun _ => inr ("operation" : chars)) "fileSearchStores/belex"
    (Some file_150mb) "" empty_world
  = (Ok tt,
     after empty_world []
       [size_info (fun _ => "150.00" : chars) file_150mb; too_large]).
Proof.
  apply (proj1 (upload_size_ceiling (fun _ => "150.00" : chars) true ""
                  (fun s => "/tmp/tmpx" ++ s)
                  (fun _ => inr ("operation" : chars)) "fileSearchStores/belex"
                  file_150mb "" empty_world)).
  reflexivity.
Defined.

(** ** [get_law_name] *)

Section LawName.

Variable repr_container : json -> chars.

(** [get_law_name] always returns, having sent one GET. *)
Lemma get_law_name_run peer bsg_number w :
  get_law_name repr_container peer bsg_number w
  = (Ok (law_name_of repr_container (peer (law_request bsg_number))),
     after w (fs w) [HttpGet (law_request bsg_number)]).
Proof.
  unfold get_law_name, law_name_of, law_fields. fold (law_request bsg_number).
  destruct w as [files tr dk]. run_eff.
  destruct (peer (law_request bsg_number)) as [r|e]; [|reflexivity].
  destruct (status_code r =? 200)%Z; [|reflexivity].
  destruct (json_body r) as [e|data]; [reflexivity|].
  destruct (json_get data "text_of_law" (JObj [])) as [e|tol]; [reflexivity|].
  cbv beta iota.
  destruct (json_get tol "title" (JStr "")) as [e|title]; [reflexivity|].
  cbv beta iota.
  destruct (json_get tol "abbreviation" (JStr "")) as [e|abbreviation];
    [reflexivity|].
  cbv beta iota.
  destruct (truthy title); destruct (truthy abbreviation); reflexivity.
Qed.

End LawName.

(** C6. [get_law_name] never raises: it returns after its one GET.  On
    status 200 with a title and an abbreviation it returns
    ["title (abbreviation)"]; with a title and no abbreviation, the
    title; with no title, nothing.  On any other status, on a failed
    request (timeout, connection error) and on a body that does not
    decode or is not shaped as expected, it returns nothing. *)
Theorem get_law_name_spec :
  forall (repr_container : json -> chars) (peer : request -> http_outcome)
         (bsg_number : chars) (w : world),
  exists v : option json,
    get_law_name repr_container peer bsg_number w
    = (Ok v, after w (fs w) [HttpGet (law_request bsg_number)])
    /\ (forall r data, peer (law_request bsg_number) = Responds r ->
         status_code r = 200%Z -> json_body r = inr data ->
         (forall t a abbreviation,
            t <> [] ->
            law_fields data = Some (JStr t, abbreviation) ->
            (abbreviation = JStr a -> a <> [] ->
             v = Some (JStr (t ++ " (" ++ a ++ ")")))
            /\ (truthy abbreviation = false -> v = Some (JStr t)))
         /\ (forall title abbreviation,
               law_fields data = Some (title, abbreviation) ->
               truthy title = false -> v = None)
         /\ (law_fields data = None -> v = None))
    /\ (forall r e, peer (law_request bsg_number) = Responds r ->
          json_body r = inl e -> v = None)
    /\ (forall r, peer (law_request bsg_number) = Responds r ->
          status_code r <> 200%Z -> v = None)
    /\ (forall e, peer (law_request bsg_number) = Fails e -> v = None).
Proof.
  intros repr_container peer bsg_number w.
  exists (law_name_of repr_container (peer (law_request bsg_number))).
  split; [apply get_law_name_run|].
  unfold law_name_of.
  destruct (peer (law_request bsg_number)) as [r0|e0].
  2:{ repeat split; intros; discriminate || reflexivity. }
  split; [|split; [|split]].
  - intros r data Hr Hs Hd. injection Hr as <-.
    rewrite Hs, Z.eqb_refl, Hd. split; [|split].
    + intros t a abbreviation Ht Hl. rewrite Hl.
      destruct t as [|t0 t]; [contradiction|]. split.
      * intros -> Ha. destruct a as [|a0 a]; [contradiction|]. reflexivity.
      * intros Hf. cbn [truthy andb]. now rewrite Hf.
    + intros title abbreviation Hl Hf. now rewrite Hl, Hf.
    + intros Hl. now rewrite Hl.
  - intros r e Hr He. injection Hr as <-. rewrite He.
    now destruct (status_code r0 =? 200)%Z.
  - intros r Hr Hs. injection Hr as <-. apply Z.eqb_neq in Hs. now rewrite Hs.
  - intros e He. discriminate.
Qed.

(** ** [list_documents] *)

Lemma list_loop_page fuel peer n api_key url documents tok w pg body :
  peer n (listing_request api_key url tok)
  = Responds (status_response 200 body (inr (JObj pg))) ->
  readable pg ->
  list_loop (S fuel) peer n api_key url documents tok w
  = if truthy (next_token pg)
    then list_loop fuel peer (S n) api_key url (documents ++ docs_of pg)
           (next_token pg)
           (after w (fs w) [HttpGet (listing_request api_key url tok)])
    else (Ok (documents ++ docs_of pg),
          after w (fs w) [HttpGet (listing_request api_key url tok)]).
Proof.
  intros Hp (l & Hl). cbn [list_loop]. unfold after.
  unfold docs_of, next_token. unfold page_docs in *.
  unfold bind at 1. unfold requests_get at 1. rewrite Hp.
  destruct w as [files tr dk]. run_eff. cbn [status_response status_code json_body].
  cbn [Z.eqb Pos.eqb json_contains json_index json_get]. run_eff.
  unfold dict_mem.
  destruct (dict_get str_eqb pg "documents") as [v|] eqn:Ed.
  - run_eff. rewrite Hl. run_eff.
    destruct (dict_get str_eqb pg "nextPageToken") as [t|]; run_eff.
    + destruct (truthy t); reflexivity.
    + cbn [truthy negb]. reflexivity.
  - run_eff. injection Hl as <-. rewrite app_nil_r.
    destruct (dict_get str_eqb pg "nextPageToken") as [t|]; run_eff.
    + destruct (truthy t); reflexivity.
    + cbn [truthy negb]. reflexivity.
Qed.

Lemma list_loop_error fuel peer n api_key url documents tok w status body j :
  peer n (listing_request api_key url tok)
  = Responds (status_response status body j) ->
  status <> 200%Z ->
  list_loop (S fuel) peer n api_key url documents tok w
  = (Ok documents,
     after w (fs w)
       [HttpGet (listing_request api_key url tok);
        StError ("Fehler beim Abrufen der Dokumente: " ++ str_of_Z status);
        StError body]).
Proof.
  intros Hp Hs. cbn [list_loop]. unfold bind at 1. unfold requests_get at 1.
  rewrite Hp. destruct w as [files tr dk]. run_eff.
  cbn [status_response status_code text].
  apply Z.eqb_neq in Hs. rewrite Hs. run_eff. norm_trace. reflexivity.
Qed.

Lemma after_after w files evs files' evs' :
  after (after w files evs) files' evs' = after w files' (evs ++ evs').
Proof. unfold after. cbn. now rewrite app_assoc. Qed.

Lemma list_loop_served peer api_key url pages fin :
  Forall readable pages -> ending_readable fin ->
  forall fuel n tok documents w,
    served peer api_key url n tok pages fin ->
    List.length pages < fuel ->
    list_loop fuel peer n api_key url documents tok w
    = (Ok (documents ++ List.concat (map docs_of pages) ++ ending_docs fin),
       after w (fs w) (listing_gets api_key url tok pages ++ ending_events fin)).
Proof.
  intros Hpages Hfin. induction Hpages as [|pg rest Hpg _ IH];
    intros fuel n tok documents w Hs Hfuel.
  - destruct fuel as [|fuel]; [cbn in Hfuel; lia|].
    destruct fin as [pg|status body j]; cbn in Hs.
    + destruct Hs as ((body & Hp) & Ht).
      rewrite (list_loop_page fuel peer n api_key url documents tok w pg body Hp Hfin).
      rewrite Ht. cbn. reflexivity.
    + destruct Hs as (Hp & Hne).
      rewrite (list_loop_error fuel peer n api_key url documents tok w
                 status body j Hp Hne).
      cbn. now rewrite app_nil_r.
  - destruct fuel as [|fuel]; [cbn in Hfuel; lia|].
    cbn in Hs. destruct Hs as ((body & Hp) & Ht & Hrest).
    rewrite (list_loop_page fuel peer n api_key url documents tok w pg body Hp Hpg).
    rewrite Ht.
    rewrite (IH fuel (S n) (next_token pg) (documents ++ docs_of pg) _ Hrest)
      by (cbn in Hfuel; lia).
    cbn [fs after]. rewrite after_after. cbn [map List.concat listing_gets app].
    now rewrite <- !app_assoc.
Qed.

(** C7. When the peer serves pages that each name a next token and then
    a last page without one, [list_documents] returns the records of all
    pages in order, having asked for each page with the token of the one
    before.  When the peer ends with another status than 200 instead, it
    returns the records of the pages before and shows the status and the
    body.  [fuel] only has to exceed the number of pages followed. *)
Theorem list_documents_spec :
  forall (peer : nat -> request -> http_outcome) (api_key filestore_id : chars)
         (pages : list page) (fin : ending) (fuel : nat) (w : world),
    served peer api_key (listing_url filestore_id) 0 JNull pages fin ->
    Forall readable pages -> ending_readable fin ->
    List.length pages < fuel ->
    list_documents fuel peer api_key filestore_id w
    = (Ok (List.concat (map docs_of pages) ++ ending_docs fin),
       after w (fs w)
         (listing_gets api_key (listing_url filestore_id) JNull pages
          ++ ending_events fin)).
Proof.
  intros peer api_key filestore_id pages fin fuel w Hs Hp Hf Hfuel.
  unfold list_documents, try_except.
  rewrite (list_loop_served peer api_key (listing_url filestore_id) pages fin
             Hp Hf fuel 0 JNull [] w Hs Hfuel).
  reflexivity.
Qed.

Lemma list_documents_three_pages :
  list_documents 3 three_page_peer "key" "fileSearchStores/belex" empty_world
  = (Ok [doc_named "documents/a"; doc_named "documents/b";
         doc_named "documents/c"; doc_named "documents/d"],
     after empty_world []
       (listing_gets "key" (listing_url "fileSearchStores/belex") JNull
          [page_one; page_two])).
Proof.
  apply (list_documents_spec three_page_peer "key" "fileSearchStores/belex"
           [page_one; page_two] (LastPage page_three) 3 empty_world).
  - cbn. repeat split; eexists; reflexivity.
  - repeat constructor; eexists; reflexivity.
  - eexists; reflexivity.
  - cbn. lia.
Defined.

(* ================================================================== *)
(** * Facts about dicts keyed by strings *)
(* ================================================================== *)

Section DictFacts.

Context {V : Type}.
Implicit Types (d : dict chars V) (k : chars) (v : V).

Lemma dict_get_set_same d k v : dict_get str_eqb (dict_set str_eqb d k v) k = Some v.
Proof.
  induction d as [|[k' v'] d IH]; cbn.
  - now rewrite str_eqb_refl.
  - destruct (str_eqb k' k) eqn:E; cbn; rewrite E; [reflexivity | exact IH].
Qed.

Lemma dict_get_set_other d k v k' :
  k <> k' -> dict_get str_eqb (dict_set str_eqb d k v) k' = dict_get str_eqb d k'.
Proof.
  intros Hne. induction d as [|[k0 v0] d IH]; cbn.
  - apply str_eqb_neq in Hne. now rewrite Hne.
  - destruct (str_eqb k0 k) eqn:E; cbn.
    + apply str_eqb_eq in E. subst k0. apply str_eqb_neq in Hne. now rewrite Hne.
    + now rewrite IH.
Qed.

Lemma dict_get_none_keys d k :
  dict_get str_eqb d k = None <-> ~ In k (dict_keys d).
Proof.
  induction d as [|[k0 v0] d IH]; cbn.
  - tauto.
  - destruct (str_eqb k0 k) eqn:E.
    + apply str_eqb_eq in E. split; [discriminate | intros H; exfalso; auto].
    + apply str_eqb_neq in E. rewrite IH. tauto.
Qed.

Lemma dict_keys_set_present d k v :
  dict_get str_eqb d k <> None -> dict_keys (dict_set str_eqb d k v) = dict_keys d.
Proof.
  unfold dict_keys. induction d as [|[k0 v0] d IH]; cbn.
  - congruence.
  - destruct (str_eqb k0 k) eqn:E; cbn; [reflexivity|].
    intros H. f_equal. now apply IH.
Qed.

Lemma dict_keys_set_new d k v :
  dict_get str_eqb d k = None -> dict_keys (dict_set str_eqb d k v) = dict_keys d ++ [k].
Proof.
  unfold dict_keys. induction d as [|[k0 v0] d IH]; cbn.
  - reflexivity.
  - destruct (str_eqb k0 k) eqn:E; cbn; [discriminate|].
    intros H. f_equal. now apply IH.
Qed.

Lemma NoDup_snoc (l : list chars) k : NoDup l -> ~ In k l -> NoDup (l ++ [k]).
Proof.
  intros Hl Hk. induction Hl as [|x l Hx Hl IH]; cbn.
  - constructor; [tauto | constructor].
  - constructor.
    + rewrite in_app_iff. cbn. intros [H|[H|[]]]; [auto|]. subst. apply Hk. now left.
    + apply IH. intros H. apply Hk. now right.
Qed.

End DictFacts.

(* ================================================================== *)
(** * [format_grounding_chunks] against its reading as a grouping *)
(* ================================================================== *)

Lemma format_chunk_entry d chunk :
  format_chunk d chunk
  = match chunk_entry chunk with Some e => entry_step d e | None => d end.
Proof.
  unfold format_chunk, chunk_entry, entry_step.
  destruct (retrieved_context chunk) as [|context]; [reflexivity|].
  destruct (rc_title context) as [|title]; [reflexivity|].
  destruct (rc_text context) as [|[|c txt]]; reflexivity.
Qed.

Lemma format_fold_entries chunks d :
  fold_left format_chunk chunks d = fold_left entry_step (entries chunks) d.
Proof.
  revert d. induction chunks as [|c chunks IH]; intros d; [reflexivity|].
  cbn [fold_left]. rewrite IH, format_chunk_entry. unfold entries. cbn [flat_map].
  fold (entries chunks). now destruct (chunk_entry c).
Qed.

Lemma format_grounding_chunks_fold response :
  format_grounding_chunks response = fold_left format_chunk (chunks_of response) [].
Proof.
  unfold format_grounding_chunks, chunks_of.
  destruct (candidates response) as [|[|candidate ?]]; try reflexivity.
  destruct (grounding_metadata candidate) as [|grounding]; [reflexivity|].
  destruct (grounding_chunks grounding) as [|[|? ?]]; reflexivity.
Qed.

Lemma snippets_for_absent t es :
  existsb (str_eqb t) (titles es) = false -> snippets_for t es = [].
Proof.
  induction es as [|[t' s] es IH]; cbn; [reflexivity|].
  intros H. apply orb_false_iff in H. destruct H as [H1 H2].
  rewrite str_eqb_sym, H1. cbn. now apply IH.
Qed.

Lemma ensure_key_get d t t' :
  dict_get str_eqb (ensure_key d t) t'
  = match dict_get str_eqb d t' with
    | Some l => Some l
    | None => if str_eqb t t' then Some [] else None
    end.
Proof.
  unfold ensure_key, dict_mem.
  destruct (dict_get str_eqb d t) as [l|] eqn:E.
  - destruct (dict_get str_eqb d t') as [l'|] eqn:E'; [reflexivity|].
    destruct (str_eqb t t') eqn:Et; [|reflexivity].
    apply str_eqb_eq in Et. congruence.
  - destruct (str_eqb t t') eqn:Et.
    + apply str_eqb_eq in Et. subst t'. now rewrite dict_get_set_same, E.
    + apply str_eqb_neq in Et. rewrite dict_get_set_other by assumption.
      now destruct (dict_get str_eqb d t').
Qed.

Lemma ensure_key_keys d t :
  NoDup (dict_keys d) -> NoDup (dict_keys (ensure_key d t)).
Proof.
  intros Hd. unfold ensure_key, dict_mem.
  destruct (dict_get str_eqb d t) as [l|] eqn:E; [assumption|].
  rewrite dict_keys_set_new by assumption.
  apply NoDup_snoc; [assumption|]. now apply dict_get_none_keys.
Qed.

Lemma append_snippet_get d t s t' :
  dict_get str_eqb (append_snippet d t s) t'
  = match dict_get str_eqb d t' with
    | Some l => if str_eqb t t' then Some (l ++ [s]) else Some l
    | None => None
    end.
Proof.
  unfold append_snippet.
  destruct (dict_get str_eqb d t) as [l|] eqn:E.
  - destruct (str_eqb t t') eqn:Et.
    + apply str_eqb_eq in Et. subst t'. now rewrite dict_get_set_same, E.
    + apply str_eqb_neq in Et. rewrite dict_get_set_other by assumption.
      now destruct (dict_get str_eqb d t').
  - destruct (dict_get str_eqb d t') as [l'|] eqn:E'; [|reflexivity].
    destruct (str_eqb t t') eqn:Et; [|reflexivity].
    apply str_eqb_eq in Et. congruence.
Qed.

Lemma append_snippet_keys d t s :
  dict_keys (append_snippet d t s) = dict_keys d.
Proof.
  unfold append_snippet.
  destruct (dict_get str_eqb d t) as [l|] eqn:E; [|reflexivity].
  apply dict_keys_set_present. congruence.
Qed.

Lemma groups_step d es e :
  groups d es -> groups (entry_step d e) (es ++ [e]).
Proof.
  intros [Hnd Hget]. destruct e as [title sn]. unfold entry_step. cbn [fst snd].
  split.
  - destruct sn as [s|]; [rewrite append_snippet_keys|]; now apply ensure_key_keys.
  - intros t. unfold titles, snippets_for.
    rewrite map_app, existsb_app, flat_map_app. cbn [map existsb flat_map fst snd].
    rewrite orb_false_r, app_nil_r.
    fold (snippets_for t es). fold (titles es).
    assert (Hpre : dict_get str_eqb (ensure_key d title) t
                   = if existsb (str_eqb t) (titles es) || str_eqb t title
                     then Some (snippets_for t es) else None).
    { rewrite ensure_key_get, Hget. rewrite (str_eqb_sym t title).
      destruct (existsb (str_eqb t) (titles es)) eqn:Ex; [reflexivity|].
      cbn [orb]. destruct (str_eqb title t); [|reflexivity].
      now rewrite (snippets_for_absent t es Ex). }
    destruct sn as [s|].
    + rewrite append_snippet_get, Hpre.
      destruct (str_eqb title t) eqn:Et; rewrite (str_eqb_sym t title), Et.
      * rewrite orb_true_r. reflexivity.
      * rewrite orb_false_r, app_nil_r.
        now destruct (existsb (str_eqb t) (titles es)).
    + rewrite Hpre.
      destruct (str_eqb title t) eqn:Et; now rewrite app_nil_r.
Qed.

Lemma groups_fold es' :
  forall d es, groups d es -> groups (fold_left entry_step es' d) (es ++ es').
Proof.
  induction es' as [|e es' IH]; intros d es H; cbn [fold_left].
  - now rewrite app_nil_r.
  - replace (es ++ e :: es') with ((es ++ [e]) ++ es') by now rewrite <- app_assoc.
    apply IH. now apply groups_step.
Qed.

Lemma groups_empty : groups [] [].
Proof. split; [constructor | reflexivity]. Qed.

Lemma existsb_str_eqb_In t l : existsb (str_eqb t) l = true <-> In t l.
Proof.
  rewrite existsb_exists. split.
  - intros (x & Hx & E). apply str_eqb_eq in E. now subst.
  - intros H. exists t. split; [assumption | apply str_eqb_refl].
Qed.

(** ** Stripping *)

Lemma lstrip_spec s :
  exists lead, s = lead ++ lstrip s /\ blank lead
               /\ forall c, hd_error (lstrip s) = Some c -> is_space c = false.
Proof.
  induction s as [|a s (lead & E & Hl & Hh)].
  - exists []. repeat split; [constructor | discriminate].
  - cbn [lstrip]. destruct (is_space a) eqn:Ea.
    + exists (a :: lead). split; [cbn; now f_equal|].
      split; [now constructor | exact Hh].
    + exists []. split; [reflexivity|]. split; [constructor|].
      intros c H. injection H as <-. exact Ea.
Qed.

Lemma blank_rev s : blank s -> blank (rev s).
Proof. unfold blank. intros H. apply Forall_rev. exact H. Qed.

Lemma rstrip_spec s :
  exists trail, s = rstrip s ++ trail /\ blank trail
                /\ forall c, hd_error (rev (rstrip s)) = Some c -> is_space c = false.
Proof.
  destruct (lstrip_spec (rev s)) as (lead & E & Hl & Hh).
  exists (rev lead). unfold rstrip. split; [|split].
  - rewrite <- rev_app_distr, <- E. now rewrite rev_involutive.
  - now apply blank_rev.
  - now rewrite rev_involutive.
Qed.

(** [strip] takes off whitespace at both ends, all of it, and nothing
    else. *)
Lemma strip_stripped_of txt : stripped_of txt (strip txt).
Proof.
  destruct (lstrip_spec txt) as (lead & E1 & Hl & Hh).
  destruct (rstrip_spec (lstrip txt)) as (trail & E2 & Ht & Hr).
  exists lead, trail. unfold strip. split; [|split; [|split; [|split]]].
  - now rewrite <- E2.
  - exact Hl.
  - exact Ht.
  - intros c Hc. apply Hh. rewrite E2.
    destruct (rstrip (lstrip txt)); [discriminate|exact Hc].
  - exact Hr.
Qed.

(** ** The entries of the chunks are their texts, stripped *)

Lemma chunk_entry_text c :
  chunk_entry c
  = option_map (fun e => (fst e, option_map strip (snd e))) (chunk_text c).
Proof.
  unfold chunk_entry, chunk_text.
  destruct (retrieved_context c) as [|context]; [reflexivity|].
  destruct (rc_title context) as [|title]; [reflexivity|].
  destruct (rc_text context) as [|[|a txt]]; reflexivity.
Qed.

Lemma titles_texts chunks : titles (entries chunks) = titles (texts chunks).
Proof.
  unfold titles, entries, texts.
  induction chunks as [|c chunks IH]; [reflexivity|].
  cbn [flat_map]. rewrite !map_app, IH, chunk_entry_text.
  now destruct (chunk_text c).
Qed.

Lemma snippets_for_texts t chunks :
  snippets_for t (entries chunks) = map strip (snippets_for t (texts chunks)).
Proof.
  unfold snippets_for, entries, texts.
  induction chunks as [|c chunks IH]; [reflexivity|].
  cbn [flat_map]. rewrite !flat_map_app, map_app, IH, chunk_entry_text.
  f_equal. destruct (chunk_text c) as [[t' [txt|]]|]; cbn;
    try reflexivity; now destruct (str_eqb t' t).
Qed.

Lemma stripped_of_map l : Forall2 stripped_of l (map strip l).
Proof.
  induction l as [|txt l IH]; cbn; constructor;
    [apply strip_stripped_of | exact IH].
Qed.

(** ** The [dict] object of a call *)

Lemma mutate_length a f h : List.length (mutate a f h) = List.length h.
Proof.
  revert a. induction h as [|d h IH]; intros [|a]; cbn; auto.
Qed.

Lemma mutate_same a f h d :
  nth_error h a = Some d -> nth_error (mutate a f h) a = Some (f d).
Proof.
  revert a. induction h as [|d' h IH]; intros [|a]; cbn; try discriminate.
  - now intros [= ->].
  - apply IH.
Qed.

Lemma mutate_other a b f h :
  a <> b -> nth_error (mutate a f h) b = nth_error h b.
Proof.
  revert a b. induction h as [|d h IH]; intros [|a] [|b] Hab; cbn;
    try reflexivity; try contradiction.
  apply IH. congruence.
Qed.

Lemma mutate_fold a chunks :
  forall h d,
    nth_error h a = Some d ->
    let h' := fold_left (fun h chunk => mutate a (fun d => format_chunk d chunk) h)
                chunks h in
    nth_error h' a = Some (fold_left format_chunk chunks d)
    /\ List.length h' = List.length h
    /\ forall b, a <> b -> nth_error h' b = nth_error h b.
Proof.
  induction chunks as [|c chunks IH]; intros h d Hd; cbn [fold_left].
  - auto.
  - destruct (IH (mutate a (fun d => format_chunk d c) h) (format_chunk d c)
                (mutate_same a _ h d Hd)) as (H1 & H2 & H3).
    split; [exact H1|]. split.
    + now rewrite H2, mutate_length.
    + intros b Hb. rewrite (H3 b Hb). now apply mutate_other.
Qed.

(** A call makes one new object, leaves it holding the mapping, and
    leaves the older objects alone. *)
Lemma format_grounding_chunks_run_spec response h :
  let r := format_grounding_chunks_run response h in
  fst r = List.length h
  /\ List.length (snd r) = S (List.length h)
  /\ nth_error (snd r) (List.length h) = Some (format_grounding_chunks response)
  /\ forall b, b < List.length h -> nth_error (snd r) b = nth_error h b.
Proof.
  assert (Hnew : nth_error (h ++ [[]]) (List.length h) = Some ([] : sources)).
  { rewrite nth_error_app2 by lia. now rewrite Nat.sub_diag. }
  assert (Hlen : List.length (h ++ [([] : sources)]) = S (List.length h)).
  { rewrite length_app. cbn. lia. }
  assert (Hold : forall b, b < List.length h ->
                           nth_error (h ++ [([] : sources)]) b = nth_error h b).
  { intros b Hb. now apply nth_error_app1. }
  unfold format_grounding_chunks_run, format_grounding_chunks, new_dict.
  destruct (candidates response) as [|[|candidate ?]]; cbn [fst snd]; auto.
  destruct (grounding_metadata candidate) as [|grounding]; cbn [fst snd]; auto.
  destruct (grounding_chunks grounding) as [|[|c chunks]]; cbn [fst snd]; auto.
  destruct (mutate_fold (List.length h) (c :: chunks) (h ++ [[]]) [] Hnew)
    as (H1 & H2 & H3).
  split; [reflexivity|]. split; [now rewrite H2|]. split; [exact H1|].
  intros b Hb. rewrite H3 by lia. now apply Hold.
Qed.

(** Against C5 as it is stated: a chunk whose text is whitespace only
    files an empty snippet under its title, and the list of non-empty
    stripped snippets the claim names has none. *)
Lemma blank_text_gives_empty_snippet :
  let response := response_with [chunk "BSG 432.311" (Some "   ")] in
  dict_get str_eqb (format_grounding_chunks response) "BSG 432.311"
  = Some [[]]
  /\ nonempty_stripped_snippets "BSG 432.311" (chunks_of response) = []
  /\ dict_get str_eqb (format_grounding_chunks response) "BSG 432.311"
     <> Some (nonempty_stripped_snippets "BSG 432.311" (chunks_of response)).
Proof.
  cbv zeta. split; [reflexivity|]. split; [reflexivity|].
  vm_compute. discriminate.
Qed.

(** C5. As amended: the mapping [format_grounding_chunks] returns has one
    entry per distinct title among the chunks (of the first candidate;
    none when the list is absent or empty).  A title is mapped to the
    texts of its chunks that are not empty, in the order met, each
    without its leading and trailing whitespace (so a text of whitespace
    only gives an empty snippet), hence to the empty list when none of
    its chunks has a text.  Two calls on the same response make two
    [dict] objects that hold the same mapping: the second call leaves the
    result of the first as it was. *)
Theorem format_grounding_chunks_spec :
  forall (response : GenerateContentResponse) (h : heap),
    let d := format_grounding_chunks response in
    let es := texts (chunks_of response) in
    let first := format_grounding_chunks_run response h in
    let second := format_grounding_chunks_run response (snd first) in
    NoDup (dict_keys d)
    /\ (forall t, In t (dict_keys d) <-> In t (titles es))
    /\ (forall t, In t (titles es) ->
                  exists snippets,
                    dict_get str_eqb d t = Some snippets
                    /\ Forall2 stripped_of (snippets_for t es) snippets)
    /\ (forall t, In t (titles es) ->
                  (forall txt, ~ In (t, Some txt) es) ->
                  dict_get str_eqb d t = Some [])
    /\ (chunks_of response = [] -> d = [])
    /\ (nth_error (snd second) (fst first) = Some d
        /\ nth_error (snd second) (fst second) = Some d
        /\ fst first <> fst second).
Proof.
  intros response h d es first second.
  assert (G : groups d (entries (chunks_of response))).
  { subst d. rewrite format_grounding_chunks_fold, format_fold_entries.
    apply (groups_fold (entries (chunks_of response)) [] [] groups_empty). }
  destruct G as [Hnd Hget]. rewrite titles_texts in Hget. fold es in Hget.
  assert (Hin : forall t, In t (titles es) ->
                          dict_get str_eqb d t
                          = Some (map strip (snippets_for t es))).
  { intros t Ht. rewrite Hget. apply existsb_str_eqb_In in Ht. rewrite Ht.
    now rewrite snippets_for_texts. }
  split; [exact Hnd|]. split; [|split; [|split; [|split]]].
  - intros t. split.
    + intros Hk. apply existsb_str_eqb_In.
      destruct (existsb (str_eqb t) (titles es)) eqn:E; [reflexivity|exfalso].
      specialize (Hget t). rewrite E in Hget.
      now apply dict_get_none_keys in Hget.
    + intros Ht. apply Hin in Ht.
      destruct (in_dec (list_eq_dec ascii_dec) t (dict_keys d)) as [H|H];
        [exact H|].
      apply dict_get_none_keys in H. congruence.
  - intros t Ht. eexists. split; [exact (Hin t Ht)|apply stripped_of_map].
  - intros t Ht Hno. rewrite (Hin t Ht). f_equal.
    replace (snippets_for t es) with (@nil chars); [reflexivity|].
    clear -Hno. induction es as [|[t' sn] es IH]; [reflexivity|].
    cbn. destruct (str_eqb t' t) eqn:E.
    + apply str_eqb_eq in E. subst t'. destruct sn as [s|].
      * exfalso. apply (Hno s). now left.
      * cbn. apply IH. intros s H. apply (Hno s). now right.
    + cbn. apply IH. intros s H. apply (Hno s). now right.
  - intros Hc. subst d. rewrite format_grounding_chunks_fold, Hc. reflexivity.
  - destruct (format_grounding_chunks_run_spec response h) as (F1 & F2 & F3 & _).
    destruct (format_grounding_chunks_run_spec response (snd first))
      as (S1 & _ & S3 & S4).
    fold first in F1, F2, F3. fold second in S1, S3, S4. fold d in F3, S3.
    split; [|split].
    + rewrite F1, S4 by lia. exact F3.
    + rewrite S1. exact S3.
    + rewrite F1, S1, F2. lia.
Qed.

(* ================================================================== *)
(** * [sorted]: a stable sort *)
(* ================================================================== *)

Section SortFacts.

Context {A K : Type} (leb : K -> K -> bool) (key : A -> K).

Hypothesis leb_total : forall a b, leb a b = true \/ leb b a = true.
Hypothesis leb_trans :
  forall a b c, leb a b = true -> leb b c = true -> leb a c = true.

Lemma insert_by_perm x l : Permutation (x :: l) (insert_by leb key x l).
Proof.
  induction l as [|y l IH]; cbn; [reflexivity|].
  destruct (leb (key x) (key y)); [reflexivity|].
  rewrite perm_swap. now constructor.
Qed.

Lemma sorted_by_perm l : Permutation l (sorted_by leb key l).
Proof.
  induction l as [|x l IH]; cbn; [constructor|].
  rewrite <- insert_by_perm. now constructor.
Qed.

Lemma insert_by_sorted x l :
  StronglySorted (key_le leb key) l -> StronglySorted (key_le leb key) (insert_by leb key x l).
Proof.
  induction 1 as [|y l Hl IH Hy]; cbn.
  - repeat constructor.
  - destruct (leb (key x) (key y)) eqn:E.
    + constructor; [now constructor|].
      constructor; [exact E|].
      eapply Forall_impl; [|exact Hy]. intros z Hz. unfold key_le in *.
      eapply leb_trans; eassumption.
    + constructor; [exact IH|].
      assert (Hyx : key_le leb key y x).
      { destruct (leb_total (key y) (key x)) as [H|H]; [exact H|congruence]. }
      apply (Permutation_Forall (insert_by_perm x l)).
      now constructor.
Qed.

Lemma sorted_by_sorted l : StronglySorted (key_le leb key) (sorted_by leb key l).
Proof.
  induction l as [|x l IH]; cbn; [constructor|]. now apply insert_by_sorted.
Qed.

(** In a sorted list, what comes first is not greater. *)
Lemma sorted_before l1 a l2 b l3 :
  StronglySorted (key_le leb key) (l1 ++ a :: l2 ++ b :: l3) -> key_le leb key a b.
Proof.
  induction l1 as [|x l1 IH]; cbn; intros H.
  - apply StronglySorted_inv in H. destruct H as [_ H].
    rewrite Forall_forall in H. apply H. rewrite in_app_iff. right. now left.
  - apply StronglySorted_inv in H. now apply IH.
Qed.

End SortFacts.

(** ** The orders Python uses here are total and transitive *)

Lemma str_leb_total a b : str_leb a b = true \/ str_leb b a = true.
Proof.
  revert b. induction a as [|x a IH]; intros [|y b]; cbn [str_leb]; auto.
  destruct (code x <? code y) eqn:E1; destruct (code y <? code x) eqn:E2; auto.
Qed.

Lemma str_leb_trans a b c :
  str_leb a b = true -> str_leb b c = true -> str_leb a c = true.
Proof.
  revert b c. induction a as [|x a IH]; intros [|y b] [|z c]; cbn [str_leb]; auto;
    try discriminate.
  destruct (code x <? code y) eqn:E1; destruct (code y <? code x) eqn:E2;
    destruct (code y <? code z) eqn:E3; destruct (code z <? code y) eqn:E4;
    destruct (code x <? code z) eqn:E5; destruct (code z <? code x) eqn:E6;
    rewrite ?Nat.ltb_lt, ?Nat.ltb_ge in *; try lia; auto; try discriminate.
  apply IH.
Qed.

Lemma key_leb_total a b : key_leb a b = true \/ key_leb b a = true.
Proof.
  unfold key_leb. destruct a as [n s], b as [m t]. cbn.
  destruct (n <? m)%Z eqn:E1; [now left|].
  destruct (m <? n)%Z eqn:E2; [now right|].
  rewrite Z.ltb_ge in *. assert (n = m) as -> by lia.
  rewrite Z.eqb_refl. cbn. apply str_leb_total.
Qed.

Lemma key_leb_trans a b c :
  key_leb a b = true -> key_leb b c = true -> key_leb a c = true.
Proof.
  unfold key_leb. destruct a as [n s], b as [m t], c as [k u]. cbn.
  rewrite !orb_true_iff, !andb_true_iff, !Z.ltb_lt, !Z.eqb_eq.
  intros [H1|[H1 S1]] [H2|[H2 S2]]; try (left; lia).
  right. split; [lia|]. eapply str_leb_trans; eassumption.
Qed.

(** ** What the display order guarantees *)

Lemma sorted_rechtsbuecher_perm rechtsbuecher :
  Permutation (dict_keys rechtsbuecher) (sorted_rechtsbuecher rechtsbuecher).
Proof. apply sorted_by_perm. Qed.

(** All-digit keys come in ascending numeric order; the other keys come in
    lexical order among themselves; and an all-digit key below the
    sentinel 999999 is never listed after a key that is not all digits. *)
Lemma sorted_rechtsbuecher_order rechtsbuecher a b :
  listed_before (sorted_rechtsbuecher rechtsbuecher) a b ->
  (isdigit a = true -> isdigit b = true ->
   (int_of_digits a <= int_of_digits b)%Z)
  /\ (isdigit a = false -> isdigit b = false -> str_leb a b = true)
  /\ (isdigit a = false -> isdigit b = true -> (999999 <= int_of_digits b)%Z).
Proof.
  intros (l1 & l2 & l3 & E).
  pose proof (sorted_by_sorted key_leb rechtsbuch_key key_leb_total key_leb_trans
                (dict_keys rechtsbuecher)) as Hs.
  fold (sorted_rechtsbuecher rechtsbuecher) in Hs. rewrite E in Hs.
  apply sorted_before in Hs. unfold key_le, key_leb, rechtsbuch_key in Hs.
  cbn [fst snd] in Hs.
  rewrite orb_true_iff, andb_true_iff, Z.ltb_lt, Z.eqb_eq in Hs.
  repeat split; intros Ha Hb; rewrite Ha, Hb in Hs.
  - lia.
  - destruct Hs as [Hs|[_ Hs]]; [lia | exact Hs].
  - lia.
Qed.

(** Within a book group the documents are listed in lexical order of
    their registry numbers, and they are the documents of the group. *)
Lemma sorted_docs_order docs_list :
  Permutation docs_list (sorted_docs docs_list)
  /\ forall x y, listed_before (sorted_docs docs_list) x y ->
                 str_leb (fst x) (fst y) = true.
Proof.
  split; [apply sorted_by_perm|].
  intros x y (l1 & l2 & l3 & E).
  pose proof (sorted_by_sorted str_leb fst str_leb_total str_leb_trans docs_list) as Hs.
  fold (sorted_docs docs_list) in Hs. rewrite E in Hs.
  now apply sorted_before in Hs.
Qed.

(** C3. Two documents, ["BSG 1000000.1"] and ["BSG 5-1"]: the book key
    ["5-1"] is not all digits, ["1000000"] is, and the catalogue lists
    ["5-1"] first: the key that stands for "not a number", 999999, is
    smaller than 1000000. *)
Theorem catalogue_order_past_sentinel :
  catalogue_view [doc_titled "BSG 1000000.1"; doc_titled "BSG 5-1"]
  = inr ([("5-1" : chars, [("5-1" : chars, doc_titled "BSG 5-1")]);
          ("1000000" : chars, [("1000000.1" : chars, doc_titled "BSG 1000000.1")])],
         [])
  /\ isdigit "1000000" = true
  /\ isdigit "5-1" = false.
Proof. repeat split. Qed.

(* ================================================================== *)
(** * Worked examples *)
(* ================================================================== *)

(** The first occurrence wins, and a dash counts only with digits after
    it. *)
Example extract_first_occurrence :
  extract_bsg_number "siehe BSG 12.3-45-6 und BSG 1" = Some ("12.3-45" : chars)
  /\ extract_bsg_number "BSG 5-" = Some ("5" : chars)
  /\ extract_bsg_number "BSG__1" = None
  /\ extract_bsg_number "Unbekannt" = None.
Proof. repeat split. Qed.

(** A document without a registry number goes to the ungrouped bucket;
    so does one without a display name, which is shown as "Unbekannt". *)
Example catalogue_ungrouped :
  catalogue_view [doc_titled "Unbekannt"; JObj []]
  = inr ([], [doc_titled "Unbekannt"; JObj []]).
Proof. reflexivity. Qed.

(** Book groups in display order, documents in lexical order within. *)
Example catalogue_small :
  match catalogue_view
          [doc_titled "BSG 10.2"; doc_titled "BSG 9.1"; doc_titled "BSG 10.11";
           doc_titled "BSG 5-1"; doc_titled "BSG.7"; doc_titled "BSG 100.1"] with
  | inr (books, _) =>
      map (fun b => (fst b, map fst (snd b))) books
      = [("9" : chars, ["9.1" : chars]);
         ("10" : chars, ["10.11" : chars; "10.2" : chars]);
         ("100" : chars, ["100.1" : chars]);
         ([], [".7" : chars]);
         ("5-1" : chars, ["5-1" : chars])]
  | inl _ => False
  end.
Proof. reflexivity. Qed.

Example strip_examples :
  strip "  Art. 5 Abs. 2 " = ("Art. 5 Abs. 2" : chars)
  /\ strip "   " = ([] : chars).
Proof. repeat split. Qed.

Example path_suffix_examples :
  path_suffix "gesetz.pdf" = (".pdf" : chars)
  /\ path_suffix "a/b.c/x.tar.gz" = (".gz" : chars)
  /\ path_suffix ".bashrc" = ([] : chars)
  /\ path_suffix "abc." = ([] : chars).
Proof. repeat split. Qed.

(** Snippets are grouped by title in the order met; a text of blanks only
    is kept, as the empty snippet. *)
Example format_grounding_chunks_example :
  format_grounding_chunks
    (response_with
       [chunk "BSG_432.311" (Some " Art. 1 "); chunk "BSG_151.1" None;
        chunk "BSG_432.311" (Some "Art. 2"); chunk "BSG_432.311" (Some "  ");
        {| retrieved_context := Absent |}])
  = [("BSG_432.311" : chars, ["Art. 1" : chars; "Art. 2" : chars; []]);
     ("BSG_151.1" : chars, [])].
Proof. reflexivity. Qed.

(** The title resolver on a full answer, on a 404 and on a timeout. *)
Example get_law_name_examples :
  fst (get_law_name (fun _ => []) (fun _ => Responds (status_response 200 "-" (inr law_body)))
         "153.01" empty_world)
  = Ok (Some (JStr "Personalgesetz (PG)"))
  /\ fst (get_law_name (fun _ => []) (fun _ => Responds (status_response 404 "-" (inr JNull)))
            "153.01" empty_world)
     = Ok None
  /\ fst (get_law_name (fun _ => []) (fun _ => Fails (RequestException "Read timed out."))
            "153.01" empty_world)
     = Ok None.
Proof. repeat split. Qed.

(** A refused delete: both variants report failure. *)
Example delete_403 :
  fst (App.delete_document
         (fun _ => Responds (status_response 403 "forbidden" (inl (JSONDecodeError "-"))))
         "key" "fileSearchStores/belex/documents/a" empty_world) = Ok false
  /\ fst (AppUnibe.delete_document
            (fun _ => Responds (status_response 403 "forbidden" (inl (JSONDecodeError "-"))))
            "key" "fileSearchStores/belex/documents/a" empty_world) = Ok false.
Proof. split; reflexivity. Qed.

(** A listing that breaks on its second page keeps the first page. *)
Example list_documents_second_page_fails :
  list_documents 2
    (fun n _ => match n with
                | 0 => Responds (status_response 200 "-" (inr (JObj page_one)))
                | _ => Responds (status_response 500 "internal" (inl (JSONDecodeError "-")))
                end)
    "key" "fileSearchStores/belex" empty_world
  = (Ok [doc_named "documents/a"; doc_named "documents/b"],
     after empty_world []
       (listing_gets "key" (listing_url "fileSearchStores/belex") JNull [page_one]
        ++ [StError "Fehler beim Abrufen der Dokumente: 500"; StError "internal"])).
Proof. reflexivity. Qed.

(** A body that does not decode makes the listing come back empty. *)
Example list_documents_undecodable :
  fst (list_documents 2
         (fun n _ => match n with
                     | 0 => Responds (status_response 200 "-" (inr (JObj page_one)))
                     | _ => Responds (status_response 200 "<html>" (inl (JSONDecodeError "Expecting value")))
                     end)
         "key" "fileSearchStores/belex" empty_world)
  = Ok [].
Proof. reflexivity. Qed.

(** An upload in [app_unibe.py] whose vendor call raises: the temp file is
    gone when the function returns [None]. *)
Example unibe_upload_vendor_raises :
  AppUnibe.upload_file_to_filestore "2025-01-01T00:00:00"
    (fun suffix => "/tmp/tmpk3" ++ suffix) (fun _ => inl (ApiError "quota"))
    "fileSearchStores/belex" file_150mb None empty_world
  = (Ok None,
     {| fs := [];
        trace :=
          [TempCreate "/tmp/tmpk3.pdf";
           TempWrite "/tmp/tmpk3.pdf" (uf_value file_150mb);
           VendorUpload
             (unibe_upload_args "2025-01-01T00:00:00" "/tmp/tmpk3.pdf"
                "fileSearchStores/belex" file_150mb None);
           Unlink "/tmp/tmpk3.pdf";
           StError "Fehler beim Hochladen: quota"];
        disk := sound_disk |}).
Proof. reflexivity. Qed.

(** The same upload on a full temp directory: the write raises, the
    vendor is not called, and the file stays. *)
Example unibe_upload_disk_full :
  AppUnibe.upload_file_to_filestore "2025-01-01T00:00:00"
    (fun suffix => "/tmp/tmpk3" ++ suffix) (fun _ => inr ("operations/1" : chars))
    "fileSearchStores/belex" file_150mb None
    {| fs := []; trace := [];
       disk := full_disk (OSError "[Errno 28] No space left on device") |}
  = (Ok None,
     {| fs := ["/tmp/tmpk3.pdf" : chars];
        trace :=
          [TempCreate "/tmp/tmpk3.pdf";
           StError "Fehler beim Hochladen: [Errno 28] No space left on device"];
        disk := full_disk (OSError "[Errno 28] No space left on device") |}).
Proof. reflexivity. Qed.

(** The same upload in [app.py] stops at the name [Path]. *)
Example app_upload_stops_at_path :
  App.upload_file_to_filestore
    (fun suffix => "/tmp/tmpk3" ++ suffix) (fun _ => inr ("operations/1" : chars))
    "fileSearchStores/belex" file_150mb None empty_world
  = (Ok None,
     {| fs := [];
        trace := [StError "Fehler beim Hochladen: name 'Path' is not defined"];
        disk := sound_disk |}).
Proof. reflexivity. Qed.

(* ================================================================== *)
(** * Further properties of the catalogue client *)
(* ================================================================== *)

Lemma after_nil w : after w (fs w) [] = w.
Proof. destruct w as [files tr dk]. unfold after. cbn. now rewrite app_nil_r. Qed.

Lemma frames_ret {A} (a : A) : frames (ret a).
Proof. intros w. exists (Ok a), []. unfold ret. now rewrite after_nil. Qed.

Lemma frames_raise {A} (e : exn) : frames (@raise A e).
Proof. intros w. exists (Raise e), []. unfold raise. now rewrite after_nil. Qed.

Lemma frames_out_of_fuel {A} : frames (@out_of_fuel A).
Proof. intros w. exists OutOfFuel, []. unfold out_of_fuel. now rewrite after_nil. Qed.

Lemma frames_lift {A} (x : exn + A) : frames (lift x).
Proof. destruct x; [apply frames_raise | apply frames_ret]. Qed.

Lemma frames_emit ev : frames (emit ev).
Proof. intros w. exists (Ok tt), [ev]. reflexivity. Qed.

Lemma frames_bind {A B} (m : M A) (f : A -> M B) :
  frames m -> (forall a, frames (f a)) -> frames (bind m f).
Proof.
  intros Hm Hf w. destruct (Hm w) as (r & evs & E). unfold bind. rewrite E.
  destruct r as [a|e|].
  - destruct (Hf a (after w (fs w) evs)) as (r' & evs' & E').
    rewrite E'. cbn [fs after]. exists r', (evs ++ evs'). now rewrite after_after.
  - now exists (Raise e), evs.
  - now exists OutOfFuel, evs.
Qed.

Lemma frames_try_except {A} (m : M A) (h : exn -> M A) :
  frames m -> (forall e, frames (h e)) -> frames (try_except m h).
Proof.
  intros Hm Hh w. destruct (Hm w) as (r & evs & E). unfold try_except. rewrite E.
  destruct r as [a|e|].
  - now exists (Ok a), evs.
  - destruct (Hh e (after w (fs w) evs)) as (r' & evs' & E').
    rewrite E'. cbn [fs after]. exists r', (evs ++ evs'). now rewrite after_after.
  - now exists OutOfFuel, evs.
Qed.

Lemma frames_requests_get peer rq : frames (requests_get peer rq).
Proof.
  unfold requests_get. apply frames_bind; [apply frames_emit|].
  intros _. destruct (peer rq); [apply frames_ret | apply frames_raise].
Qed.

Lemma frames_requests_delete peer rq : frames (requests_delete peer rq).
Proof.
  unfold requests_delete. apply frames_bind; [apply frames_emit|].
  intros _. destruct (peer rq); [apply frames_ret | apply frames_raise].
Qed.

Create HintDb frames.

#[local] Hint Resolve frames_ret frames_raise frames_out_of_fuel frames_lift
  frames_emit frames_requests_get frames_requests_delete : frames.

Ltac frames_step :=
  first [ apply frames_bind; [|intros ?]
        | apply frames_try_except; [|intros ?]
        | solve [auto with frames]
        | match goal with
          | |- frames (if ?b then _ else _) => destruct b
          | |- frames (match ?x with _ => _ end) => destruct x
          end ].

Lemma frames_list_loop fuel peer api_key url :
  forall n documents page_token,
    frames (list_loop fuel peer n api_key url documents page_token).
Proof.
  induction fuel as [|fuel IH]; intros n documents page_token; cbn [list_loop].
  - apply frames_out_of_fuel.
  - repeat frames_step.
Qed.

(** X1. [list_documents] never raises and never touches a file: whatever
    the peer answers, it either returns a list, having only added to the
    trace, or is still asking for pages when the fuel is spent. *)
Theorem list_documents_never_raises :
  forall (fuel : nat) (peer : nat -> request -> http_outcome)
         (api_key filestore_id : chars) (w : world),
  exists evs,
    (exists documents,
        list_documents fuel peer api_key filestore_id w
        = (Ok documents, after w (fs w) evs))
    \/ list_documents fuel peer api_key filestore_id w
       = (OutOfFuel, after w (fs w) evs).
Proof.
  intros. unfold list_documents, try_except.
  destruct (frames_list_loop fuel peer api_key (listing_url filestore_id)
              0 [] JNull w) as (r & evs & E).
  rewrite E. destruct r as [docs|e|].
  - exists evs. left. now exists docs.
  - run_eff. eexists. left. exists []. unfold after. cbn. now rewrite <- app_assoc.
  - exists evs. now right.
Qed.

Lemma list_loop_breaks fuel peer n api_key url documents tok w e :
  breaks_with (peer n (listing_request api_key url tok)) e ->
  list_loop (S fuel) peer n api_key url documents tok w
  = (Raise e, after w (fs w) [HttpGet (listing_request api_key url tok)]).
Proof.
  intros H. cbn [list_loop]. unfold bind at 1. unfold requests_get at 1.
  destruct w as [files tr dk].
  destruct H as [H|[(body & H)|(body & pg & H & Hd)]]; rewrite H; run_eff;
    cbn [status_response status_code json_body Z.eqb Pos.eqb]; run_eff;
    try reflexivity.
  cbn [json_contains json_index]. unfold page_docs in Hd. unfold dict_mem.
  destruct (dict_get str_eqb pg "documents") as [v|]; [|discriminate].
  run_eff. rewrite Hd. reflexivity.
Qed.

Lemma list_loop_served_then_breaks peer api_key url pages e :
  Forall readable pages ->
  forall fuel n tok documents w,
    served_then peer api_key url n tok pages
      (fun n' tok' => breaks_with (peer n' (listing_request api_key url tok')) e) ->
    List.length pages < fuel ->
    list_loop fuel peer n api_key url documents tok w
    = (Raise e, after w (fs w) (listing_gets api_key url tok pages)).
Proof.
  induction 1 as [|pg rest Hpg _ IH]; intros fuel n tok documents w Hs Hfuel;
    (destruct fuel as [|fuel]; [cbn in Hfuel; lia|]); cbn in Hs.
  - now apply list_loop_breaks.
  - destruct Hs as ((body & Hp) & Ht & Hrest).
    rewrite (list_loop_page fuel peer n api_key url documents tok w pg body Hp Hpg).
    rewrite Ht.
    rewrite (IH fuel (S n) (next_token pg) (documents ++ docs_of pg) _ Hrest)
      by (cbn in Hfuel; lia).
    cbn [fs after]. now rewrite after_after.
Qed.

(** X2. When a listing breaks with an exception after some pages (the
    request fails, a body does not decode, the records cannot be
    taken), [list_documents] returns the empty list: the records of the
    pages already read are dropped, and one error is shown. *)
Theorem list_documents_failure_drops_records :
  forall (peer : nat -> request -> http_outcome) (api_key filestore_id : chars)
         (pages : list page) (e : exn) (fuel : nat) (w : world),
    served_then peer api_key (listing_url filestore_id) 0 JNull pages
      (fun n tok =>
         breaks_with
           (peer n (listing_request api_key (listing_url filestore_id) tok)) e) ->
    Forall readable pages ->
    List.length pages < fuel ->
    list_documents fuel peer api_key filestore_id w
    = (Ok [],
       after w (fs w)
         (listing_gets api_key (listing_url filestore_id) JNull pages
          ++ [StError ("Fehler beim Auflisten der Dokumente: " ++ exn_str e)])).
Proof.
  intros peer api_key filestore_id pages e fuel w Hs Hp Hfuel.
  unfold list_documents, try_except.
  rewrite (list_loop_served_then_breaks peer api_key (listing_url filestore_id)
             pages e Hp fuel 0 JNull [] w Hs Hfuel).
  run_eff. unfold after. cbn. now rewrite <- app_assoc.
Qed.

Lemma list_documents_connection_dropped :
  list_documents 2 dropping_peer "key" "fileSearchStores/belex" empty_world
  = (Ok [],
     after empty_world []
       (listing_gets "key" (listing_url "fileSearchStores/belex") JNull [page_one]
        ++ [StError "Fehler beim Auflisten der Dokumente: Connection reset by peer"])).
Proof.
  apply (list_documents_failure_drops_records dropping_peer "key"
           "fileSearchStores/belex" [page_one]
           (RequestException "Connection reset by peer") 2 empty_world).
  - cbn. split; [eexists; reflexivity|]. split; [reflexivity|]. now left.
  - repeat constructor. eexists; reflexivity.
  - cbn. lia.
Defined.

(** X3. [delete_document] never raises and never touches a file; it
    sends exactly one DELETE, with [force=true] and the API key.  It
    returns [True] exactly when the peer answered 200 ([app.py]) or 200
    or 204 ([app_unibe.py]), and then shows nothing; whenever it returns
    [False] it has shown an error; it does nothing else. *)
Theorem delete_document_contract :
  forall (peer : request -> http_outcome) (api_key document_name : chars)
         (w : world),
    let rq := delete_request api_key document_name in
    (exists b evs,
        App.delete_document peer api_key document_name w
        = (Ok b, after w (fs w) (HttpDelete rq :: evs))
        /\ (b = true <-> exists r, peer rq = Responds r /\ status_code r = 200%Z)
        /\ (b = true -> evs = [])
        /\ (b = false -> evs <> [])
        /\ Forall (fun ev => exists m, ev = StError m) evs)
    /\ (exists b evs,
          AppUnibe.delete_document peer api_key document_name w
          = (Ok b, after w (fs w) (HttpDelete rq :: evs))
          /\ (b = true <-> exists r, peer rq = Responds r
                                    /\ (status_code r = 200 \/ status_code r = 204)%Z)
          /\ (b = true -> evs = [])
          /\ (b = false -> evs <> [])
        /\ Forall (fun ev => exists m, ev = StError m) evs).
Proof.
  intros peer api_key document_name w rq. split.
  - rewrite app_delete_document_run. cbv zeta. fold rq.
    destruct (peer rq) as [r|e].
    + destruct (status_code r =? 200)%Z eqn:E.
      * eexists _, _. split; [reflexivity|]. apply Z.eqb_eq in E.
        repeat split; try discriminate; eauto;
          repeat constructor; eauto.
      * eexists _, _. split; [reflexivity|]. apply Z.eqb_neq in E.
        repeat split; try discriminate; eauto;
          repeat constructor; eauto.
        intros (r' & Hr & Hs). injection Hr as <-. contradiction.
    + eexists _, _. split; [reflexivity|].
      repeat split; try discriminate; eauto;
          repeat constructor; eauto.
      intros (r' & Hr & _). discriminate.
  - rewrite unibe_delete_document_run. cbv zeta. fold rq.
    destruct (peer rq) as [r|e].
    + destruct ((status_code r =? 200) || (status_code r =? 204))%Z eqn:E.
      * eexists _, _. split; [reflexivity|].
        apply orb_true_iff in E. rewrite !Z.eqb_eq in E.
        repeat split; try discriminate; eauto;
          repeat constructor; eauto.
      * eexists _, _. split; [reflexivity|].
        apply orb_false_iff in E. rewrite !Z.eqb_neq in E.
        repeat split; try discriminate; eauto;
          repeat constructor; eauto.
        intros (r' & Hr & Hs). injection Hr as <-. lia.
    + eexists _, _. split; [reflexivity|].
      repeat split; try discriminate; eauto;
          repeat constructor; eauto.
      intros (r' & Hr & _). discriminate.
Qed.

(* ================================================================== *)
(** * Further properties of [extract_bsg_number] *)
(* ================================================================== *)

Lemma lang_bsg_group_chars g : lang bsg_group g -> Forall segment_char g.
Proof.
  intros H. apply lang_bsg_group_iff in H.
  destruct H as (run & sfx & -> & _ & Hrun & Hs).
  apply Forall_app. split.
  - eapply Forall_impl; [|exact Hrun]. intros c Hc. now left.
  - destruct Hs as [->|(ds & -> & _ & Hd)]; [constructor|].
    constructor; [now right|].
    eapply Forall_impl; [|exact Hd]. intros c Hc. left.
    unfold is_digit_or_dot. now rewrite Hc.
Qed.

(** A match at the very start of the title is the one [search] returns. *)
Lemma extract_bsg_number_at_start title g :
  match_direct title = Some g -> extract_bsg_number title = Some g.
Proof.
  intros H. unfold extract_bsg_number.
  destruct title as [|c title]; cbn [search];
    rewrite match_here_direct, H; reflexivity.
Qed.

Lemma match_direct_marker sep s :
  (sep = [] \/ exists c, sep = [c] /\ is_sep c = true) ->
  (exists c s', s = c :: s' /\ is_digit_or_dot c = true) ->
  match_direct ("BSG" ++ sep ++ s) = segment_at s.
Proof.
  intros Hsep (c & s' & -> & Hc). cbn.
  destruct Hsep as [->|(x & -> & Hx)]; cbn.
  - destruct (is_sep c) eqn:Es; [|reflexivity].
    apply sep_not_digit_or_dot in Es. congruence.
  - now rewrite Hx.
Qed.

(** A segment followed by something that cannot prolong it is read back
    whole. *)
Lemma segment_at_exact g rest :
  lang bsg_group g -> ends_segment rest -> segment_at (g ++ rest) = Some g.
Proof.
  intros Hg Hrest.
  destruct (segment_at_longest g rest Hg) as (seg & Hseg & Hlen).
  rewrite Hseg. f_equal.
  destruct (segment_at_sound (g ++ rest) seg Hseg) as (rest2 & E & Hl).
  apply lang_bsg_group_chars in Hl.
  assert (Hsplit : exists d, seg = g ++ d /\ rest = d ++ rest2).
  { clear -E Hlen. revert seg E Hlen.
    induction g as [|x g IH]; intros seg E Hlen; cbn in *.
    - now exists seg.
    - destruct seg as [|y seg]; [cbn in Hlen; lia|].
      cbn in E. injection E as -> E. cbn in Hlen.
      destruct (IH seg E ltac:(lia)) as (d & -> & ->). now exists d. }
  destruct Hsplit as (d & -> & ->).
  destruct d as [|c d]; [now rewrite app_nil_r|exfalso].
  apply Forall_app in Hl. destruct Hl as [_ Hl]. inversion Hl as [|? ? Hc _]; subst.
  destruct Hrest as [Hr|(c' & r' & Hr & Hnd & Hnq)]; [discriminate|].
  cbn in Hr. injection Hr as <- _.
  destruct Hc as [Hc|Hc]; congruence.
Qed.

(** X4. A registry number is read back from a label made of the marker,
    an optional separator, the number, and then either nothing or a
    character that is no digit, dot or dash: [extract_bsg_number] returns
    exactly the number. *)
Theorem extract_bsg_number_recovers :
  forall (sep g rest : chars),
    lang bsg_group g ->
    (sep = [] \/ exists c, sep = [c] /\ is_sep c = true) ->
    ends_segment rest ->
    extract_bsg_number ("BSG" ++ sep ++ g ++ rest) = Some g.
Proof.
  intros sep g rest Hg Hsep Hrest.
  apply extract_bsg_number_at_start.
  rewrite match_direct_marker; [now apply segment_at_exact|assumption|].
  destruct (lang_bsg_group_head g Hg) as (c & g' & -> & Hc).
  now exists c, (g' ++ rest).
Qed.

Lemma extract_bsg_number_recovers_reference :
  extract_bsg_number "BSG 153.011-1 (PV)" = Some ("153.011-1" : chars).
Proof.
  apply (extract_bsg_number_recovers " " "153.011-1" " (PV)").
  - apply lang_bsg_group_iff. exists ("153.011" : chars), ("-1" : chars).
    repeat split; try discriminate.
    + repeat constructor.
    + right. exists ("1" : chars). repeat split; try discriminate.
      repeat constructor.
  - right. exists " "%char. split; reflexivity.
  - right. exists " "%char, ("(PV)" : chars). repeat split; discriminate.
Defined.

(** X5. A display name that is a file name, marker, number and
    extension, gives the number with the dot of the extension attached:
    the run of digits and dots takes the dot too. *)
Theorem extract_bsg_number_takes_extension_dot :
  forall (sep number ext : chars),
    number <> [] ->
    all_of is_digit_or_dot number ->
    (sep = [] \/ exists c, sep = [c] /\ is_sep c = true) ->
    ends_segment ext ->
    extract_bsg_number ("BSG" ++ sep ++ number ++ "." ++ ext)
    = Some (number ++ ".").
Proof.
  intros sep number ext Hne Hall Hsep Hext.
  apply extract_bsg_number_at_start.
  replace (number ++ "." ++ ext) with ((number ++ ".") ++ ext)
    by now rewrite <- app_assoc.
  assert (Hg : lang bsg_group (number ++ ".")).
  { apply lang_bsg_group_iff. exists (number ++ "."), [].
    rewrite app_nil_r. repeat split.
    - destruct number; discriminate.
    - apply Forall_app. split; [exact Hall|]. now repeat constructor.
    - now left. }
  rewrite match_direct_marker; [now apply segment_at_exact|assumption|].
  destruct (lang_bsg_group_head _ Hg) as (c & g' & E & Hc).
  rewrite E. now exists c, (g' ++ ext).
Qed.

Lemma extract_bsg_number_of_pdf_name :
  extract_bsg_number "BSG_432.311.pdf" = Some ("432.311." : chars).
Proof.
  apply (extract_bsg_number_takes_extension_dot "_" "432.311" "pdf").
  - discriminate.
  - repeat constructor.
  - right. exists "_"%char. split; reflexivity.
  - right. exists "p"%char, ("df" : chars). repeat split; discriminate.
Defined.

(** X6. Whatever the title, an extracted number is never empty, starts
    with a digit or a dot, holds only digits, dots and dashes, and is cut
    out of the title: the link built from it carries nothing else. *)
Theorem extract_bsg_number_alphabet :
  forall (title g : chars),
    extract_bsg_number title = Some g ->
    (exists c g', g = c :: g' /\ is_digit_or_dot c = true)
    /\ Forall segment_char g
    /\ exists pre post, title = pre ++ g ++ post.
Proof.
  intros title g H.
  destruct (extract_bsg_number_some title g H) as (pre & suf & -> & Hd & _).
  destruct (match_direct_sound suf g Hd) as (sep & post & (E & _ & Hl)).
  split; [now apply lang_bsg_group_head|].
  split; [now apply lang_bsg_group_chars|].
  exists (pre ++ "BSG" ++ sep), post. rewrite E. cbn.
  now rewrite <- !app_assoc.
Qed.

Lemma extract_bsg_number_alphabet_reference :
  (exists c g', ("432.311" : chars) = c :: g' /\ is_digit_or_dot c = true)
  /\ Forall segment_char ("432.311" : chars)
  /\ exists pre post, ("Datei BSG_432.311" : chars) = pre ++ ("432.311" : chars) ++ post.
Proof.
  apply (extract_bsg_number_alphabet "Datei BSG_432.311" "432.311").
  reflexivity.
Defined.

(* ================================================================== *)
(** * The catalogue tab: every document once, under its own book *)
(* ================================================================== *)

Lemma numbered_app a b : numbered (a ++ b) = numbered a ++ numbered b.
Proof. unfold numbered. apply flat_map_app. Qed.

Lemma members_app k a b : members k (a ++ b) = members k a ++ members k b.
Proof. unfold members. now rewrite numbered_app, filter_app. Qed.

Lemma unnumbered_app a b : unnumbered (a ++ b) = unnumbered a ++ unnumbered b.
Proof. unfold unnumbered. apply filter_app. Qed.

Lemma members_absent k done :
  existsb (str_eqb k) (map book_of (numbered done)) = false -> members k done = [].
Proof.
  unfold members. induction (numbered done) as [|entry l IH]; cbn; [reflexivity|].
  intros H. apply orb_false_iff in H. destruct H as [H1 H2].
  rewrite str_eqb_sym, H1. now apply IH.
Qed.

Lemma group_append_get d k nr doc k' :
  dict_get str_eqb (group_append d k nr doc) k'
  = if str_eqb k k'
    then Some (match dict_get str_eqb d k with Some l => l | None => [] end
               ++ [(nr, doc)])
    else dict_get str_eqb d k'.
Proof.
  unfold group_append.
  destruct (str_eqb k k') eqn:E.
  - apply str_eqb_eq in E. subst k'.
    destruct (dict_get str_eqb d k); now rewrite dict_get_set_same.
  - apply str_eqb_neq in E.
    destruct (dict_get str_eqb d k); now rewrite dict_get_set_other.
Qed.

Lemma group_append_keys d k nr doc :
  NoDup (dict_keys d) -> NoDup (dict_keys (group_append d k nr doc)).
Proof.
  intros Hd. unfold group_append.
  destruct (dict_get str_eqb d k) as [l|] eqn:E.
  - rewrite dict_keys_set_present; [assumption|congruence].
  - rewrite dict_keys_set_new by assumption.
    apply NoDup_snoc; [assumption|]. now apply dict_get_none_keys.
Qed.

Lemma grouped_numbered d done doc nr :
  doc_number doc = Some nr ->
  grouped d done ->
  grouped (group_append d (before_first_dot nr) nr doc) (done ++ [doc]).
Proof.
  intros Hn [Hnd Hget]. split; [now apply group_append_keys|].
  intros k. rewrite group_append_get, members_app, numbered_app, map_app, existsb_app.
  unfold members at 2. unfold numbered at 2 3. cbn [flat_map]. rewrite Hn.
  cbn [app map existsb filter]. unfold book_of at 2 3. cbn [fst].
  rewrite orb_false_r, (str_eqb_sym k (before_first_dot nr)).
  destruct (str_eqb (before_first_dot nr) k) eqn:E.
  - rewrite orb_true_r. apply str_eqb_eq in E. subst k. rewrite Hget.
    destruct (existsb (str_eqb (before_first_dot nr)) (map book_of (numbered done)))
      eqn:Ex; [reflexivity|].
    now rewrite (members_absent _ done Ex).
  - rewrite orb_false_r, app_nil_r. apply Hget.
Qed.

Lemma grouped_unnumbered d done doc :
  doc_number doc = None -> grouped d done -> grouped d (done ++ [doc]).
Proof.
  intros Hn [Hnd Hget]. split; [assumption|]. intros k.
  rewrite members_app, numbered_app. unfold members at 2. unfold numbered at 2 3.
  cbn [flat_map]. rewrite Hn. cbn. rewrite !app_nil_r. apply Hget.
Qed.

(** The loop of [main] over well-titled documents. *)
Lemma group_documents_grouped docs :
  Forall well_titled docs ->
  forall d done wo,
    grouped d done ->
    exists d',
      group_documents docs d wo = inr (d', wo ++ unnumbered docs)
      /\ grouped d' (done ++ docs).
Proof.
  induction 1 as [|doc docs (name & Hname) _ IH]; intros d done wo Hg.
  - exists d. cbn. now rewrite !app_nil_r.
  - cbn [group_documents]. rewrite Hname.
    replace (done ++ doc :: docs) with ((done ++ [doc]) ++ docs)
      by now rewrite <- app_assoc.
    change (doc :: docs) with ([doc] ++ docs). rewrite unnumbered_app.
    assert (Hn : doc_number doc
                 = match extract_bsg_number name with
                   | Some ((_ :: _) as g) => Some g
                   | _ => None
                   end) by (unfold doc_number; now rewrite Hname).
    destruct (extract_bsg_number name) as [[|c g]|].
    + destruct (IH d (done ++ [doc]) (wo ++ [doc])
                  (grouped_unnumbered d done doc Hn Hg)) as (d' & E & G).
      exists d'. split; [|exact G]. rewrite E. unfold unnumbered at 2.
      cbn [filter]. rewrite Hn. now rewrite <- app_assoc.
    + destruct (IH _ (done ++ [doc]) wo
                  (grouped_numbered d done doc (c :: g) Hn Hg)) as (d' & E & G).
      exists d'. split; [|exact G]. rewrite E. unfold unnumbered at 2.
      cbn [filter]. now rewrite Hn.
    + destruct (IH d (done ++ [doc]) (wo ++ [doc])
                  (grouped_unnumbered d done doc Hn Hg)) as (d' & E & G).
      exists d'. split; [|exact G]. rewrite E. unfold unnumbered at 2.
      cbn [filter]. rewrite Hn. now rewrite <- app_assoc.
Qed.

Lemma grouped_empty : grouped [] [].
Proof. split; [constructor|reflexivity]. Qed.

(** What the catalogue tab shows, on well-titled documents. *)
Lemma catalogue_view_grouped docs :
  Forall well_titled docs ->
  exists d,
    grouped d docs
    /\ catalogue_view docs
       = match sort_key_error (dict_keys d) with
         | Some e => inl e
         | None =>
             inr (map (fun k => (k, sorted_docs (members k docs)))
                    (sorted_rechtsbuecher d),
                  unnumbered docs)
         end.
Proof.
  intros H. destruct (group_documents_grouped docs H [] [] [] grouped_empty)
    as (d & E & G).
  cbn [app] in *. exists d. split; [exact G|].
  unfold catalogue_view. rewrite E.
  destruct (sort_key_error (dict_keys d)); [reflexivity|]. f_equal. f_equal.
  apply map_ext_in. intros k Hk. f_equal. f_equal.
  destruct G as [_ Hget]. rewrite Hget.
  destruct (existsb (str_eqb k) (map book_of (numbered docs))) eqn:Ex;
    [reflexivity|].
  now rewrite (members_absent _ docs Ex).
Qed.

Lemma group_documents_error docs :
  forall d wo,
    (exists res, group_documents docs d wo = inr res) -> Forall well_titled docs.
Proof.
  induction docs as [|doc docs IH]; intros d wo [res H]; [constructor|].
  cbn [group_documents] in H.
  destruct (doc_display_name doc) as [e|name] eqn:En; [discriminate|].
  constructor; [now exists name|].
  destruct (extract_bsg_number name) as [[|c g]|]; eapply IH; eauto.
Qed.

(** A catalogue that was drawn had only documents it could read. *)
Lemma catalogue_view_well_titled documents view :
  catalogue_view documents = inr view -> Forall well_titled documents.
Proof.
  intros H. unfold catalogue_view in H.
  destruct (group_documents documents [] []) as [e|res] eqn:E; [discriminate|].
  apply (group_documents_error documents [] []). now exists res.
Qed.

Lemma flat_map_app_pointwise {X Y} (f g : X -> list Y) l :
  Permutation (flat_map (fun x => f x ++ g x) l) (flat_map f l ++ flat_map g l).
Proof.
  induction l as [|x l IH]; cbn; [constructor|].
  rewrite IH, <- !app_assoc. apply Permutation_app_head.
  rewrite !app_assoc. apply Permutation_app_tail. apply Permutation_app_comm.
Qed.

Lemma flat_map_single_key {Y} (k0 : chars) (y : Y) keys :
  NoDup keys ->
  flat_map (fun k => if str_eqb k0 k then [y] else []) keys
  = if existsb (str_eqb k0) keys then [y] else [].
Proof.
  induction 1 as [|k keys Hk Hnd IH]; cbn; [reflexivity|].
  rewrite IH. destruct (str_eqb k0 k) eqn:E; cbn; [|reflexivity].
  apply str_eqb_eq in E. subst k.
  destruct (existsb (str_eqb k0) keys) eqn:Ex; [|reflexivity].
  apply existsb_str_eqb_In in Ex. contradiction.
Qed.

(** Splitting a list by key, over distinct keys that cover it, loses and
    repeats nothing. *)
Lemma split_by_key_perm (l : list (chars * json)) keys :
  NoDup keys ->
  (forall entry, In entry l -> In (book_of entry) keys) ->
  Permutation
    (flat_map (fun k => filter (fun entry => str_eqb (book_of entry) k) l) keys)
    l.
Proof.
  intros Hnd. induction l as [|entry l IH]; intros Hcov.
  - cbn. clear. induction keys; cbn; [constructor | assumption].
  - assert (E : forall k, filter (fun x => str_eqb (book_of x) k) (entry :: l)
                          = (if str_eqb (book_of entry) k then [entry] else [])
                            ++ filter (fun x => str_eqb (book_of x) k) l).
    { intros k. cbn. now destruct (str_eqb (book_of entry) k). }
    rewrite (flat_map_ext _ _ E), flat_map_app_pointwise.
    rewrite (flat_map_single_key (book_of entry) entry keys Hnd).
    assert (Hin : existsb (str_eqb (book_of entry)) keys = true).
    { apply existsb_str_eqb_In. apply Hcov. now left. }
    rewrite Hin. cbn. constructor. apply IH. intros x Hx. apply Hcov. now right.
Qed.

Lemma grouped_key_iff d docs k :
  grouped d docs ->
  (In k (dict_keys d) <-> exists entry, In entry (numbered docs) /\ book_of entry = k).
Proof.
  intros [_ Hget]. specialize (Hget k). split.
  - intros Hk. destruct (existsb (str_eqb k) (map book_of (numbered docs))) eqn:Ex.
    + apply existsb_str_eqb_In, in_map_iff in Ex. destruct Ex as (entry & E & Hin).
      now exists entry.
    + now apply dict_get_none_keys in Hget.
  - intros (entry & Hin & <-).
    assert (Ex : existsb (str_eqb (book_of entry)) (map book_of (numbered docs)) = true).
    { apply existsb_str_eqb_In, in_map. exact Hin. }
    rewrite Ex in Hget.
    destruct (in_dec (list_eq_dec ascii_dec) (book_of entry) (dict_keys d)) as [H|H];
      [exact H|].
    apply dict_get_none_keys in H. congruence.
Qed.

Lemma numbered_unnumbered_perm docs :
  Permutation (map snd (numbered docs) ++ unnumbered docs) docs.
Proof.
  induction docs as [|doc docs IH]; [constructor|].
  unfold numbered, unnumbered. cbn [flat_map filter].
  fold (numbered docs). fold (unnumbered docs).
  destruct (doc_number doc) as [nr|]; cbn.
  - now constructor.
  - rewrite <- Permutation_middle. now constructor.
Qed.

Lemma in_numbered docs nr doc :
  In (nr, doc) (numbered docs) <-> In doc docs /\ doc_number doc = Some nr.
Proof.
  unfold numbered. rewrite in_flat_map. split.
  - intros (x & Hx & H). destruct (doc_number x) as [n|] eqn:E; [|contradiction].
    destruct H as [H|[]]. injection H as -> ->. now split.
  - intros [Hd Hn]. exists doc. split; [assumption|]. rewrite Hn. now left.
Qed.





(** X8. The catalogue tab shows every listed document exactly once: the
    book groups have distinct keys, the documents in the groups together
    with the ungrouped ones are a rearrangement of the list, and the
    ungrouped ones are the documents without a registry number, in
    listing order. *)
Theorem catalogue_shows_each_document_once :
  forall (documents : list json)
         (books : list (chars * list (chars * json))) (rest : list json),
    catalogue_view documents = inr (books, rest) ->
    NoDup (map fst books)
    /\ rest = unnumbered documents
    /\ Permutation (map snd (flat_map snd books) ++ rest) documents.
Proof.
  intros documents books rest H.
  assert (Hw : Forall well_titled documents)
    by (exact (catalogue_view_well_titled documents _ H)).
  destruct (catalogue_view_grouped documents Hw) as (d & G & E).
  rewrite E in H. destruct (sort_key_error (dict_keys d)); [discriminate|].
  injection H as <- <-.
  pose proof (sorted_rechtsbuecher_perm d) as Hp.
  pose proof G as [Hnd _].
  split; [|split; [reflexivity|]].
  - rewrite map_map. cbn [fst]. rewrite map_id.
    eapply Permutation_NoDup; eassumption.
  - rewrite <- (numbered_unnumbered_perm documents) at 2.
    apply Permutation_app_tail. apply Permutation_map.
    rewrite flat_map_concat_map, map_map. cbn [snd]. rewrite <- flat_map_concat_map.
    transitivity (flat_map (fun k => members k documents) (sorted_rechtsbuecher d)).
    { clear. induction (sorted_rechtsbuecher d) as [|k ks IH]; cbn; [constructor|].
      apply Permutation_app; [|exact IH].
      symmetry. apply sorted_docs_order. }
    apply split_by_key_perm.
    + eapply Permutation_NoDup; eassumption.
    + intros entry Hin. apply (Permutation_in _ Hp).
      apply (grouped_key_iff d documents _ G). now exists entry.
Qed.

Lemma sample_catalogue_shown_once :
  NoDup (map fst sample_books)
  /\ sample_rest = unnumbered sample_catalogue
  /\ Permutation (map snd (flat_map snd sample_books) ++ sample_rest) sample_catalogue.
Proof.
  apply (catalogue_shows_each_document_once sample_catalogue sample_books sample_rest).
  reflexivity.
Defined.

(** X9. Every book group of the catalogue tab is non-empty and holds
    exactly the documents whose registry number starts with the group's
    key: each entry is a listed document, paired with the number read off
    its display name, and the part of that number before the first dot
    is the key. *)
Theorem catalogue_groups_by_book :
  forall (documents : list json)
         (books : list (chars * list (chars * json))) (rest : list json)
         (k : chars) (entries : list (chars * json)),
    catalogue_view documents = inr (books, rest) ->
    In (k, entries) books ->
    entries <> []
    /\ Permutation entries (members k documents)
    /\ forall nr doc,
         In (nr, doc) entries <->
         In doc documents /\ doc_number doc = Some nr /\ before_first_dot nr = k.
Proof.
  intros documents books rest k entries H Hin.
  assert (Hw : Forall well_titled documents)
    by (exact (catalogue_view_well_titled documents _ H)).
  destruct (catalogue_view_grouped documents Hw) as (d & G & E).
  rewrite E in H. destruct (sort_key_error (dict_keys d)); [discriminate|].
  injection H as <- <-.
  apply in_map_iff in Hin. destruct Hin as (k' & Hk & Hk').
  injection Hk as -> <-.
  assert (Hperm : Permutation (sorted_docs (members k documents)) (members k documents))
    by (symmetry; apply sorted_docs_order).
  assert (Hmem : forall nr doc,
             In (nr, doc) (members k documents) <->
             In doc documents /\ doc_number doc = Some nr /\ before_first_dot nr = k).
  { intros nr doc. unfold members. rewrite filter_In, in_numbered.
    unfold book_of. cbn [fst]. rewrite str_eqb_eq. tauto. }
  split; [|split; [exact Hperm|]].
  - apply (Permutation_in _ (Permutation_sym (sorted_rechtsbuecher_perm d))) in Hk'.
    apply (grouped_key_iff d documents k G) in Hk'.
    destruct Hk' as ([nr doc] & Hn & Hb).
    assert (Hm : In (nr, doc) (members k documents)).
    { unfold members. apply filter_In. split; [exact Hn|]. now apply str_eqb_eq. }
    apply (Permutation_in _ (Permutation_sym Hperm)) in Hm.
    intros Hnil. rewrite Hnil in Hm. contradiction.
  - intros nr doc. rewrite <- Hmem. split; apply Permutation_in;
      [exact Hperm | symmetry; exact Hperm].
Qed.

Lemma sample_catalogue_book_432 :
  ([("432.21" : chars, doc_titled "BSG 432.21");
    ("432.311" : chars, doc_titled "BSG_432.311")] <> [])
  /\ Permutation
       [("432.21" : chars, doc_titled "BSG 432.21");
        ("432.311" : chars, doc_titled "BSG_432.311")]
       (members "432" sample_catalogue)
  /\ forall nr doc,
       In (nr, doc)
          [("432.21" : chars, doc_titled "BSG 432.21");
           ("432.311" : chars, doc_titled "BSG_432.311")] <->
       In doc sample_catalogue /\ doc_number doc = Some nr
       /\ before_first_dot nr = ("432" : chars).
Proof.
  apply (catalogue_groups_by_book sample_catalogue sample_books sample_rest
           "432" [("432.21" : chars, doc_titled "BSG 432.21");
                  ("432.311" : chars, doc_titled "BSG_432.311")]).
  - reflexivity.
  - cbn. right. now left.
Defined.

(** X10. The book groups of the catalogue tab come in this order: keys
    that are all digits ascend by their number; keys that are not are
    in lexical order among themselves; and no all-digit key below 999999
    comes after a key that is not all digits. *)
Theorem catalogue_book_order :
  forall (documents : list json)
         (books : list (chars * list (chars * json))) (rest : list json)
         (a b : chars),
    catalogue_view documents = inr (books, rest) ->
    listed_before (map fst books) a b ->
    (isdigit a = true -> isdigit b = true ->
     (int_of_digits a <= int_of_digits b)%Z)
    /\ (isdigit a = false -> isdigit b = false -> str_leb a b = true)
    /\ (isdigit a = false -> isdigit b = true -> (999999 <= int_of_digits b)%Z).
Proof.
  intros documents books rest a b H Hab.
  assert (Hw : Forall well_titled documents)
    by (exact (catalogue_view_well_titled documents _ H)).
  destruct (catalogue_view_grouped documents Hw) as (d & G & E).
  rewrite E in H. destruct (sort_key_error (dict_keys d)); [discriminate|].
  injection H as <- <-.
  rewrite map_map in Hab. cbn [fst] in Hab. rewrite map_id in Hab.
  now apply (sorted_rechtsbuecher_order d).
Qed.

Lemma sample_catalogue_book_order :
  (isdigit "151" = true -> isdigit "432" = true ->
   (int_of_digits "151" <= int_of_digits "432")%Z)
  /\ (isdigit "151" = false -> isdigit "432" = false -> str_leb "151" "432" = true)
  /\ (isdigit "151" = false -> isdigit "432" = true ->
      (999999 <= int_of_digits "432")%Z).
Proof.
  apply (catalogue_book_order sample_catalogue sample_books sample_rest "151" "432").
  - reflexivity.
  - exists [], [], []. reflexivity.
Defined.

(** X11. Within a book group of the catalogue tab the documents come in
    lexical order of their registry numbers. *)
Theorem catalogue_documents_order :
  forall (documents : list json)
         (books : list (chars * list (chars * json))) (rest : list json)
         (k : chars) (entries : list (chars * json)) (x y : chars * json),
    catalogue_view documents = inr (books, rest) ->
    In (k, entries) books ->
    listed_before entries x y ->
    str_leb (fst x) (fst y) = true.
Proof.
  intros documents books rest k entries x y H Hin Hxy.
  assert (Hw : Forall well_titled documents)
    by (exact (catalogue_view_well_titled documents _ H)).
  destruct (catalogue_view_grouped documents Hw) as (d & G & E).
  rewrite E in H. destruct (sort_key_error (dict_keys d)); [discriminate|].
  injection H as <- <-.
  apply in_map_iff in Hin. destruct Hin as (k' & Hk & _).
  injection Hk as -> <-.
  now apply (sorted_docs_order (members k documents)).
Qed.

Lemma sample_catalogue_documents_order :
  str_leb (fst ("432.21" : chars, doc_titled "BSG 432.21"))
          (fst ("432.311" : chars, doc_titled "BSG_432.311")) = true.
Proof.
  apply (catalogue_documents_order sample_catalogue sample_books sample_rest
           "432" [("432.21" : chars, doc_titled "BSG 432.21");
                  ("432.311" : chars, doc_titled "BSG_432.311")]).
  - reflexivity.
  - cbn. right. now left.
  - exists [], [], []. reflexivity.
Defined.

(* ================================================================== *)
(** * [format_grounding_chunks]: no snippet is lost *)
(* ================================================================== *)

Lemma flat_map_agree {X Y} (f g : X -> list Y) l :
  (forall x, In x l -> f x = g x) -> flat_map f l = flat_map g l.
Proof.
  induction l as [|x l IH]; intros H; cbn; [reflexivity|].
  rewrite (H x (or_introl eq_refl)). f_equal. apply IH.
  intros y Hy. apply H. now right.
Qed.

Lemma dict_values_by_key {V} (d : dict chars (list V)) :
  NoDup (dict_keys d) ->
  flat_map snd d
  = flat_map (fun k => match dict_get str_eqb d k with
                       | Some l => l
                       | None => []
                       end) (dict_keys d).
Proof.
  unfold dict_keys. induction d as [|[k v] d IH]; cbn; intros Hnd; [reflexivity|].
  inversion Hnd as [|? ? Hk Hd]; subst.
  rewrite str_eqb_refl. f_equal. rewrite (IH Hd).
  apply flat_map_agree. intros k' Hk'.
  destruct (str_eqb k k') eqn:E; [|reflexivity].
  apply str_eqb_eq in E. subst k'. contradiction.
Qed.

Lemma snippets_by_title_perm es keys :
  NoDup keys ->
  (forall t, In t (titles es) -> In t keys) ->
  Permutation (flat_map (fun t => snippets_for t es) keys) (all_snippets es).
Proof.
  intros Hnd. induction es as [|[t sn] es IH]; intros Hcov.
  - cbn. clear. induction keys; cbn; [constructor | assumption].
  - assert (E : forall k, snippets_for k ((t, sn) :: es)
                          = (if str_eqb t k
                             then match sn with Some s => [s] | None => [] end
                             else [])
                            ++ snippets_for k es) by reflexivity.
    rewrite (flat_map_ext _ _ E), flat_map_app_pointwise.
    unfold all_snippets. cbn [flat_map snd]. fold (all_snippets es).
    apply Permutation_app.
    + destruct sn as [s|].
      * rewrite (flat_map_single_key t s keys Hnd).
        assert (Hin : existsb (str_eqb t) keys = true).
        { apply existsb_str_eqb_In. apply Hcov. now left. }
        now rewrite Hin.
      * clear. induction keys as [|k keys IHk]; cbn; [constructor|].
        now destruct (str_eqb t k).
    + apply IH. intros t' Ht'. apply Hcov. now right.
Qed.

(** X12. [format_grounding_chunks] loses and repeats nothing: the
    snippets filed under all titles together are a rearrangement of the
    stripped non-empty texts of the chunks that have a title. *)
Theorem format_grounding_chunks_keeps_snippets :
  forall response : GenerateContentResponse,
    Permutation
      (flat_map snd (format_grounding_chunks response))
      (all_snippets (entries (chunks_of response))).
Proof.
  intros response.
  set (es := entries (chunks_of response)).
  assert (G : groups (format_grounding_chunks response) es).
  { subst es. rewrite format_grounding_chunks_fold, format_fold_entries.
    apply (groups_fold (entries (chunks_of response)) [] [] groups_empty). }
  destruct G as [Hnd Hget].
  rewrite (dict_values_by_key _ Hnd).
  assert (Hkeys : forall t, In t (titles es) ->
                            In t (dict_keys (format_grounding_chunks response))).
  { intros t Ht. apply existsb_str_eqb_In in Ht.
    destruct (in_dec (list_eq_dec ascii_dec) t
                (dict_keys (format_grounding_chunks response))) as [H|H];
      [exact H|].
    apply dict_get_none_keys in H. rewrite Hget, Ht in H. discriminate. }
  rewrite <- (snippets_by_title_perm es _ Hnd Hkeys).
  apply Permutation_refl'. apply flat_map_agree.
  intros t Ht. rewrite Hget.
  destruct (existsb (str_eqb t) (titles es)) eqn:Ex; [reflexivity|].
  now rewrite (snippets_for_absent t es Ex).
Qed.

(* ================================================================== *)
(** * The upload tab after a click *)
(* ================================================================== *)

(** X13. In [app.py] the upload button never uploads: for a file within
    the limit, a click ends with the [NameError] shown and the failure
    message, and neither a temp file nor a vendor call is made. *)
Theorem app_upload_click_always_fails :
  forall (fmt_2f : Q -> chars) (mkstemp : chars -> chars)
         (vendor : upload_args -> exn + chars) (filestore_id : chars)
         (f : UploadedFile) (display_name : chars) (w : world),
    (Z.of_N (blob_len (uf_value f)) <= size_ceiling)%Z ->
    App.upload_tab fmt_2f true mkstemp vendor filestore_id (Some f) display_name w
    = (Ok tt,
       after w (fs w)
         [size_info fmt_2f f; upload_button;
          StError "Fehler beim Hochladen: name 'Path' is not defined";
          StError "❌ Fehler beim Hochladen"]).
Proof.
  intros fmt_2f mkstemp vendor filestore_id f display_name w Hn.
  unfold App.upload_tab, App.upload_file_to_filestore, load_global.
  rewrite Qgtb_file_size, path_not_bound_in_app.
  apply Z.ltb_ge in Hn. rewrite Hn.
  destruct w as [files tr dk]. run_eff. norm_trace. reflexivity.
Qed.

Lemma app_upload_click_fails_for_2kb :
  App.upload_tab (fun _ => "0.00" : chars) true (fun s => "/tmp/tmpx" ++ s)
    (fun _ => inr ("operations/1" : chars)) "fileSearchStores/belex"
    (Some file_2kb) "" empty_world
  = (Ok tt,
     after empty_world []
       [size_info (fun _ => "0.00" : chars) file_2kb; upload_button;
        StError "Fehler beim Hochladen: name 'Path' is not defined";
        StError "❌ Fehler beim Hochladen"]).
Proof.
  apply (app_upload_click_always_fails (fun _ => "0.00" : chars)
           (fun s => "/tmp/tmpx" ++ s) (fun _ => inr ("operations/1" : chars))
           "fileSearchStores/belex" file_2kb "" empty_world).
  unfold size_ceiling. cbn. lia.
Defined.

(** X14. In [app_unibe.py] a click on the upload button, for a file within
    the limit.  When the temp directory lets the three operations
    through, exactly one vendor call is made, between writing and
    unlinking the temp file, and the success message is shown exactly
    when the call answers.  When creating or writing the file fails, no
    vendor call is made and the failure messages are shown; after a
    failed write the file stays.  When unlinking fails, the failure
    messages are shown even if the vendor took the file, and the file
    stays.  The display name sent is the text typed, or the file's name
    when nothing was typed. *)
Theorem unibe_upload_click :
  forall (fmt_2f : Q -> chars) (now_iso : chars) (mkstemp : chars -> chars)
         (vendor : upload_args -> exn + chars) (filestore_id : chars)
         (f : UploadedFile) (display_name : chars) (w : world),
    (Z.of_N (blob_len (uf_value f)) <= size_ceiling)%Z ->
    let p := mkstemp (path_suffix (uf_name f)) in
    let args := unibe_upload_args now_iso p filestore_id f (Some display_name) in
    let run := AppUnibe.upload_tab fmt_2f true now_iso mkstemp vendor
                 filestore_id (Some f) display_name w in
    let failed := fun e : exn => unibe_upload_verdict (inl e) in
    (disk w DoCreate p = None -> disk w DoWrite p = None ->
     disk w DoUnlink p = None ->
     run = (Ok tt,
            after w (without p (p :: fs w))
              ([size_info fmt_2f f; upload_button;
                TempCreate p; TempWrite p (uf_value f); VendorUpload args;
                Unlink p]
               ++ unibe_upload_verdict (vendor args))))
    /\ (forall e, disk w DoCreate p = Some e ->
          run = (Ok tt,
                 after w (fs w) ([size_info fmt_2f f; upload_button] ++ failed e)))
    /\ (forall e, disk w DoCreate p = None -> disk w DoWrite p = Some e ->
          run = (Ok tt,
                 after w (p :: fs w)
                   ([size_info fmt_2f f; upload_button; TempCreate p]
                    ++ failed e)))
    /\ (forall e, disk w DoCreate p = None -> disk w DoWrite p = None ->
          disk w DoUnlink p = Some e ->
          run = (Ok tt,
                 after w (p :: fs w)
                   ([size_info fmt_2f f; upload_button;
                     TempCreate p; TempWrite p (uf_value f); VendorUpload args]
                    ++ failed e)))
    /\ ua_display_name args
       = match display_name with [] => uf_name f | _ => display_name end.
Proof.
  intros fmt_2f now_iso mkstemp vendor filestore_id f display_name w Hn p args
    run failed.
  assert (Hrun : run
            = let (r, w') :=
                AppUnibe.upload_file_to_filestore now_iso mkstemp vendor
                  filestore_id f (Some display_name)
                  (after w (fs w) [size_info fmt_2f f; upload_button]) in
              match r with
              | Ok (Some _) =>
                  (Ok tt, after w' (fs w') (unibe_upload_verdict (inr [])))
              | Ok None =>
                  (Ok tt, after w' (fs w') [StError "❌ Fehler beim Hochladen"])
              | Raise e => (Raise e, w')
              | OutOfFuel => (OutOfFuel, w')
              end).
  { subst run. unfold AppUnibe.upload_tab. rewrite Qgtb_file_size.
    apply Z.ltb_ge in Hn. rewrite Hn.
    destruct w as [files tr dk]. run_eff. norm_trace.
    destruct (AppUnibe.upload_file_to_filestore _ _ _ _ _ _ _) as [[[r|]|e|] w'];
      try reflexivity; destruct w'; run_eff; norm_trace; reflexivity. }
  rewrite Hrun, unibe_upload_run. cbv zeta. fold p. fold args.
  destruct w as [files tr dk]. cbn [after disk fs trace].
  subst failed. unfold unibe_upload_verdict.
  split; [|split; [|split; [|split]]].
  - intros Hc Hw Hu. rewrite Hc, Hw, Hu.
    destruct (vendor args); unfold after; cbn [fs trace disk]; norm_trace;
      reflexivity.
  - intros e Hc. rewrite Hc. unfold after; cbn [fs trace disk]; norm_trace.
    reflexivity.
  - intros e Hc Hw. rewrite Hc, Hw. unfold after; cbn [fs trace disk]; norm_trace.
    reflexivity.
  - intros e Hc Hw Hu. rewrite Hc, Hw, Hu.
    unfold after; cbn [fs trace disk]; norm_trace. reflexivity.
  - now destruct display_name.
Qed.

Lemma unibe_upload_click_for_2kb :
  let p : chars := "/tmp/tmpx.pdf" in
  let args := unibe_upload_args "2025-01-01T00:00:00" p "fileSearchStores/belex"
                file_2kb (Some []) in
  AppUnibe.upload_tab (fun _ => "0.00" : chars) true "2025-01-01T00:00:00"
    (fun s => "/tmp/tmpx" ++ s) (fun _ => inr ("operations/1" : chars))
    "fileSearchStores/belex" (Some file_2kb) "" empty_world
  = (Ok tt,
     after empty_world (without p (p :: fs empty_world))
       ([size_info (fun _ => "0.00" : chars) file_2kb; upload_button;
         TempCreate p; TempWrite p (uf_value file_2kb); VendorUpload args; Unlink p]
        ++ unibe_upload_verdict (inr ("operations/1" : chars))))
  /\ ua_display_name args = uf_name file_2kb.
Proof.
  assert (Hn : (Z.of_N (blob_len (uf_value file_2kb)) <= size_ceiling)%Z)
    by (unfold size_ceiling; cbn; lia).
  destruct (unibe_upload_click (fun _ => "0.00" : chars) "2025-01-01T00:00:00"
              (fun s => "/tmp/tmpx" ++ s) (fun _ => inr ("operations/1" : chars))
              "fileSearchStores/belex" file_2kb "" empty_world Hn)
    as (Hsound & _ & _ & _ & Hname).
  split; [apply Hsound; reflexivity | exact Hname].
Defined.

(** X15. [upload_file_to_filestore] of [app_unibe.py] never raises and
    leaves every path but its own temp path as it found it.  It returns
    the vendor's answer exactly when creating, writing and unlinking the
    temp file go through and the vendor call answers; whenever it returns
    [None] it has shown an error.  The vendor is called exactly when the
    file could be created and written, and with no other arguments.  A
    fresh temp path is left behind exactly when the file was created and
    then the write or the unlink failed. *)
Theorem unibe_upload_contract :
  forall (now_iso : chars) (mkstemp : chars -> chars)
         (vendor : upload_args -> exn + chars) (filestore_id : chars)
         (f : UploadedFile) (display_name : option chars) (w : world),
    let p := mkstemp (path_suffix (uf_name f)) in
    let args := unibe_upload_args now_iso p filestore_id f display_name in
    exists r files evs,
      AppUnibe.upload_file_to_filestore now_iso mkstemp vendor filestore_id f
        display_name w
      = (Ok r, after w files evs)
      /\ (forall q, q <> p -> (In q files <-> In q (fs w)))
      /\ (forall resp,
            r = Some resp
            <-> disk w DoCreate p = None /\ disk w DoWrite p = None
                /\ disk w DoUnlink p = None /\ vendor args = inr resp)
      /\ (r = None ->
          exists e, In (StError ("Fehler beim Hochladen: " ++ exn_str e)) evs)
      /\ (forall a, In (VendorUpload a) evs
                    <-> a = args /\ disk w DoCreate p = None
                        /\ disk w DoWrite p = None)
      /\ (~ In p (fs w) ->
          (In p files
           <-> disk w DoCreate p = None
               /\ (disk w DoWrite p <> None \/ disk w DoUnlink p <> None))).
Proof.
  intros now_iso mkstemp vendor filestore_id f display_name w p args.
  rewrite unibe_upload_run. cbv zeta. fold p. fold args.
  assert (Hfiles : forall q, q <> p ->
                     (In q (without p (p :: fs w)) <-> In q (fs w))).
  { intros q Hq. unfold without. rewrite filter_In. cbn [In].
    split.
    - intros [[H|H] _]; [congruence|exact H].
    - intros H. split; [now right|].
      apply negb_true_iff, str_eqb_neq. congruence. }
  assert (Hcons : forall q, q <> p -> (In q (p :: fs w) <-> In q (fs w))).
  { intros q Hq. cbn [In]. split; [intros [H|H]; [congruence|exact H]|now right]. }
  pose proof (not_in_without p (p :: fs w)) as Hgone.
  destruct (disk w DoCreate p) as [ec|] eqn:Ec;
    [|destruct (disk w DoWrite p) as [ew|] eqn:Ew;
      [|destruct (disk w DoUnlink p) as [eu|] eqn:Eu;
        [|destruct (vendor args) as [ev|resp] eqn:Ev]]];
    eexists _, _, _; (split; [reflexivity|]);
    (split; [first [exact Hfiles | exact Hcons | tauto]|]);
    (split; [intros resp'; split;
             [intros H; first [discriminate | injection H as <-; now repeat split]
             |intros (H1 & H2 & H3 & H4); congruence]|]);
    (split; [intros H; first [discriminate | eexists; cbn [In]; eauto 8]|]);
    (split; [intros a; cbn [In]; split;
             [intros H; repeat (destruct H as [H|H]; try discriminate);
              try contradiction; injection H as <-; now repeat split
             |intros (-> & H1 & H2); first [discriminate | eauto 8]]|]);
    intros Hfresh; split; intros H;
    try (exfalso; first [now apply Hfresh | now apply Hgone]);
    try (destruct H as (H1 & [H2|H2]); congruence);
    try (split; [reflexivity|]; first [left; discriminate | right; discriminate]);
    try (cbn [In]; now left).
Qed.

(* ================================================================== *)
(** * Start-up *)
(* ================================================================== *)



(** With both secrets set, the configuration comes back. *)
Example load_config_full :
  load_config full_secrets empty_world
  = (Ok (Some (JStr "AIza-key", JStr "fileSearchStores/belex")), empty_world).
Proof. reflexivity. Qed.

(** With none set, the script stops on the first look-up. *)
Example load_config_missing :
  load_config (fun a _ => inl (KeyError a)) empty_world
  = (Ok None,
     after empty_world []
       [StError "❌ Fehler: Fehlende Konfiguration in secrets: 'gemini'";
        StError "Bitte stellen Sie sicher, dass alle erforderlichen Secrets konfiguriert sind."]).
Proof. reflexivity. Qed.

(* ================================================================== *)
(** * The command-line client *)
(* ================================================================== *)

Lemma calls_app a b : calls (a ++ b) = calls a ++ calls b.
Proof. unfold calls. apply flat_map_app. Qed.

Lemma calls_source_lines l : calls (flat_map BelexSearch.source_lines l) = [].
Proof.
  induction l as [|[i [title snippets]] l IH]; [reflexivity|].
  cbn [flat_map]. rewrite calls_app, IH, app_nil_r.
  unfold BelexSearch.source_lines. rewrite calls_app.
  destruct (Re.search bsg_pattern title) as [[g|]|]; destruct snippets; reflexivity.
Qed.

(** A search asks the vendor once, for the query as given. *)
Lemma calls_search generate filestore_id query :
  calls (fst (BelexSearch.search generate filestore_id query))
  = [flash_call filestore_id query].
Proof.
  unfold BelexSearch.search. fold (flash_call filestore_id query).
  destruct (generate (flash_call filestore_id query)) as [e|response];
    cbn [fst]; [reflexivity|].
  rewrite !calls_app.
  replace (calls (match ans_text response with
                  | Some ((_ :: _) as txt) =>
                      [Printed (nl ++ "📄 Answer:"); Printed (rule "-"%char);
                       Printed txt; Printed (nl ++ rule "="%char)]
                  | _ => [Printed (nl ++ "⚠️  No answer generated")]
                  end)) with (@nil generate_call)
    by (destruct (ans_text response) as [[|c t]|]; reflexivity).
  destruct (candidates (ans_response response)) as [|[|candidate ?]];
    try reflexivity.
  destruct (grounding_metadata candidate) as [|grounding]; [reflexivity|].
  destruct (grounding_chunks grounding) as [|[|c0 chunks]]; try reflexivity.
  rewrite !calls_app, calls_source_lines. reflexivity.
Qed.

Lemma is_quit_blank : BelexSearch.is_quit [] = false.
Proof. reflexivity. Qed.

Lemma calls_interactive generate filestore_id lines tail :
  Forall (fun s => BelexSearch.is_quit (strip s) = false) lines ->
  stops tail ->
  calls (BelexSearch.interactive generate filestore_id
           (map BelexSearch.Line lines ++ tail))
  = map (flash_call filestore_id) (filter nonblank (map strip lines)).
Proof.
  intros Hlines Htail. induction Hlines as [|s lines Hs _ IH].
  - cbn [map app filter].
    destruct Htail as [->|[(rest & ->)|(s & rest & -> & Hq)]]; try reflexivity.
    cbn [BelexSearch.interactive].
    destruct (strip s) as [|c q] eqn:E; [now rewrite is_quit_blank in Hq|].
    now rewrite Hq.
  - cbn [map app filter BelexSearch.interactive].
    destruct (strip s) as [|c q] eqn:E; [exact IH|].
    rewrite Hs. cbn [nonblank map].
    change (Prompted "🔍 Search: " :: ?l) with ([Prompted "🔍 Search: "] ++ l).
    rewrite calls_app, calls_app, calls_search.
    change (Printed nl :: ?l) with ([Printed nl] ++ l).
    rewrite calls_app. cbn [calls flat_map app]. now rewrite IH.
Qed.

(** X17. The interactive client asks the vendor exactly the lines typed
    before the input stops (end of input, Ctrl-C, or [quit], [exit] or
    [q] in any case), each stripped, blank ones left out, in the order
    typed, each once; and [main] then returns. *)
Theorem cli_interactive_queries :
  forall (config_file : option (exn + json)) (filestore_id : json)
         (argv : list chars) (lines : list chars)
         (tail : list BelexSearch.stdin_event)
         (generate : generate_call -> exn + answer),
    configured config_file filestore_id ->
    tl argv = [] ->
    Forall (fun s => BelexSearch.is_quit (strip s) = false) lines ->
    stops tail ->
    calls (fst (BelexSearch.main config_file argv
                  (map BelexSearch.Line lines ++ tail) generate))
    = map (flash_call filestore_id) (filter nonblank (map strip lines))
    /\ snd (BelexSearch.main config_file argv
              (map BelexSearch.Line lines ++ tail) generate)
       = BelexSearch.Returned.
Proof.
  intros config_file filestore_id argv lines tail generate
    (config & section & api_key & -> & Hs & Hk & Hf & Tk & Tf) Hargv Hlines Htail.
  unfold BelexSearch.main. rewrite Hs, Hk, Hf, Tk, Tf, Hargv. cbn [negb fst snd].
  split; [|reflexivity].
  rewrite calls_app. cbn [calls flat_map app].
  now apply calls_interactive.
Qed.

Lemma cli_interactive_session :
  calls (fst (BelexSearch.main (Some (inr sample_config)) ["belex_search.py" : chars]
                (map BelexSearch.Line
                   ["  " : chars; " Baugesuch Frist " : chars; "Personalgesetz" : chars]
                 ++ [BelexSearch.Line " Quit "; BelexSearch.Line "Steuern"])
                (fun _ => inr sample_answer)))
  = map (flash_call (JStr "fileSearchStores/belex"))
        (filter nonblank
           (map strip ["  " : chars; " Baugesuch Frist " : chars; "Personalgesetz" : chars]))
  /\ snd (BelexSearch.main (Some (inr sample_config)) ["belex_search.py" : chars]
            (map BelexSearch.Line
               ["  " : chars; " Baugesuch Frist " : chars; "Personalgesetz" : chars]
             ++ [BelexSearch.Line " Quit "; BelexSearch.Line "Steuern"])
            (fun _ => inr sample_answer))
     = BelexSearch.Returned.
Proof.
  apply cli_interactive_queries.
  - exists sample_config,
      (JObj [("api_key" : chars, JStr "AIza-key");
             ("filestore_id" : chars, JStr "fileSearchStores/belex")]),
      (JStr "AIza-key").
    repeat split.
  - reflexivity.
  - repeat constructor.
  - right. right. exists (" Quit " : chars), [BelexSearch.Line "Steuern"].
    split; reflexivity.
Defined.

Lemma calls_interactive_shape generate filestore_id stdin :
  Forall (fun c => exists query, c = flash_call filestore_id query)
    (calls (BelexSearch.interactive generate filestore_id stdin)).
Proof.
  induction stdin as [|[s|] stdin IH]; cbn [BelexSearch.interactive].
  - constructor.
  - destruct (strip s) as [|c q]; [exact IH|].
    destruct (BelexSearch.is_quit (c :: q)); [constructor|].
    change (Prompted "🔍 Search: " :: ?l) with ([Prompted "🔍 Search: "] ++ l).
    rewrite calls_app, calls_app, calls_search.
    change (Printed nl :: ?l) with ([Printed nl] ++ l).
    rewrite calls_app. cbn [calls flat_map app].
    constructor; [now exists (c :: q) | exact IH].
  - constructor.
Qed.

(** X18. The command-line client calls the vendor only with a complete
    configuration: any call it makes goes to the store named in
    [config.json], whose key and store id are both non-empty, with the
    model [gemini-2.5-flash] and no system instruction. *)
Theorem cli_asks_only_when_configured :
  forall (config_file : option (exn + json)) (argv : list chars)
         (stdin : list BelexSearch.stdin_event)
         (generate : generate_call -> exn + answer) (call : generate_call),
    In call (calls (fst (BelexSearch.main config_file argv stdin generate))) ->
    configured config_file (gc_store call)
    /\ gc_model call = ("gemini-2.5-flash" : chars)
    /\ gc_system_instruction call = None.
Proof.
  intros config_file argv stdin generate call. unfold BelexSearch.main.
  destruct config_file as [[e|config]|]; try (intros []; fail).
  destruct (json_get config "gemini" (JObj [])) as [e|section] eqn:Hs;
    try (intros []; fail).
  destruct (json_get section "api_key" JNull) as [e|api_key] eqn:Hk;
    try (intros []; fail).
  destruct (json_get section "filestore_id" JNull) as [e|filestore_id] eqn:Hf;
    try (intros []; fail).
  destruct (truthy api_key) eqn:Tk; cbn [negb]; try (intros []; fail).
  destruct (truthy filestore_id) eqn:Tf; cbn [negb]; try (intros []; fail).
  assert (Hcfg : configured (Some (inr config)) filestore_id)
    by (exists config, section, api_key; repeat split; assumption).
  destruct (tl argv) as [|a args]; cbn [fst].
  - rewrite calls_app. cbn [calls flat_map app]. intros Hin.
    pose proof (calls_interactive_shape generate filestore_id stdin) as Hall.
    rewrite Forall_forall in Hall. destruct (Hall call Hin) as (q & ->).
    now repeat split.
  - rewrite calls_search. intros [<-|[]]. now repeat split.
Qed.

Lemma cli_one_shot_call :
  configured (Some (inr sample_config))
    (gc_store (flash_call (JStr "fileSearchStores/belex") "Baugesuch Frist"))
  /\ gc_model (flash_call (JStr "fileSearchStores/belex") "Baugesuch Frist")
     = ("gemini-2.5-flash" : chars)
  /\ gc_system_instruction
       (flash_call (JStr "fileSearchStores/belex") "Baugesuch Frist") = None.
Proof.
  apply (cli_asks_only_when_configured (Some (inr sample_config))
           ["belex_search.py" : chars; "Baugesuch" : chars; "Frist" : chars]
           [] (fun _ => inr sample_answer)).
  now left.
Defined.

(** X19. How the command-line client ends: with a complete
    configuration [main] returns; it exits only with code 1, having
    printed one line and nothing else; and when reading the
    configuration raises, nothing has been printed or asked. *)
Theorem cli_exit_status :
  forall (config_file : option (exn + json)) (argv : list chars)
         (stdin : list BelexSearch.stdin_event)
         (generate : generate_call -> exn + answer),
    let run := BelexSearch.main config_file argv stdin generate in
    ((exists filestore_id, configured config_file filestore_id) ->
     snd run = BelexSearch.Returned)
    /\ (forall code, snd run = BelexSearch.Exited code ->
                     code = 1%Z /\ exists line, fst run = [Printed line])
    /\ (forall e, snd run = BelexSearch.Crashed e -> fst run = [])
    /\ (config_file = None -> snd run = BelexSearch.Exited 1).
Proof.
  intros config_file argv stdin generate. cbv zeta. unfold BelexSearch.main.
  split; [|split; [|split]].
  - intros (store & config & section & api_key & -> & Hs & Hk & Hf & Tk & Tf).
    rewrite Hs, Hk, Hf, Tk, Tf. cbn [negb]. now destruct (tl argv).
  - intros code.
    destruct config_file as [[e|config]|]; cbn [snd fst]; try discriminate.
    + destruct (json_get config "gemini" (JObj [])) as [e|section];
        try discriminate.
      destruct (json_get section "api_key" JNull) as [e|api_key];
        try discriminate.
      destruct (json_get section "filestore_id" JNull) as [e|filestore_id];
        try discriminate.
      destruct (truthy api_key); cbn [negb snd fst].
      * destruct (truthy filestore_id); cbn [negb snd fst].
        -- destruct (tl argv); discriminate.
        -- intros H. injection H as <-. split; [reflexivity|]. now eexists.
      * intros H. injection H as <-. split; [reflexivity|]. now eexists.
    + intros H. injection H as <-. split; [reflexivity|]. now eexists.
  - intros e0.
    destruct config_file as [[e|config]|]; cbn [snd fst]; try discriminate;
      try reflexivity.
    destruct (json_get config "gemini" (JObj [])) as [e|section];
      try reflexivity.
    destruct (json_get section "api_key" JNull) as [e|api_key];
      try reflexivity.
    destruct (json_get section "filestore_id" JNull) as [e|filestore_id];
      try reflexivity.
    destruct (truthy api_key); cbn [negb snd fst]; try discriminate.
    destruct (truthy filestore_id); cbn [negb snd fst]; try discriminate.
    destruct (tl argv); discriminate.
  - intros ->. reflexivity.
Qed.

(* ================================================================== *)
(** * The search and prompt tabs *)
(* ================================================================== *)

(** The flag says whether the stored prompt differs from the default. *)
Lemma prompt_tab_keeps_flag D ps action :
  UnibeSearch.use_custom_prompt ps
  = negb (str_eqb (UnibeSearch.custom_system_prompt ps) D) ->
  UnibeSearch.use_custom_prompt (fst (UnibeSearch.prompt_tab D ps action))
  = negb (str_eqb (UnibeSearch.custom_system_prompt
                     (fst (UnibeSearch.prompt_tab D ps action))) D).
Proof.
  intros H. destruct action as [edited| |]; cbn.
  - destruct (str_eqb edited D) eqn:E; cbn; [now rewrite str_eqb_refl|].
    now rewrite E.
  - now rewrite str_eqb_refl.
  - exact H.
Qed.

(** X20. However the prompt tab of [app_unibe.py] is used, in a session
    that starts afresh, the flag [use_custom_prompt] is set exactly when
    the stored prompt differs from the default one; so the prompt a
    search sends is always the stored one. *)
Theorem prompt_flag_tracks_text :
  forall (DEFAULT_SYSTEM_PROMPT : chars)
         (actions : list UnibeSearch.prompt_action),
    let ps := run_prompt_tab DEFAULT_SYSTEM_PROMPT
                (UnibeSearch.initial_prompt_state DEFAULT_SYSTEM_PROMPT) actions in
    (UnibeSearch.use_custom_prompt ps = true
     <-> UnibeSearch.custom_system_prompt ps <> DEFAULT_SYSTEM_PROMPT)
    /\ prompt_in_use DEFAULT_SYSTEM_PROMPT ps = UnibeSearch.custom_system_prompt ps.
Proof.
  intros D actions.
  assert (H : forall ps,
             UnibeSearch.use_custom_prompt ps
             = negb (str_eqb (UnibeSearch.custom_system_prompt ps) D) ->
             UnibeSearch.use_custom_prompt (run_prompt_tab D ps actions)
             = negb (str_eqb (UnibeSearch.custom_system_prompt
                                (run_prompt_tab D ps actions)) D)).
  { unfold run_prompt_tab. induction actions as [|a actions IH]; intros ps Hps;
      cbn [fold_left]; [exact Hps|].
    apply IH. now apply prompt_tab_keeps_flag. }
  specialize (H (UnibeSearch.initial_prompt_state D)).
  cbv zeta.
  set (ps := run_prompt_tab D (UnibeSearch.initial_prompt_state D) actions) in *.
  assert (Hps : UnibeSearch.use_custom_prompt ps
                = negb (str_eqb (UnibeSearch.custom_system_prompt ps) D)).
  { apply H. cbn. now rewrite str_eqb_refl. }
  unfold prompt_in_use. rewrite Hps.
  destruct (str_eqb (UnibeSearch.custom_system_prompt ps) D) eqn:E; cbn.
  - apply str_eqb_eq in E. split; [|now symmetry].
    split; [discriminate|]. intros Hne. contradiction.
  - apply str_eqb_neq in E. split; [|reflexivity]. split; auto.
Qed.

(** X21. The search tab asks the vendor only on a click with a query
    that is not blank: otherwise the last answer stays as it is and no
    call is made.  On such a click it makes exactly one call, with the
    query as typed: [app.py] with [gemini-2.5-flash] and no system
    instruction, [app_unibe.py] with [gemini-2.5-pro] and the prompt in
    use; the answer, or nothing when the call raises, replaces the last
    answer. *)
Theorem search_tab_contract :
  forall (DEFAULT_SYSTEM_PROMPT : chars)
         (generate : generate_call -> exn + answer) (filestore_id : json)
         (ps : UnibeSearch.prompt_state) (st : search_state)
         (query : chars) (search_button : bool),
    let go := search_button && nonblank (strip query) in
    let app := AppSearch.search_tab generate filestore_id st query search_button in
    let unibe := UnibeSearch.search_tab DEFAULT_SYSTEM_PROMPT generate filestore_id
                   ps st query search_button in
    let prompt := prompt_in_use DEFAULT_SYSTEM_PROMPT ps in
    (go = false ->
     fst app = st /\ calls (snd app) = []
     /\ fst unibe = st /\ calls (snd unibe) = [])
    /\ (go = true ->
        calls (snd app) = [flash_call filestore_id query]
        /\ fst app
           = {| last_query := query;
                last_response := returned (generate (flash_call filestore_id query)) |}
        /\ calls (snd unibe) = [pro_call filestore_id prompt query]
        /\ fst unibe
           = {| last_query := query;
                last_response :=
                  returned (generate (pro_call filestore_id prompt query)) |}).
Proof.
  intros D generate filestore_id ps st query search_button. cbv zeta.
  unfold AppSearch.search_tab, UnibeSearch.search_tab, nonblank.
  destruct (search_button && match strip query with [] => false | _ => true end)
    eqn:Go; (split; [intros H | intros H]); try discriminate.
  - pose proof (calls_search generate filestore_id query) as Hc.
    assert (Hr : snd (BelexSearch.search generate filestore_id query)
                 = returned (generate (flash_call filestore_id query))).
    { unfold BelexSearch.search. fold (flash_call filestore_id query).
      now destruct (generate (flash_call filestore_id query)). }
    destruct (BelexSearch.search generate filestore_id query) as [printed response].
    cbn [fst snd] in *. subst response.
    split; [exact Hc|]. split; [reflexivity|].
    unfold prompt_in_use, UnibeSearch.search_with_custom_prompt, pro_call,
      returned.
    destruct (UnibeSearch.use_custom_prompt ps);
      match goal with
      | |- context [generate ?c] => destruct (generate c)
      end; split; reflexivity.
  - cbn [fst snd]. repeat split.
    now destruct (UnibeSearch.use_custom_prompt ps).
Qed.
